(** * Earnings-call transcript scraper: model and verification

    Shallow embedding of [dcf_transcripts.py] (fragment fetcher, assembler,
    normalizer, speaker segmenter) and [sandp_transcripts.py] (batch retry
    controller).

    Conventions of the embedding.
    - A Python [str] is a [list ascii]; the eight bits of an [ascii] are read
      as a code point U+0000..U+00FF, and the character tables below
      ([isspace], [is_linebreak], [lower], [is_word_char]) are Python's,
      restricted to that range.
    - Python [int]s are [Z].  Configuration floats ([sleep_s], [jitter_s]) are
      [Q]: every finite float is a rational, and the arithmetic of the pacing
      delay is read as exact.  The backoff delay is computed in binary64,
      with the primitive floats of the standard library (see [duration] and
      [backoff_seconds]).
    - Effects (network, clock, console, file system) are explicit state
      passing over a [World]; exceptions are a result constructor. *)

From Stdlib Require Import Ascii String.
From Stdlib Require Import List ZArith NArith QArith Lia Bool Arith.
From Stdlib Require Import DecimalString.
From Stdlib Require Import Floats.
Import ListNotations.

Set Implicit Arguments.
Local Close Scope Q_scope.
Local Open Scope nat_scope.

(* ================================================================= *)
(** * Part I. Definitions *)
(* ================================================================= *)

(** ** Strings *)

Definition str := list ascii.

Definition lit (s : string) : str := list_ascii_of_string s.

Definition code (c : ascii) : N := N_of_ascii c.
Definition chr (n : N) : ascii := ascii_of_N n.

Definition LF : ascii := chr 10.
Definition CR : ascii := chr 13.
Definition SP : ascii := chr 32.

Definition str_eqb (a b : str) : bool :=
  if list_eq_dec ascii_dec a b then true else false.

(** [bool(s)] for a string: non-empty. *)
Definition truthy (s : str) : bool :=
  match s with [] => false | _ :: _ => true end.

(** [str.isspace] on one character (Unicode White_Space below U+0100, plus
    the information separators U+001C..U+001F, as CPython has it). *)
Definition isspace (c : ascii) : bool :=
  let n := code c in
  (((9 <=? n) && (n <=? 13)) || ((28 <=? n) && (n <=? 32))
   || (n =? 133) || (n =? 160))%N.

(** Line boundaries of [str.splitlines]: \n \r \v \f \x1c \x1d \x1e \x85
    (and \r\n, handled in [splitlines]). *)
Definition is_linebreak (c : ascii) : bool :=
  let n := code c in
  (((10 <=? n) && (n <=? 13)) || ((28 <=? n) && (n <=? 30)) || (n =? 133))%N.

(** [str.lower] on one character. *)
Definition lower (c : ascii) : ascii :=
  let n := code c in
  if (((65 <=? n) && (n <=? 90)) || ((192 <=? n) && (n <=? 214))
      || ((216 <=? n) && (n <=? 222)))%N
  then chr (n + 32) else c.

Definition str_lower (s : str) : str := map lower s.

Definition is_ascii_alnum (c : ascii) : bool :=
  let n := code c in
  (((48 <=? n) && (n <=? 57)) || ((65 <=? n) && (n <=? 90))
   || ((97 <=? n) && (n <=? 122)))%N.

(** The class \w of [re] for str patterns: [str.isalnum] or underscore. *)
Definition is_word_char (c : ascii) : bool :=
  let n := code c in
  is_ascii_alnum c
  || ((n =? 95) || (n =? 170) || (n =? 178) || (n =? 179) || (n =? 181)
      || (n =? 185) || (n =? 186) || ((188 <=? n) && (n <=? 190))
      || ((192 <=? n) && (n <=? 214)) || ((216 <=? n) && (n <=? 246))
      || (248 <=? n))%N.

(** [s.lstrip()], [s.rstrip()], [s.strip()]. *)
Fixpoint lstrip (s : str) : str :=
  match s with
  | [] => []
  | c :: t => if isspace c then lstrip t else s
  end.

Definition rstrip (s : str) : str := rev (lstrip (rev s)).

Definition strip (s : str) : str := rstrip (lstrip s).

(** [s.startswith(p)] and [p in s]. *)
Fixpoint startswith (s p : str) : bool :=
  match p, s with
  | [], _ => true
  | a :: p', b :: s' => Ascii.eqb a b && startswith s' p'
  | _ :: _, [] => false
  end.

Fixpoint contains (s p : str) : bool :=
  startswith s p
  || match s with
     | [] => false
     | _ :: t => contains t p
     end.

Definition endswith (s p : str) : bool := startswith (rev s) (rev p).

(** [sep.join(parts)]. *)
Fixpoint join (sep : str) (parts : list str) : str :=
  match parts with
  | [] => []
  | [p] => p
  | p :: rest => p ++ sep ++ join sep rest
  end.

(** [s.split()]: maximal runs of non-whitespace characters. *)
Fixpoint split_ws_aux (cur : str) (s : str) : list str :=
  match s with
  | [] => match cur with [] => [] | _ => [rev cur] end
  | c :: t =>
      if isspace c
      then match cur with
           | [] => split_ws_aux [] t
           | _ => rev cur :: split_ws_aux [] t
           end
      else split_ws_aux (c :: cur) t
  end.

Definition split_ws (s : str) : list str := split_ws_aux [] s.

(** [s.splitlines()]: a final line break does not open an empty last line. *)
Fixpoint splitlines_aux (cur : str) (s : str) : list str :=
  match s with
  | [] => match cur with [] => [] | _ => [rev cur] end
  | c :: t =>
      if Ascii.eqb c CR
      then match t with
           | d :: t' =>
               if Ascii.eqb d LF
               then rev cur :: splitlines_aux [] t'
               else rev cur :: splitlines_aux [] t
           | [] => rev cur :: splitlines_aux [] t
           end
      else if is_linebreak c
           then rev cur :: splitlines_aux [] t
           else splitlines_aux (c :: cur) t
  end.

Definition splitlines (s : str) : list str := splitlines_aux [] s.

(** [s.split(sep)] for a one-character separator; [cur] is the field being
    read, reversed. *)
Fixpoint split_on (sep : ascii) (cur : str) (s : str) : list str :=
  match s with
  | [] => [rev cur]
  | c :: t =>
      if Ascii.eqb c sep then rev cur :: split_on sep [] t
      else split_on sep (c :: cur) t
  end.

(** Decimal rendering of an [int] inside an f-string. *)
Definition dec (z : Z) : str := lit (NilZero.string_of_int (Z.to_int z)).

(** ** Regular expressions used by the code

    [re.sub(pattern, repl, s)] scans [s] from the left; where the pattern
    matches at the current position the match is replaced by [repl] and the
    scan resumes after it, otherwise one character is copied.  A pattern is
    given by its anchored matcher: the length of its (greedy) match at the
    head of the remaining input.  None of the patterns below matches the
    empty string. *)

Definition matcher := str -> option nat.

Fixpoint re_sub_from (fuel : nat) (m : matcher) (repl : str) (s : str) : str :=
  match fuel with
  | O => []
  | S fuel' =>
      match s with
      | [] => []
      | c :: t =>
          match m s with
          | Some (S k) => repl ++ re_sub_from fuel' m repl (skipn k t)
          | _ => c :: re_sub_from fuel' m repl t
          end
      end
  end.

Definition re_sub (m : matcher) (repl : str) (s : str) : str :=
  re_sub_from (S (length s)) m repl s.

(** Length of the maximal prefix whose characters satisfy [p]. *)
Fixpoint run_length (p : ascii -> bool) (s : str) : nat :=
  match s with
  | c :: t => if p c then S (run_length p t) else O
  | [] => O
  end.

(** r"\r\n|\r" *)
Definition re_crlf_or_cr : matcher := fun s =>
  match s with
  | c :: d :: _ =>
      if Ascii.eqb c CR then (if Ascii.eqb d LF then Some 2 else Some 1)
      else None
  | [c] => if Ascii.eqb c CR then Some 1 else None
  | [] => None
  end.

(** r"\n{3,}" *)
Definition re_three_newlines : matcher := fun s =>
  let k := run_length (Ascii.eqb LF) s in
  if 3 <=? k then Some k else None.

(** r"[^A-Za-z0-9._-]+" *)
Definition is_safe_char (c : ascii) : bool :=
  let n := code c in
  is_ascii_alnum c || ((n =? 46) || (n =? 95) || (n =? 45))%N.

Definition re_unsafe_run : matcher := fun s =>
  let k := run_length (fun c => negb (is_safe_char c)) s in
  if 1 <=? k then Some k else None.

(** ** dcf_transcripts.py: normalizer *)

Definition _normalize_whitespace (s : str) : str :=
  let s := re_sub re_crlf_or_cr [LF] s in
  let s := re_sub re_three_newlines [LF; LF] s in
  strip s.

(** Following the specification's words: the lines of a text whose only
    line terminator is \n, and the lengths of its maximal runs of
    consecutive blank lines. *)
Fixpoint blank_runs_aux (run : nat) (ls : list str) : list nat :=
  match ls with
  | [] => if run =? 0 then [] else [run]
  | l :: rest =>
      if truthy l
      then (if run =? 0 then [] else [run]) ++ blank_runs_aux 0 rest
      else blank_runs_aux (S run) rest
  end.

Definition blank_line_runs (s : str) : list nat :=
  blank_runs_aux 0 (split_on LF [] s).

(** ** Data model *)

(** A Python [dict] from strings to strings, in insertion order. *)
Definition dict := list (str * str).

Fixpoint dict_set (k v : str) (d : dict) : dict :=
  match d with
  | [] => [(k, v)]
  | (k', v') :: d' =>
      if str_eqb k k' then (k, v) :: d' else (k', v') :: dict_set k v d'
  end.

(** [d.update(upd)] *)
Definition dict_update (d upd : dict) : dict :=
  fold_left (fun acc kv => dict_set (fst kv) (snd kv) acc) upd d.

Definition nonempty {A} (l : list A) : bool :=
  match l with [] => false | _ :: _ => true end.

Module SpeakerBlock.
Record t := mk { speaker : str; text : str }.
End SpeakerBlock.

Module ScrapeConfig.
Record t := mk {
  user_agent : str;
  cookies : option dict;
  base_headers : option dict;
  max_parts : Z;
  sleep_s : Q;
  timeout_s : Z
}.

Definition default : t := {|
  user_agent :=
    lit "Mozilla/5.0 (Windows NT 10.0; Win64; x64) AppleWebKit/537.36 (KHTML, like Gecko) Chrome/122.0.0.0 Safari/537.36";
  cookies := None;
  base_headers := None;
  max_parts := 200;
  sleep_s := 0%Q;
  timeout_s := 30
|}.
End ScrapeConfig.

(** What [session.get] sends and what it answers ([requests.Response]:
    [status_code], [url] after redirects, [text]). *)
Module Request.
Record t := mk {
  url : str;
  params : dict;
  headers : dict;
  cookies : dict;
  timeout : Z
}.
End Request.

Module Response.
Record t := mk { status_code : Z; url : str; text : str }.
End Response.

(** Exceptions.  [LibraryError] stands for an exception class of a library
    ([requests.ConnectionError], [requests.Timeout], ...): a subclass of
    [Exception] that is neither of the two classes this code defines. *)
Inductive exn : Type :=
| TranscriptScrapeError (msg : str)
| RateLimitReached (msg : str)
| ValueError (msg : str)
| FileNotFoundError (msg : str)
| OverflowError (msg : str)
| LibraryError (name msg : str).

(** [type(e).__name__] and [str(e)] *)
Definition exn_name (e : exn) : str :=
  match e with
  | TranscriptScrapeError _ => lit "TranscriptScrapeError"
  | RateLimitReached _ => lit "RateLimitReached"
  | ValueError _ => lit "ValueError"
  | FileNotFoundError _ => lit "FileNotFoundError"
  | OverflowError _ => lit "OverflowError"
  | LibraryError name _ => name
  end.

Definition exn_str (e : exn) : str :=
  match e with
  | TranscriptScrapeError m | RateLimitReached m | ValueError m
  | FileNotFoundError m | OverflowError m | LibraryError _ m => m
  end.

(** Paths are sequences of components ([pathlib.PurePath.parts]). *)
Definition path := list str.

(** [Path(s)]: empty and "." components vanish; a leading "/" is the root
    component. *)
Definition Path (s : str) : path :=
  let comps :=
    filter (fun c => negb (str_eqb c []) && negb (str_eqb c (lit ".")))
           (split_on "/"%char [] s) in
  if startswith s (lit "/") then lit "/" :: comps else comps.

(** [p / s] *)
Definition path_div (p : path) (s : str) : path :=
  if startswith s (lit "/") then Path s else p ++ Path s.

(** [p.name] and [p.parent]: the root has the empty name and is its own
    parent. *)
Definition path_name (p : path) : str :=
  let name := last p [] in
  if str_eqb name (lit "/") then [] else name.

Definition path_parent (p : path) : path :=
  if str_eqb (last p []) (lit "/") then p else removelast p.

Definition path_eqb (p q : path) : bool :=
  if list_eq_dec (list_eq_dec ascii_dec) p q then true else false.

(** Regular files.  A text file holds what [write_text] was given; a CSV file
    holds the rows given to [csv.writer.writerow]. *)
Inductive file : Type :=
| TextFile (content : str)
| CsvFile (rows : list (list str)).

(** [p.stat().st_size > 0]: UTF-8 text is empty only for the empty string,
    and every CSV row occupies at least its line terminator. *)
Definition st_size_pos (f : file) : bool :=
  match f with
  | TextFile content => truthy content
  | CsvFile rows => nonempty rows
  end.

(** Durations handed to [time.sleep], by the place that computes them.  The
    politeness delay and the pacing delay carry their number of seconds;
    floats are read as the rationals they denote and their arithmetic as
    exact.  The backoff delay names the value that [_backoff_delay_s] returned
    for the attempt: [backoff_seconds] below is that float, which lies between
    10.5 and 780 whatever the random draw, so that [time.sleep] accepts
    it. *)
Inductive duration : Type :=
| FragmentDelay (s : Q)             (* cfg.sleep_s *)
| BackoffDelay (attempt : Z)        (* _backoff_delay_s(attempt) *)
| PacingDelay (secs : Q).
    (* max(0.0, base_s + random.random() * max(0.0, jitter_s)) *)

(** What [time.sleep(secs)] refuses.  It converts the seconds to a signed
    64-bit count of nanoseconds, and raises [OverflowError] when that does not
    fit; then it raises [ValueError] for a negative length. *)
Definition sleep_overflow_msg : str :=
  lit "timestamp too large to convert to C _PyTime_t".

Definition sleep_negative_msg : str :=
  lit "sleep length must be non-negative".

Definition nanoseconds (secs : Q) : Q := (secs * inject_Z (10 ^ 9))%Q.

Definition sleep_out_of_range (secs : Q) : bool :=
  Qle_bool (inject_Z (2 ^ 63)) (nanoseconds secs)
  || negb (Qle_bool (inject_Z (- 2 ^ 63)) (nanoseconds secs)).

Definition sleep_error (secs : Q) : option exn :=
  if sleep_out_of_range secs then Some (OverflowError sleep_overflow_msg)
  else if negb (Qle_bool 0 secs) then Some (ValueError sleep_negative_msg)
  else None.

Definition duration_error (d : duration) : option exn :=
  match d with
  | FragmentDelay s => sleep_error s
  | BackoffDelay _ => None
  | PacingDelay s => sleep_error s
  end.

(** Console lines of the batch run, by tag and fields. *)
Inductive log_line : Type :=
| SKIP_DONE (ticker : str) (year q : Z)
| RATE_LIMIT (ticker : str) (year q : Z) (delay : duration) (attempt_shown : Z)
| OK (ticker : str) (year q : Z)
| SKIP (ticker : str) (year q : Z) (e : str)
| ERR (ticker : str) (year q : Z) (name e : str).

Inductive event : Type :=
| Get (rq : Request.t)
| Sleep (d : duration)
| Print (l : log_line)
| Mkdir (p : path)
| WriteFile (p : path) (f : file).

(** The world: everything observable so far, in order; the regular files;
    and the random generator, as the 53 bits from which [random.random()]
    builds its next float, given what has been observed so far.  (In this
    code a sleep or the end of the run follows every draw, so no two draws
    see the same trace and every sequence of draws is covered.) *)
Record World := mkWorld {
  trace : list event;
  files : path -> option file;
  genrand : list event -> Z
}.

Definition emit (e : event) (w : World) : World :=
  {| trace := trace w ++ [e]; files := files w; genrand := genrand w |}.

Definition store (p : path) (f : file) (w : World) : World :=
  {| trace := trace w ++ [WriteFile p f];
     files := fun q => if path_eqb q p then Some f else files w q;
     genrand := genrand w |}.

(** ** Computations: state passing with exceptions *)

Inductive result (A : Type) : Type :=
| Return (a : A)
| Raise (e : exn)
| OutOfFuel.
Arguments Return {A} a.
Arguments Raise {A} e.
Arguments OutOfFuel {A}.

Definition M (A : Type) : Type := World -> World * result A.

Definition ret {A} (a : A) : M A := fun w => (w, Return a).

Definition bind {A B} (c : M A) (k : A -> M B) : M B := fun w =>
  match c w with
  | (w', Return a) => k a w'
  | (w', Raise e) => (w', Raise e)
  | (w', OutOfFuel) => (w', OutOfFuel)
  end.

Definition raise {A} (e : exn) : M A := fun w => (w, Raise e).

Definition out_of_fuel {A} : M A := fun w => (w, OutOfFuel).

(** [try: body  except ... as e: handler(e)] *)
Definition try_except {A} (body : M A) (handler : exn -> M A) : M A := fun w =>
  match body w with
  | (w', Raise e) => handler e w'
  | r => r
  end.

Declare Scope monad_scope.
Delimit Scope monad_scope with monad.
Notation "x <- c ;; k" := (bind c (fun x => k))
  (at level 61, c at next level, right associativity) : monad_scope.
Notation "c ;; k" := (bind c (fun _ => k))
  (at level 61, right associativity) : monad_scope.
Local Open Scope monad_scope.

Definition log (e : event) : M unit := fun w => (emit e w, Return tt).

Definition print (l : log_line) : M unit := log (Print l).

Definition mkdir (p : path) : M unit := log (Mkdir p).

Definition write_file (p : path) (f : file) : M unit :=
  fun w => (store p f w, Return tt).

Definition read_file (p : path) : M (option file) :=
  fun w => (w, Return (files w p)).

(** [time.sleep(d)] *)
Definition time_sleep (d : duration) : M unit :=
  match duration_error d with
  | Some e => raise e
  | None => log (Sleep d)
  end.

(** [random.random()]: the 53 bits, scaled into [0, 1). *)
Definition draw_of_bits (bits : Z) : Q := Qmake (bits mod 2 ^ 53) (2 ^ 53).

Definition random_random : M Q := fun w =>
  (w, Return (draw_of_bits (genrand w (trace w)))).

(** [for x in xs: body(x)] *)
Fixpoint for_each {A} (xs : list A) (body : A -> M unit) : M unit :=
  match xs with
  | [] => ret tt
  | x :: rest => body x ;; for_each rest body
  end.

(** [n] consecutive integers from [lo], and [range(lo, hi)]. *)
Definition zseq (lo : Z) (n : nat) : list Z :=
  map (fun k => (lo + Z.of_nat k)%Z) (seq 0 n).

Definition range (lo hi : Z) : list Z := zseq lo (Z.to_nat (hi - lo)).

(** The world after further events. *)
Definition extend (w : World) (evs : list event) : World :=
  {| trace := trace w ++ evs; files := files w; genrand := genrand w |}.

(** ** dcf_transcripts.py: speaker segmenter *)

Definition denylist : list str :=
  [lit "Fiscal"; lit "Quarter"; lit "FY"; lit "Download"; lit "Insights";
   lit "Privacy"; lit "Terms"; lit "Disclaimer"].

(** [re.I]: characters are compared through their lowercase. *)
Definition ci_eqb (a b : ascii) : bool := Ascii.eqb (lower a) (lower b).

Fixpoint startswith_ci (s w : str) : bool :=
  match w, s with
  | [], _ => true
  | a :: w', b :: s' => ci_eqb a b && startswith_ci s' w'
  | _ :: _, [] => false
  end.

(** \b between the character before the position and the one after it. *)
Definition is_word_opt (c : option ascii) : bool :=
  match c with Some c => is_word_char c | None => false end.

Definition word_boundary (prev next : option ascii) : bool :=
  xorb (is_word_opt prev) (is_word_opt next).

Definition last_error (s : str) : option ascii :=
  match rev s with c :: _ => Some c | [] => None end.

(** One alternative of r"\b(...)\b" at the position whose preceding
    character is [prev] and whose remaining input is [s]. *)
Definition alt_matches_at (prev : option ascii) (s : str) (w : str) : bool :=
  word_boundary prev (hd_error s)
  && startswith_ci s w
  && word_boundary (last_error (firstn (length w) s))
                   (hd_error (skipn (length w) s)).

(** [re.search(r"\b(Fiscal|Quarter|FY|Download|Insights|Privacy|Terms|Disclaimer)\b", line, re.I)]
    as a truth value. *)
Fixpoint re_search_denylist_from (prev : option ascii) (s : str) : bool :=
  existsb (alt_matches_at prev s) denylist
  || match s with
     | [] => false
     | c :: t => re_search_denylist_from (Some c) t
     end.

Definition re_search_denylist (line : str) : bool :=
  re_search_denylist_from None line.

Definition looks_like_speaker (line : str) : bool :=
  if 60 <? length line then false
  else if re_search_denylist line then false
  else if existsb (fun ch => contains line [ch]) (lit ".!?") then false
  else let w := split_ws line in
       (1 <=? length w) && (length w <=? 5).

(** The three variables of [_parse_speaker_blocks_from_text] that its loop
    and its closure [flush] share. *)
Record seg_state := mkSeg {
  blocks : list SpeakerBlock.t;
  current_speaker : option str;
  buf : list str
}.

Definition truthy_opt (o : option str) : bool :=
  match o with Some s => truthy s | None => false end.

Definition flush (st : seg_state) : seg_state :=
  {| blocks :=
       match current_speaker st with
       | Some sp =>
           if truthy sp && nonempty (buf st)
           then blocks st
                ++ [SpeakerBlock.mk sp (_normalize_whitespace (join [SP] (buf st)))]
           else blocks st
       | None => blocks st
       end;
     current_speaker := current_speaker st;
     buf := [] |}.

(** One iteration of [for ln in lines]. *)
Definition seg_step (st : seg_state) (ln : str) : seg_state :=
  if looks_like_speaker ln
  then let st' := flush st in
       {| blocks := blocks st'; current_speaker := Some ln; buf := buf st' |}
  else if truthy_opt (current_speaker st)
       then {| blocks := blocks st;
               current_speaker := current_speaker st;
               buf := buf st ++ [ln] |}
       else st.

Definition seg_init : seg_state :=
  {| blocks := []; current_speaker := None; buf := [] |}.

(** The first two statements: stripped, non-empty lines. *)
Definition seg_lines (full_text : str) : list str :=
  filter (fun ln => negb (str_eqb ln []))
         (map strip (splitlines full_text)).

(** The blocks collected by the loop and the final [flush()]. *)
Definition seg_scan (lines : list str) : list SpeakerBlock.t :=
  blocks (flush (fold_left seg_step lines seg_init)).

Definition _parse_speaker_blocks_from_text (full_text : str)
  : list SpeakerBlock.t :=
  let blocks := seg_scan (seg_lines full_text) in
  if nonempty blocks then blocks
  else [SpeakerBlock.mk (lit "Unknown") full_text].

Definition speaker_blocks_from_text := _parse_speaker_blocks_from_text.

(** ** Rate-limit phrases *)

Definition _LIMIT_REACHED_PATTERNS : list str :=
  [lit "Request Limit Reached";
   lit "Forbidden - Request Limit Reached";
   lit "You seem to have reached your request limit"].

Definition is_rate_limited_message (text : str) : bool :=
  let t := str_lower text in
  existsb (fun p => contains t (str_lower p)) _LIMIT_REACHED_PATTERNS.

(** ** sandp_transcripts.py: helpers *)

Definition _safe_filename (s : str) : str := re_sub re_unsafe_run (lit "_") s.

(** [max(0.0, x)] *)
Definition max0 (x : Q) : Q := if Qle_bool x 0 then 0%Q else x.

(** The length of the pacing sleep when [random.random()] draws [r]. *)
Definition pacing_seconds (base_s jitter_s r : Q) : Q :=
  max0 (base_s + r * max0 jitter_s).

(** [_sleep_with_jitter(base_s, jitter_s)] *)
Definition _sleep_with_jitter (base_s jitter_s : Q) : M unit :=
  if Qle_bool base_s 0 && Qle_bool jitter_s 0 then ret tt
  else
    r <- random_random ;;
    time_sleep (PacingDelay (pacing_seconds base_s jitter_s r)).

(** [_backoff_delay_s(attempt)] with the default [base] and [cap].  The
    product [base * (2 ** attempt)] converts the integer power to a float,
    which raises [OverflowError] from [2 ** 1024] on; below that the delay is
    the float [backoff_seconds attempt r] for the draw [r] of
    [random.random()], named by [BackoffDelay attempt]. *)
Definition overflow_msg : str := lit "int too large to convert to float".

Definition _backoff_delay_s (attempt : Z) : M duration :=
  if (1024 <=? attempt)%Z then raise (OverflowError overflow_msg)
  else ret (BackoffDelay attempt).








(** [_already_processed(ticker_dir, stem, save_txt, save_csv)] *)
Definition _already_processed (ticker_dir : path) (stem : str)
    (save_txt save_csv : bool) : M bool := fun w =>
  let expected :=
    (if save_txt then [path_div ticker_dir (stem ++ lit ".txt")] else [])
    ++ (if save_csv then [path_div ticker_dir (stem ++ lit ".csv")] else []) in
  if negb (nonempty expected) then (w, Return false)
  else (w, Return (forallb (fun p => match files w p with
                                      | Some f => st_size_pos f
                                      | None => false
                                      end) expected)).

(** [_read_tickers_from_sandp_csv(csv_path)] *)
Definition _read_tickers_from_sandp_csv (csv_path : path) : M (list str) :=
  content <- read_file csv_path ;;
  match content with
  | Some (TextFile text) =>
      let lines :=
        filter truthy (map strip (splitlines text)) in
      match lines with
      | [] => ret []
      | header :: rows =>
          if negb (contains (str_lower header) (lit "act_symbol"))
          then raise (ValueError (lit "Expected header 'act_symbol'"))
          else ret (filter truthy
                      (map (fun ln => strip (hd [] (split_on ","%char [] ln)))
                           rows))
      end
  | _ => raise (FileNotFoundError (lit "Ticker file not found"))
  end.

(** ** Saving *)

Definition save_target (output_path : str) (output_dir : option path)
  : path * path :=
  match output_dir with
  | Some d => (d, path_div d (path_name (Path output_path)))
  | None => (path_parent (Path output_path), Path output_path)
  end.

Definition save_transcript_txt_from_text (text : str) (output_path : str)
    (output_dir : option path) : M path :=
  let '(dir, target) := save_target output_path output_dir in
  mkdir dir ;;
  write_file target (TextFile text) ;;
  ret target.

(** [enumerate(blocks, start=i)] rendered as CSV rows. *)
Fixpoint csv_rows (i : Z) (bs : list SpeakerBlock.t) : list (list str) :=
  match bs with
  | [] => []
  | b :: rest =>
      [dec i; SpeakerBlock.speaker b; SpeakerBlock.text b]
      :: csv_rows (i + 1) rest
  end.

Definition save_transcript_csv_from_blocks (bs : list SpeakerBlock.t)
    (output_path : str) (output_dir : option path) : M path :=
  let '(dir, target) := save_target output_path output_dir in
  mkdir dir ;;
  write_file target
    (CsvFile ([lit "sequence"; lit "speaker"; lit "text"] :: csv_rows 1 bs)) ;;
  ret target.

(** The arguments of [fetch_all_transcripts_for_year]. *)
Module Args.
Record t := mk {
  year : Z;
  output_dir : path;
  tickers_csv_path : path;
  quarters : list Z;
  save_txt : bool;
  save_csv : bool;
  cfg : option ScrapeConfig.t;
  sleep_s : Q;
  jitter_s : Q;
  max_rate_limit_retries : Z
}.
End Args.

(** ** The environment

    What the network answers, given everything observed so far, and the
    markup stripper ([BeautifulSoup(html, "html.parser").get_text("\n",
    strip=True)]), which belongs to a library. *)

Inductive reply : Type :=
| Responds (r : Response.t)
| Fails (name msg : str).

Section Environment.

Variable server : list event -> Request.t -> reply.
Variable _html_to_text : str -> str.

(** [session.get(url, params=..., headers=..., timeout=..., allow_redirects=True)] *)
Definition session_get (rq : Request.t) : M Response.t := fun w =>
  let w' := emit (Get rq) w in
  match server (trace w) rq with
  | Responds r => (w', Return r)
  | Fails name msg => (w', Raise (LibraryError name msg))
  end.

(** ** dcf_transcripts.py: fragment fetcher *)

Definition HTMX_PARAM_NAME : str := lit "org.htmx.cache-buster".
Definition HTMX_PARAM_VALUE : str := lit "transcriptsContent".

Definition _build_headers (base_url : str) (cfg : ScrapeConfig.t) : dict :=
  let headers :=
    [(lit "Accept", lit "*/*");
     (lit "User-Agent", ScrapeConfig.user_agent cfg);
     (lit "Referer", base_url);
     (lit "HX-Request", lit "true");
     (lit "HX-Current-URL", base_url);
     (lit "HX-Target", lit "transcriptsContent")] in
  match ScrapeConfig.base_headers cfg with
  | Some h => if nonempty h then dict_update headers h else headers
  | None => headers
  end.

(** The session is represented by the cookies it was given. *)
Definition _fetch_fragment (session : dict) (url : str) (headers : dict)
    (cfg : ScrapeConfig.t) : M (option str) :=
  let params := [(HTMX_PARAM_NAME, HTMX_PARAM_VALUE)] in
  r <- session_get (Request.mk url params headers session
                               (ScrapeConfig.timeout_s cfg)) ;;
  if (Response.status_code r =? 404)%Z then ret None
  else if (Response.status_code r >=? 400)%Z
  then raise (TranscriptScrapeError
                (lit "HTTP " ++ dec (Response.status_code r)
                 ++ lit " for " ++ Response.url r))
  else
    let body := strip (Response.text r) in
    if negb (truthy body) then ret None
    else if contains body (lit "Page Not Found") && contains body (lit "404")
    then ret None
    else ret (Some body).

(** ** dcf_transcripts.py: fragment assembler *)

Definition no_fragments_msg : str :=
  lit "No transcript fragments retrieved. This may be gated (login/anti-bot) or the URL pattern changed. Try passing csrftoken/cookies from the browser.".

(** The loop [for i in range(1, cfg.max_parts + 1)] over the indices that
    remain, with the list [fragments] built so far; it returns the list at
    [break] or at exhaustion. *)
Fixpoint fetch_parts (session : dict) (base_url : str) (headers : dict)
    (cfg : ScrapeConfig.t) (indices : list Z) (fragments : list str)
  : M (list str) :=
  match indices with
  | [] => ret fragments
  | i :: rest =>
      let part_url := base_url ++ dec i ++ lit "/" in
      body <- _fetch_fragment session part_url headers cfg ;;
      match body with
      | None =>
          if nonempty fragments then ret fragments
          else fetch_parts session base_url headers cfg rest fragments
      | Some b =>
          let fragments := fragments ++ [b] in
          (if negb (Qeq_bool (ScrapeConfig.sleep_s cfg) 0)
           then time_sleep (FragmentDelay (ScrapeConfig.sleep_s cfg))
           else ret tt) ;;
          fetch_parts session base_url headers cfg rest fragments
      end
  end.

Definition get_transcript_html (base_url : str) (cfg : option ScrapeConfig.t)
  : M str :=
  let cfg := match cfg with Some c => c | None => ScrapeConfig.default end in
  let base_url :=
    if negb (endswith base_url (lit "/")) then base_url ++ lit "/"
    else base_url in
  let headers := _build_headers base_url cfg in
  let session :=
    match ScrapeConfig.cookies cfg with
    | Some c => if nonempty c then c else []
    | None => []
    end in
  first <- _fetch_fragment session base_url headers cfg ;;
  let fragments :=
    match first with
    | Some f => if truthy f then [f] else []
    | None => []
    end in
  fragments <- fetch_parts session base_url headers cfg
                 (range 1 (ScrapeConfig.max_parts cfg + 1)) fragments ;;
  if negb (nonempty fragments)
  then raise (TranscriptScrapeError no_fragments_msg)
  else ret (join [LF] fragments).

Definition transcript_text_from_html (html : str) : str :=
  _normalize_whitespace (_html_to_text html).

(** ** sandp_transcripts.py: batch retry controller *)

(** How one pass through the body of [while True] leaves it. *)
Inductive loop_ctl : Type :=
| Break
| Continue (attempt : Z).

Section Batch.

Variable args : Args.t.

Definition batch_cfg : ScrapeConfig.t :=
  match Args.cfg args with Some c => c | None => ScrapeConfig.default end.

Definition unit_url (raw_ticker : str) (q : Z) : str :=
  lit "https://discountingcashflows.com/company/" ++ raw_ticker
  ++ lit "/transcripts/" ++ dec (Args.year args) ++ lit "/" ++ dec q ++ lit "/".

Definition unit_stem (ticker_safe : str) (q : Z) : str :=
  ticker_safe ++ lit "_" ++ dec (Args.year args) ++ lit "_Q" ++ dec q.

Definition exhausted_msg (raw_ticker : str) (q : Z) : str :=
  lit "Rate limit reached (exhausted retries) at " ++ raw_ticker ++ lit " "
  ++ dec (Args.year args) ++ lit " Q" ++ dec q.

(** The two identical rate-limit branches: fail the run when the budget is
    spent, otherwise back off and go round again. *)
Definition on_rate_limit (raw_ticker : str) (q : Z) (attempt : Z)
  : M loop_ctl :=
  if (attempt >=? Args.max_rate_limit_retries args)%Z
  then raise (RateLimitReached (exhausted_msg raw_ticker q))
  else
    delay <- _backoff_delay_s attempt ;;
    print (RATE_LIMIT raw_ticker (Args.year args) q delay (attempt + 1)) ;;
    time_sleep delay ;;
    ret (Continue (attempt + 1)).

(** The [try] block of one pass. *)
Definition try_body (raw_ticker : str) (ticker_dir : path) (stem : str)
    (q : Z) (attempt : Z) : M loop_ctl :=
  html <- get_transcript_html (unit_url raw_ticker q) (Some batch_cfg) ;;
  let text := transcript_text_from_html html in
  if is_rate_limited_message text
  then on_rate_limit raw_ticker q attempt
  else
    (if Args.save_txt args
     then save_transcript_txt_from_text text (stem ++ lit ".txt")
            (Some ticker_dir) ;; ret tt
     else ret tt) ;;
    (if Args.save_csv args
     then let blocks := speaker_blocks_from_text text in
          save_transcript_csv_from_blocks blocks (stem ++ lit ".csv")
            (Some ticker_dir) ;; ret tt
     else ret tt) ;;
    print (OK raw_ticker (Args.year args) q) ;;
    ret Break.

(** The [except] clauses, in their order. *)
Definition handlers (raw_ticker : str) (q : Z) (attempt : Z) (e : exn)
  : M loop_ctl :=
  match e with
  | TranscriptScrapeError msg =>
      if is_rate_limited_message msg
      then on_rate_limit raw_ticker q attempt
      else print (SKIP raw_ticker (Args.year args) q msg) ;; ret Break
  | RateLimitReached _ => raise e
  | _ =>
      print (ERR raw_ticker (Args.year args) q (exn_name e) (exn_str e)) ;;
      ret Break
  end.

Definition one_pass (raw_ticker : str) (ticker_dir : path) (stem : str)
    (q : Z) (attempt : Z) : M loop_ctl :=
  try_except (try_body raw_ticker ticker_dir stem q attempt)
             (handlers raw_ticker q attempt).

(** [attempt = 0; while True: ...] *)
Fixpoint retry_loop (fuel : nat) (raw_ticker : str) (ticker_dir : path)
    (stem : str) (q : Z) (attempt : Z) : M unit :=
  match fuel with
  | O => out_of_fuel
  | S fuel' =>
      ctl <- one_pass raw_ticker ticker_dir stem q attempt ;;
      match ctl with
      | Break => ret tt
      | Continue attempt' =>
          retry_loop fuel' raw_ticker ticker_dir stem q attempt'
      end
  end.

(** Passes that the loop can need: one per allowed retry, and the last. *)
Definition retry_fuel : nat := S (Z.to_nat (Args.max_rate_limit_retries args)).

(** The body of [for q in quarters]. *)
Definition process_unit (raw_ticker ticker_safe : str) (ticker_dir : path)
    (q : Z) : M unit :=
  let stem := unit_stem ticker_safe q in
  done <- _already_processed ticker_dir stem (Args.save_txt args)
            (Args.save_csv args) ;;
  if done
  then print (SKIP_DONE raw_ticker (Args.year args) q)
  else
    retry_loop retry_fuel raw_ticker ticker_dir stem q 0 ;;
    _sleep_with_jitter (Args.sleep_s args) (Args.jitter_s args).

(** The body of [for raw_ticker in tickers]. *)
Definition process_ticker (raw_ticker : str) : M unit :=
  let ticker_safe := _safe_filename raw_ticker in
  let ticker_dir := path_div (Args.output_dir args) ticker_safe in
  mkdir ticker_dir ;;
  for_each (Args.quarters args) (process_unit raw_ticker ticker_safe ticker_dir).

Definition fetch_all_transcripts_for_year : M unit :=
  mkdir (Args.output_dir args) ;;
  tickers <- _read_tickers_from_sandp_csv (Args.tickers_csv_path args) ;;
  if negb (nonempty tickers)
  then raise (ValueError (lit "No tickers found"))
  else for_each tickers process_ticker.

End Batch.

End Environment.

(** ** Vocabulary for stating the properties

    Names for values that the code computes inline, and the outcome of a
    fetch in the specification's terms. *)

(** The request that [_fetch_fragment] sends. *)
Definition fragment_request (session : dict) (url : str) (headers : dict)
    (cfg : ScrapeConfig.t) : Request.t :=
  Request.mk url [(HTMX_PARAM_NAME, HTMX_PARAM_VALUE)] headers session
             (ScrapeConfig.timeout_s cfg).

(** [base_url] with its trailing slash, and the session cookies, as
    [get_transcript_html] sets them up. *)
Definition with_slash (base_url : str) : str :=
  if negb (endswith base_url (lit "/")) then base_url ++ lit "/" else base_url.

Definition session_of (cfg : ScrapeConfig.t) : dict :=
  match ScrapeConfig.cookies cfg with
  | Some c => if nonempty c then c else []
  | None => []
  end.

(** Address of fragment [i]: the base for 0, [{base}{i}/] for a numbered
    part. *)
Definition frag_url (base : str) (i : Z) : str :=
  if (i =? 0)%Z then base else base ++ dec i ++ lit "/".

(** Outcomes of one fetch: Content, Absent, Error. *)
Abbreviation Content b := (Return (Some b)).
Abbreviation Absent := (Return None).
Abbreviation Error e := (Raise e).


Section Outcomes.

(** The outcome of the fetch at each index. *)
Variable o : Z -> result (option str).





End Outcomes.


(** Following the specification's words (4.5): a line is a candidate speaker
    label if it has at most 60 characters, none of the marks . ! ?, between
    one and five words, and no word of the denylist. *)
Definition candidate_label (line : str) : bool :=
  (length line <=? 60)
  && negb (existsb (fun ch => contains line [ch]) (lit ".!?"))
  && ((1 <=? length (split_ws line)) && (length (split_ws line) <=? 5))
  && negb (re_search_denylist line).

(** ** Vocabulary for the batch run *)

(** Exceptions that an assembly pass can raise: its own, [ValueError] and
    [OverflowError] from [time.sleep], and what the network layer raises. *)
Definition assembly_exn (e : exn) : bool :=
  match e with
  | TranscriptScrapeError _ | ValueError _ | OverflowError _
  | LibraryError _ _ => true
  | _ => false
  end.

(** How an assembly pass can end. *)
Definition pass_result_ok {A} (r : result A) : Prop :=
  match r with
  | Return _ => True
  | Raise e => assembly_exn e = true
  | OutOfFuel => False
  end.

(** Events of an assembly pass. *)
Definition fetch_event (e : event) : bool :=
  match e with
  | Get _ => true
  | Sleep (FragmentDelay _) => true
  | _ => false
  end.

(** The rate limit shows in what a pass produced: in the normalized text, or
    in the message of a scrape error. *)
Definition rate_limit_detected (_html_to_text : str -> str) (res : result str)
  : bool :=
  match res with
  | Return html =>
      is_rate_limited_message (transcript_text_from_html _html_to_text html)
  | Raise (TranscriptScrapeError msg) => is_rate_limited_message msg
  | _ => false
  end.

(** The line that closes a unit which was attempted: [OK], [SKIP] or [ERR]
    for that unit. *)
Definition attempted_completion (t : str) (y q : Z) (l : log_line) : bool :=
  match l with
  | OK t' y' q' | SKIP t' y' q' _ | ERR t' y' q' _ _ =>
      str_eqb t t' && (y =? y')%Z && (q =? q')%Z
  | _ => false
  end.




(** A value of [random.random()]. *)
Definition is_draw (r : Q) : Prop := (0 <= r)%Q /\ (r < 1)%Q.

(** [_sleep_with_jitter(base_s, jitter_s)] has nothing to do, or [time.sleep]
    accepts its delay for the draw [r]. *)
Definition pacing_accepted (base_s jitter_s r : Q) : bool :=
  (Qle_bool base_s 0 && Qle_bool jitter_s 0)
  || match sleep_error (pacing_seconds base_s jitter_s r) with
     | None => true
     | Some _ => false
     end.

(** What [_sleep_with_jitter(base_s, jitter_s)] shows when it returns, for
    the draw [r]. *)
Definition pacing_events (base_s jitter_s r : Q) : list event :=
  if Qle_bool base_s 0 && Qle_bool jitter_s 0 then []
  else [Sleep (PacingDelay (pacing_seconds base_s jitter_s r))].

(** Events inside a unit's retry loop: no closing line, no pacing. *)
Definition quiet (e : event) : bool :=
  match e with
  | Print (RATE_LIMIT _ _ _ _ _) => true
  | Print _ => false
  | Sleep (PacingDelay _) => false
  | _ => true
  end.

(** The number of backoff delays in a trace. *)
Definition is_backoff (e : event) : bool :=
  match e with Sleep (BackoffDelay _) => true | _ => false end.

Definition backoffs (evs : list event) : nat :=
  length (filter is_backoff evs).

(** The units that a trace shows as completed, in order. *)
Definition completion_of (e : event) : list (str * Z) :=
  match e with
  | Print (SKIP_DONE t _ q) | Print (OK t _ q) | Print (SKIP t _ q _)
  | Print (ERR t _ q _ _) => [(t, q)]
  | _ => []
  end.

Definition completed (evs : list event) : list (str * Z) :=
  flat_map completion_of evs.

Definition is_get (e : event) : bool :=
  match e with Get _ => true | _ => false end.

(** [p.exists() and p.stat().st_size > 0] *)
Definition exists_nonempty (w : World) (p : path) : bool :=
  match files w p with
  | Some f => st_size_pos f
  | None => false
  end.

(** Every file that exists and is not empty in [w] still does in [w']. *)
Definition grows (w w' : World) : Prop :=
  forall p, exists_nonempty w p = true -> exists_nonempty w' p = true.

(** A write of something that is not empty; a line that does not close a
    unit with [SKIP] or [ERR]. *)
Definition nonempty_write (e : event) : bool :=
  match e with
  | WriteFile _ f => st_size_pos f
  | _ => true
  end.

Definition good_closing (e : event) : bool :=
  match e with
  | Print (SKIP _ _ _ _) | Print (ERR _ _ _ _ _) => false
  | _ => true
  end.

(** The files that the two save functions write for [stem] in [tdir] exist
    and are not empty, each if it is requested. *)
Definition saved_present (args : Args.t) (tdir : path) (stem : str)
    (w : World) : Prop :=
  (Args.save_txt args = true ->
   exists_nonempty w (snd (save_target (stem ++ lit ".txt") (Some tdir)))
   = true)
  /\ (Args.save_csv args = true ->
      exists_nonempty w (snd (save_target (stem ++ lit ".csv") (Some tdir)))
      = true).

Definition save_event (e : event) : bool :=
  match e with
  | Mkdir _ | WriteFile _ _ => true
  | _ => false
  end.

Definition unexpected_exn (e : exn) : bool :=
  match e with
  | ValueError _ | OverflowError _ | LibraryError _ _ => true
  | _ => false
  end.

Section BatchVocabulary.

Variable _html_to_text : str -> str.
Variable args : Args.t.

(** The ways one pass through [while True] ends (specification 4.4), given
    the world [w1] and the result [res] of its assembly pass: the run fails on
    a spent retry budget; the unit backs off and goes round again; the unit is
    done; it is skipped after a scrape error; it is given up after an
    unexpected error.  The last two are what becomes of a backoff whose delay
    cannot be computed (attempt 1024 or later): inside the [try] block the
    error is an unexpected one and the unit is given up; inside the handler
    of a scrape error nothing catches it. *)
Inductive pass_step (t : str) (tdir : path) (stem : str) (q : Z)
    (attempt : Z) (w1 : World) (res : result str)
  : World -> result loop_ctl -> Prop :=
| pass_exhausted :
    rate_limit_detected _html_to_text res = true ->
    (Args.max_rate_limit_retries args <= attempt)%Z ->
    pass_step t tdir stem q attempt w1 res
      w1 (Raise (RateLimitReached (exhausted_msg args t q)))
| pass_retry :
    rate_limit_detected _html_to_text res = true ->
    (attempt < Args.max_rate_limit_retries args)%Z ->
    (attempt < 1024)%Z ->
    pass_step t tdir stem q attempt w1 res
      (extend w1 [Print (RATE_LIMIT t (Args.year args) q
                           (BackoffDelay attempt) (attempt + 1));
                  Sleep (BackoffDelay attempt)])
      (Return (Continue (attempt + 1)))
| pass_done (html : str) (w2 : World) (saves : list event) :
    res = Return html ->
    rate_limit_detected _html_to_text res = false ->
    trace w2 = trace w1 ++ saves ->
    Forall (fun e => save_event e = true) saves ->
    (Forall (fun e => nonempty_write e = true) saves ->
     grows w1 w2 /\ saved_present args tdir stem w2) ->
    pass_step t tdir stem q attempt w1 res
      (emit (Print (OK t (Args.year args) q)) w2) (Return Break)
| pass_skipped (msg : str) :
    res = Raise (TranscriptScrapeError msg) ->
    rate_limit_detected _html_to_text res = false ->
    pass_step t tdir stem q attempt w1 res
      (emit (Print (SKIP t (Args.year args) q msg)) w1) (Return Break)
| pass_failed (e : exn) :
    res = Raise e ->
    unexpected_exn e = true ->
    pass_step t tdir stem q attempt w1 res
      (emit (Print (ERR t (Args.year args) q (exn_name e) (exn_str e))) w1)
      (Return Break)
| pass_overflow_logged (html : str) :
    res = Return html ->
    rate_limit_detected _html_to_text res = true ->
    (attempt < Args.max_rate_limit_retries args)%Z ->
    (1024 <= attempt)%Z ->
    pass_step t tdir stem q attempt w1 res
      (emit (Print (ERR t (Args.year args) q (lit "OverflowError")
                      overflow_msg)) w1)
      (Return Break)
| pass_overflow_raised (msg : str) :
    res = Raise (TranscriptScrapeError msg) ->
    rate_limit_detected _html_to_text res = true ->
    (attempt < Args.max_rate_limit_retries args)%Z ->
    (1024 <= attempt)%Z ->
    pass_step t tdir stem q attempt w1 res
      w1 (Raise (OverflowError overflow_msg)).

End BatchVocabulary.

Section RunVocabulary.

Variable server : list event -> Request.t -> reply.
Variable _html_to_text : str -> str.
Variable args : Args.t.

(** The retry budget of unit [(t, q)] is spent: [body], what the unit has
    shown, holds as many backoffs as there are retries allowed, and the world
    [w'] is the end of one more assembly pass for that unit that found the
    rate limit. *)
Definition exhausted_at (t : str) (q : Z) (body : list event) (w' : World)
  : Prop :=
  backoffs body = Z.to_nat (Args.max_rate_limit_retries args)
  /\ exists w0 res,
       get_transcript_html server (unit_url args t q)
         (Some (batch_cfg args)) w0 = (w', res)
       /\ rate_limit_detected _html_to_text res = true.

(** An assembly pass for unit [(t, q)] that ended in the world [w'] and found
    the rate limit; an assembly pass for it that did not find it. *)
Definition limited_at (t : str) (q : Z) (w' : World) : Prop :=
  exists w0 res,
    get_transcript_html server (unit_url args t q)
      (Some (batch_cfg args)) w0 = (w', res)
    /\ rate_limit_detected _html_to_text res = true.

Definition unlimited_pass (t : str) (q : Z) : Prop :=
  exists w0 res,
    snd (get_transcript_html server (unit_url args t q)
           (Some (batch_cfg args)) w0) = res
    /\ rate_limit_detected _html_to_text res = false.

(** The ways a unit ends the run, given what the unit has shown ([body]) and
    the world it leaves: the retry budget is spent; the delay of the next
    backoff cannot be computed (attempt 1024, with the detection in the
    message of a scrape error); [time.sleep] refuses the pacing delay, after
    the unit's closing line. *)
Inductive unit_failure (t : str) (q : Z) (body : list event) (w' : World)
  : exn -> Prop :=
| failure_exhausted :
    completed body = [] ->
    exhausted_at t q body w' ->
    unit_failure t q body w' (RateLimitReached (exhausted_msg args t q))
| failure_backoff :
    completed body = [] ->
    (1024 < Args.max_rate_limit_retries args)%Z ->
    backoffs body = 1024 ->
    limited_at t q w' ->
    unit_failure t q body w' (OverflowError overflow_msg)
| failure_pacing (r : Q) :
    completed body = [(t, q)] ->
    is_draw r ->
    pacing_accepted (Args.sleep_s args) (Args.jitter_s args) r = false ->
    unit_failure t q body w' (OverflowError sleep_overflow_msg).




End RunVocabulary.




Section OutputsVocabulary.

Variable args : Args.t.

(** The directory of a ticker and the output files of a unit. *)
Definition ticker_dir_of (t : str) : path :=
  path_div (Args.output_dir args) (_safe_filename t).

Definition output_file (t : str) (q : Z) (suffix : string) : path :=
  path_div (ticker_dir_of t)
           (unit_stem args (_safe_filename t) q ++ lit suffix).

(** At least one output is requested, and each requested output of unit
    [(t, q)] exists and is not empty. *)
Definition outputs_present (w : World) (t : str) (q : Z) : Prop :=
  Args.save_txt args || Args.save_csv args = true
  /\ (Args.save_txt args = true ->
      exists_nonempty w (output_file t q ".txt") = true)
  /\ (Args.save_csv args = true ->
      exists_nonempty w (output_file t q ".csv") = true).

(** What a run shows when it skips every unit. *)
Definition all_skipped_trace (tickers : list str) : list event :=
  Mkdir (Args.output_dir args)
  :: flat_map (fun t =>
       Mkdir (ticker_dir_of t)
       :: map (fun q => Print (SKIP_DONE t (Args.year args) q))
              (Args.quarters args)) tickers.

End OutputsVocabulary.

(** ** dcf_transcripts.py: file name from an address

    [re.search(r"/company/([^/]+)/transcripts/(\d{4})/(\d+)/", base_url)]:
    the leftmost position where the pattern matches.  After "/company/" the
    first group can only be the whole run of characters up to the next
    slash, and the third the whole run of digits, since the pattern goes on
    with a slash in both places. *)

Definition is_digit (c : ascii) : bool :=
  let n := code c in ((48 <=? n) && (n <=? 57))%N.

Fixpoint strip_prefix (p s : str) : option str :=
  match p, s with
  | [], _ => Some s
  | a :: p', b :: s' => if Ascii.eqb a b then strip_prefix p' s' else None
  | _ :: _, [] => None
  end.

Definition not_slash (c : ascii) : bool := negb (Ascii.eqb c "/").

(** The three groups of a match that starts at the head of [s]. *)
Definition url_fields_at (s : str) : option (str * str * str) :=
  match strip_prefix (lit "/company/") s with
  | None => None
  | Some s1 =>
      let n := run_length not_slash s1 in
      if n =? 0 then None
      else
        match strip_prefix (lit "/transcripts/") (skipn n s1) with
        | None => None
        | Some s2 =>
            let year := firstn 4 s2 in
            if (length year =? 4) && forallb is_digit year
            then
              match strip_prefix (lit "/") (skipn 4 s2) with
              | None => None
              | Some s3 =>
                  let m := run_length is_digit s3 in
                  if m =? 0 then None
                  else
                    match strip_prefix (lit "/") (skipn m s3) with
                    | None => None
                    | Some _ => Some (firstn n s1, year, firstn m s3)
                    end
              end
            else None
        end
  end.

Fixpoint url_fields (s : str) : option (str * str * str) :=
  match url_fields_at s with
  | Some g => Some g
  | None =>
      match s with
      | [] => None
      | _ :: t => url_fields t
      end
  end.

Definition _filename_base_from_url (base_url : str) : str :=
  match url_fields base_url with
  | None => lit "transcript"
  | Some (ticker, year, quarter) =>
      ticker ++ lit "_" ++ year ++ lit "_Q" ++ quarter
  end.

(** ** Vocabulary for the further properties *)

(** [d.get(k)] *)
Fixpoint dict_get (k : str) (d : dict) : option str :=
  match d with
  | [] => None
  | (k', v) :: d' => if str_eqb k k' then Some v else dict_get k d'
  end.

(** The headers that [_build_headers] starts from. *)
Definition default_headers (base_url : str) (cfg : ScrapeConfig.t) : dict :=
  [(lit "Accept", lit "*/*");
   (lit "User-Agent", ScrapeConfig.user_agent cfg);
   (lit "Referer", base_url);
   (lit "HX-Request", lit "true");
   (lit "HX-Current-URL", base_url);
   (lit "HX-Target", lit "transcriptsContent")].

(** A text that normalization has nothing to do on: no carriage return, no
    three line feeds in a row, no whitespace at either end. *)
Definition normalized (s : str) : Prop :=
  ~ In CR s /\ contains s [LF; LF; LF] = false /\ strip s = s.

(** Following the docstring of [_parse_speaker_blocks_from_text]: the lines
    that follow a label, up to the next label; and every label of a text with
    the lines that follow it. *)
Fixpoint body_of (lines : list str) : list str :=
  match lines with
  | [] => []
  | ln :: rest => if looks_like_speaker ln then [] else ln :: body_of rest
  end.

Fixpoint labelled_groups (lines : list str) : list (str * list str) :=
  match lines with
  | [] => []
  | ln :: rest =>
      if looks_like_speaker ln
      then (ln, body_of rest) :: labelled_groups rest
      else labelled_groups rest
  end.

Definition has_body (g : str * list str) : bool := nonempty (snd g).

Definition block_of_group (g : str * list str) : SpeakerBlock.t :=
  SpeakerBlock.mk (fst g) (_normalize_whitespace (join [SP] (snd g))).

(** A transcript written out one line per speaker and one per speech. *)
Definition render_blocks (bs : list SpeakerBlock.t) : str :=
  join [LF]
    (flat_map (fun b => [SpeakerBlock.speaker b; SpeakerBlock.text b]) bs).

(** A line as the segmenter reads it: not empty, no whitespace at either
    end, no line boundary inside. *)
Definition clean_line (ln : str) : Prop :=
  ln <> [] /\ strip ln = ln /\ forallb (fun c => negb (is_linebreak c)) ln = true.

(** What a run may show (used for what it never does). *)
Section RunEvents.

Variable args : Args.t.

(** A console line of unit [(t, q)]; a backoff line shows the attempt that
    is about to be made, counted from 1. *)
Definition unit_line (t : str) (q : Z) (l : log_line) : Prop :=
  match l with
  | SKIP_DONE t' y q' | OK t' y q' | SKIP t' y q' _ | ERR t' y q' _ _ =>
      t' = t /\ y = Args.year args /\ q' = q
  | RATE_LIMIT t' y q' d shown =>
      t' = t /\ y = Args.year args /\ q' = q
      /\ exists a, d = BackoffDelay a /\ shown = (a + 1)%Z
  end.

(** A write of unit [(t, q)]: its text output, in normal form, or its CSV
    output, the header and at least one row. *)
Definition unit_write (t : str) (q : Z) (p : path) (f : file) : Prop :=
  (Args.save_txt args = true /\ p = output_file args t q ".txt"
   /\ exists text, f = TextFile text /\ normalized text)
  \/ (Args.save_csv args = true /\ p = output_file args t q ".csv"
      /\ exists rows,
           f = CsvFile ([lit "sequence"; lit "speaker"; lit "text"] :: rows)
           /\ rows <> []).

(** A request of unit [(t, q)]: for fragment 0, 1, ... of its address. *)
Definition unit_request (t : str) (q : Z) (rq : Request.t) : Prop :=
  exists i,
    (0 <= i <= Z.max 0 (ScrapeConfig.max_parts (batch_cfg args)))%Z
    /\ rq = fragment_request (session_of (batch_cfg args))
              (frag_url (unit_url args t q) i)
              (_build_headers (unit_url args t q) (batch_cfg args))
              (batch_cfg args).

Definition unit_event (t : str) (q : Z) (e : event) : Prop :=
  match e with
  | Get rq => unit_request t q rq
  | Sleep (BackoffDelay a) =>
      (0 <= a < Args.max_rate_limit_retries args)%Z /\ (a < 1024)%Z
  | Sleep (FragmentDelay _) => True
  | Sleep (PacingDelay s) =>
      exists r,
        is_draw r
        /\ s = pacing_seconds (Args.sleep_s args) (Args.jitter_s args) r
  | Print l => unit_line t q l
  | Mkdir p => p = ticker_dir_of args t
  | WriteFile p f => unit_write t q p f
  end.

Definition run_event (tickers : list str) (e : event) : Prop :=
  e = Mkdir (Args.output_dir args)
  \/ exists t,
       In t tickers
       /\ (e = Mkdir (ticker_dir_of args t)
           \/ exists q, In q (Args.quarters args) /\ unit_event t q e).

End RunEvents.

(** ** Vocabulary for binary64 arithmetic

    The value of a finite float that is not negative, as the integer
    [m * 2 ^ (e + float_scale)], and the rounding of the standard library's
    specification ([binary_round_aux], to nearest, ties to even) on such
    values. *)

Section Binary64Vocabulary.

Local Open Scope Z_scope.













End Binary64Vocabulary.

(** ** Scenarios for the examples *)

(** A server without any transcript, and one with the same one-line
    fragment everywhere. *)
Definition always_404 : list event -> Request.t -> reply :=
  fun _ rq => Responds (Response.mk 404 (Request.url rq) []).

Definition always_x : list event -> Request.t -> reply :=
  fun _ rq => Responds (Response.mk 200 (Request.url rq) (lit "x")).

(** A server that answers everything with the rate-limit page. *)
Definition always_limited : list event -> Request.t -> reply :=
  fun _ rq =>
    Responds (Response.mk 200 (Request.url rq) (lit "Request Limit Reached")).


(** A generator whose every draw is 0. *)
Definition no_draws : list event -> Z := fun _ => 0%Z.

(** The markup stripper on documents without markup. *)
Definition plain_text (html : str) : str := html.

Definition two_parts : ScrapeConfig.t :=
  ScrapeConfig.mk [] None None 2 0%Q 30.

Definition example_args (save_txt save_csv : bool) : Args.t :=
  {| Args.year := 2025;
     Args.output_dir := [lit "out"];
     Args.tickers_csv_path := [lit "tickers"; lit "sandp.csv"];
     Args.quarters := [1; 2]%Z;
     Args.save_txt := save_txt;
     Args.save_csv := save_csv;
     Args.cfg := Some two_parts;
     Args.sleep_s := 0%Q;
     Args.jitter_s := (35 # 100)%Q;
     Args.max_rate_limit_retries := 5 |}.

(** A disk with the ticker list only, and one where the outputs of AAPL's
    first quarter exist already. *)
Definition fresh_disk : path -> option file := fun p =>
  if path_eqb p [lit "tickers"; lit "sandp.csv"]
  then Some (TextFile (lit "act_symbol,name" ++ [LF] ++ lit "AAPL,Apple"
                       ++ [LF]))
  else None.

Definition disk_with_q1 : path -> option file := fun p =>
  if path_eqb p [lit "out"; lit "AAPL"; lit "AAPL_2025_Q1.txt"]
  then Some (TextFile (lit "Operator"))
  else if path_eqb p [lit "out"; lit "AAPL"; lit "AAPL_2025_Q1.csv"]
  then Some (CsvFile [[lit "sequence"; lit "speaker"; lit "text"]])
  else fresh_disk p.

(* ================================================================= *)
(** * Part II. Properties *)
(* ================================================================= *)

Unset Implicit Arguments.

(** ** Characters and strings *)

Arguments Ascii.eqb : simpl never.
Arguments isspace : simpl never.

Lemma ascii_eqb_true (a b : ascii) : Ascii.eqb a b = true <-> a = b.
Proof. apply Ascii.eqb_eq. Qed.

Lemma ascii_eqb_false (a b : ascii) : Ascii.eqb a b = false <-> a <> b.
Proof. apply Ascii.eqb_neq. Qed.

Lemma str_eqb_true (a b : str) : str_eqb a b = true <-> a = b.
Proof.
  unfold str_eqb. destruct (list_eq_dec ascii_dec a b); split; congruence.
Qed.

Lemma path_eqb_true (p q : path) : path_eqb p q = true <-> p = q.
Proof.
  unfold path_eqb.
  destruct (list_eq_dec (list_eq_dec ascii_dec) p q); split; congruence.
Qed.

Lemma truthy_false (s : str) : truthy s = false <-> s = [].
Proof. destruct s; simpl; split; congruence. Qed.

Lemma nonempty_false {A} (l : list A) : nonempty l = false <-> l = [].
Proof. destruct l; simpl; split; congruence. Qed.

Lemma nonempty_app_r {A} (l : list A) (x : A) : nonempty (l ++ [x]) = true.
Proof. destruct l; reflexivity. Qed.

(** *** Stripping *)

Lemma lstrip_split (s : str) :
  exists l, s = l ++ lstrip s /\ forallb isspace l = true.
Proof.
  induction s as [|c t [l [E H]]]; simpl.
  - exists []. split; reflexivity.
  - destruct (isspace c) eqn:Hc.
    + exists (c :: l). simpl. rewrite Hc, H. split; [congruence | reflexivity].
    + exists []. split; reflexivity.
Qed.

Lemma lstrip_head (s : str) :
  match lstrip s with c :: _ => isspace c = false | [] => True end.
Proof.
  induction s as [|c t IH]; simpl; [exact I|].
  destruct (isspace c) eqn:Hc; [exact IH | exact Hc].
Qed.

Lemma lstrip_fixed (s : str) :
  match s with c :: _ => isspace c = false | [] => True end -> lstrip s = s.
Proof. destruct s as [|c t]; simpl; intros H; [reflexivity | now rewrite H]. Qed.

Lemma forallb_rev {A} (f : A -> bool) (l : list A) :
  forallb f (rev l) = forallb f l.
Proof.
  induction l as [|x l IH]; simpl; [reflexivity|].
  rewrite forallb_app, IH. simpl. rewrite andb_true_r. apply andb_comm.
Qed.

Lemma rstrip_split (s : str) :
  exists r, s = rstrip s ++ r /\ forallb isspace r = true.
Proof.
  unfold rstrip. destruct (lstrip_split (rev s)) as [l [E H]].
  exists (rev l). split.
  - rewrite <- rev_app_distr, <- E. symmetry. apply rev_involutive.
  - now rewrite forallb_rev.
Qed.

Lemma rstrip_last (s : str) :
  match rev (rstrip s) with c :: _ => isspace c = false | [] => True end.
Proof. unfold rstrip. rewrite rev_involutive. apply lstrip_head. Qed.

(** Stripping on the right keeps a first character that is not a space. *)
Lemma rstrip_keeps_head (s : str) :
  match s with c :: _ => isspace c = false | [] => True end ->
  match rstrip s with c :: _ => isspace c = false | [] => True end.
Proof.
  destruct (rstrip_split s) as [r [E Hr]].
  destruct (rstrip s) as [|c t] eqn:Hs; [trivial|].
  rewrite E. simpl. trivial.
Qed.

(** [strip] returns the middle of its argument: what it drops on either side
    is whitespace, and what it keeps neither starts nor ends with one. *)
Lemma strip_spec (s : str) :
  (exists l r, s = l ++ strip s ++ r
               /\ forallb isspace l = true /\ forallb isspace r = true)
  /\ match strip s with c :: _ => isspace c = false | [] => True end
  /\ match rev (strip s) with c :: _ => isspace c = false | [] => True end.
Proof.
  unfold strip. split; [|split].
  - destruct (lstrip_split s) as [l [El Hl]].
    destruct (rstrip_split (lstrip s)) as [r [Er Hr]].
    exists l, r. split; [|split]; trivial. rewrite <- Er. exact El.
  - apply rstrip_keeps_head, lstrip_head.
  - apply rstrip_last.
Qed.

Lemma strip_truthy_head (s : str) :
  truthy (strip s) = true ->
  exists c t, strip s = c :: t /\ isspace c = false.
Proof.
  destruct (strip_spec s) as [_ [H _]].
  destruct (strip s) as [|c t]; simpl; [discriminate|].
  intros _. exists c, t. split; [reflexivity | exact H].
Qed.

(** *** Substrings *)

Lemma startswith_iff (s p : str) :
  startswith s p = true <-> exists b, s = p ++ b.
Proof.
  revert s. induction p as [|c p IH]; intros s.
  - split; [intros _; now exists s | intros _; now destruct s].
  - destruct s as [|d s]; simpl;
      [split; [discriminate | intros [b Hb]; discriminate]|].
    rewrite andb_true_iff, ascii_eqb_true, IH. split.
    + intros [-> [b ->]]. now exists b.
    + intros [b Hb]. injection Hb as -> ->. split; [reflexivity | now exists b].
Qed.

Lemma contains_iff (s p : str) :
  contains s p = true <-> exists a b, s = a ++ p ++ b.
Proof.
  induction s as [|d s IH].
  - cbn [contains]. rewrite orb_false_r, startswith_iff. split.
    + intros [b Hb]. now exists [], b.
    + intros [a [b Hb]]. destruct a as [|x a]; [now exists b | discriminate].
  - cbn [contains]. rewrite orb_true_iff, startswith_iff, IH. split.
    + intros [[b Hb] | [a [b Hb]]].
      * now exists [], b.
      * exists (d :: a), b. simpl. now rewrite Hb.
    + intros [[|x a] [b Hb]].
      * left. now exists b.
      * right. injection Hb as -> ->. now exists a, b.
Qed.

(** A pattern that starts with a character that is no whitespace cannot
    start inside leading whitespace. *)
Lemma occurrence_after_spaces (l x a p b : str) (c : ascii) :
  forallb isspace l = true -> isspace c = false ->
  l ++ x = a ++ (c :: p) ++ b ->
  exists a', a = l ++ a'.
Proof.
  revert a. induction l as [|c0 l IH]; intros a Hl Hc H.
  - now exists a.
  - simpl in Hl. apply andb_prop in Hl. destruct Hl as [Hc0 Hl].
    destruct a as [|a0 a].
    + simpl in H. injection H as -> _. congruence.
    + simpl in H. injection H as -> H.
      destruct (IH a Hl Hc H) as [a' ->]. now exists a'.
Qed.

Lemma last_error_app (p : str) (c : ascii) : last_error (p ++ [c]) = Some c.
Proof. unfold last_error. now rewrite rev_app_distr. Qed.

(** Stripping neither creates nor destroys an occurrence of a pattern whose
    first and last characters are no whitespace. *)
Lemma contains_strip (s p : str) (c d : ascii) :
  hd_error p = Some c -> last_error p = Some d ->
  isspace c = false -> isspace d = false ->
  contains (strip s) p = contains s p.
Proof.
  intros Hc Hd Hcs Hds.
  destruct (strip_spec s) as [(l & r & Hs & Hl & Hr) _].
  apply eq_true_iff_eq. rewrite !contains_iff. split.
  - intros (a & b & Hm). exists (l ++ a), (b ++ r).
    rewrite Hs at 1. rewrite Hm, <- !app_assoc. reflexivity.
  - intros (a & b & Hab).
    destruct p as [|c' p']; [discriminate|]. injection Hc as ->.
    rewrite Hs in Hab.
    destruct (occurrence_after_spaces l (strip s ++ r) a p' b c Hl Hcs Hab)
      as [a' ->].
    rewrite <- app_assoc in Hab. apply app_inv_head in Hab.
    (* the same on the right, through reversal *)
    assert (Hrev : rev r ++ rev (strip s)
                   = rev b ++ (d :: rev (removelast (c :: p'))) ++ rev a').
    { rewrite <- rev_app_distr, Hab, !rev_app_distr, <- app_assoc.
      f_equal. f_equal.
      unfold last_error in Hd.
      destruct (rev (c :: p')) as [|x t] eqn:E; [discriminate|].
      injection Hd as ->.
      assert (Hp : c :: p' = rev t ++ [d]).
      { rewrite <- (rev_involutive (c :: p')), E. reflexivity. }
      rewrite Hp, removelast_last, rev_involutive. reflexivity. }
    destruct (occurrence_after_spaces (rev r) (rev (strip s)) (rev b)
                (rev (removelast (c :: p'))) (rev a') d)
      as [b' Hb'];
      [now rewrite forallb_rev | exact Hds | exact Hrev |].
    assert (Hb : b = rev b' ++ r).
    { rewrite <- (rev_involutive b), Hb', rev_app_distr, rev_involutive.
      reflexivity. }
    exists a', (rev b'). rewrite Hb in Hab.
    rewrite !app_assoc in Hab. apply app_inv_tail in Hab.
    rewrite Hab, <- !app_assoc. reflexivity.
Qed.

(** *** [re.sub] *)

Lemma skipn_length_le {A} (k : nat) (l : list A) : length (skipn k l) <= length l.
Proof. rewrite length_skipn. lia. Qed.

Lemma re_sub_from_fuel (m : matcher) (repl : str) :
  forall f1 f2 s, length s < f1 -> length s < f2 ->
  re_sub_from f1 m repl s = re_sub_from f2 m repl s.
Proof.
  induction f1 as [|f1 IH]; intros f2 s H1 H2; [lia|].
  destruct f2 as [|f2]; [lia|].
  destruct s as [|c t]; simpl; [reflexivity|].
  simpl in H1, H2.
  destruct (m (c :: t)) as [[|k]|].
  - f_equal. apply IH; lia.
  - f_equal. pose proof (skipn_length_le k t). apply IH; lia.
  - f_equal. apply IH; lia.
Qed.

Lemma re_sub_nil (m : matcher) (repl : str) : re_sub m repl [] = [].
Proof. reflexivity. Qed.

(** The scan, one step at a time. *)
Lemma re_sub_cons (m : matcher) (repl : str) (c : ascii) (t : str) :
  re_sub m repl (c :: t) =
  match m (c :: t) with
  | Some (S k) => repl ++ re_sub m repl (skipn k t)
  | _ => c :: re_sub m repl t
  end.
Proof.
  unfold re_sub.
  change (re_sub_from (S (length (c :: t))) m repl (c :: t))
    with (match m (c :: t) with
          | Some (S k) => repl ++ re_sub_from (S (length t)) m repl (skipn k t)
          | _ => c :: re_sub_from (S (length t)) m repl t
          end).
  destruct (m (c :: t)) as [[|k]|]; try reflexivity.
  f_equal. pose proof (skipn_length_le k t).
  apply re_sub_from_fuel; lia.
Qed.

(** *** The two substitutions of the normalizer *)

Lemma eol_crlf (t : str) :
  re_sub re_crlf_or_cr [LF] (CR :: LF :: t) = LF :: re_sub re_crlf_or_cr [LF] t.
Proof. rewrite re_sub_cons. reflexivity. Qed.

Lemma eol_cr (t : str) :
  hd_error t <> Some LF ->
  re_sub re_crlf_or_cr [LF] (CR :: t) = LF :: re_sub re_crlf_or_cr [LF] t.
Proof.
  intros H. rewrite re_sub_cons. destruct t as [|d t']; [reflexivity|].
  simpl. destruct (Ascii.eqb d LF) eqn:E; [|reflexivity].
  apply ascii_eqb_true in E. subst d. now elim H.
Qed.

Lemma eol_other (c : ascii) (t : str) :
  c <> CR ->
  re_sub re_crlf_or_cr [LF] (c :: t) = c :: re_sub re_crlf_or_cr [LF] t.
Proof.
  intros H. rewrite re_sub_cons. apply ascii_eqb_false in H.
  unfold re_crlf_or_cr. destruct t; rewrite H; reflexivity.
Qed.

Lemma eol_no_cr (s : str) : ~ In CR (re_sub re_crlf_or_cr [LF] s).
Proof.
  remember (length s) as n eqn:Hn. revert s Hn.
  induction n as [n IH] using lt_wf_ind. intros s Hn.
  destruct s as [|c t]; [intros []|].
  destruct (ascii_dec c CR) as [->|Hc].
  - destruct t as [|d t'].
    + rewrite eol_cr by discriminate. simpl. intros [H|[]]. discriminate H.
    + destruct (ascii_dec d LF) as [->|Hd].
      * rewrite eol_crlf. intros [H|H]; [discriminate H|].
        revert H. apply (IH (length t')); [simpl in Hn; lia | reflexivity].
      * rewrite eol_cr by (simpl; congruence).
        intros [H|H]; [discriminate H|].
        revert H. apply (IH (length (d :: t'))); [simpl in *; lia | reflexivity].
  - rewrite eol_other by assumption. intros [H|H]; [congruence|].
    revert H. apply (IH (length t)); [simpl in Hn; lia | reflexivity].
Qed.

Lemma run_length_repeat (n : nat) (t : str) :
  hd_error t <> Some LF ->
  run_length (Ascii.eqb LF) (repeat LF n ++ t) = n.
Proof.
  intros H. induction n as [|n IH]; simpl.
  - destruct t as [|d t']; [reflexivity|]. simpl.
    destruct (Ascii.eqb LF d) eqn:E; [|reflexivity].
    apply ascii_eqb_true in E. subst d. now elim H.
  - now rewrite IH.
Qed.

Lemma skipn_repeat_app {A} (x : A) (n : nat) (t : list A) :
  skipn n (repeat x n ++ t) = t.
Proof. induction n; simpl; auto. Qed.

Lemma col_other (c : ascii) (t : str) :
  c <> LF ->
  re_sub re_three_newlines [LF; LF] (c :: t)
  = c :: re_sub re_three_newlines [LF; LF] t.
Proof.
  intros H. rewrite re_sub_cons. unfold re_three_newlines. simpl.
  destruct (Ascii.eqb LF c) eqn:E; [|reflexivity].
  apply ascii_eqb_true in E. congruence.
Qed.

Lemma re_three_newlines_repeat (n : nat) (t : str) :
  hd_error t <> Some LF ->
  re_three_newlines (repeat LF n ++ t) = if 3 <=? n then Some n else None.
Proof.
  intros H. unfold re_three_newlines. now rewrite run_length_repeat.
Qed.

Lemma col_long_run (n : nat) (t : str) :
  3 <= n -> hd_error t <> Some LF ->
  re_sub re_three_newlines [LF; LF] (repeat LF n ++ t)
  = LF :: LF :: re_sub re_three_newlines [LF; LF] t.
Proof.
  intros Hn Ht. destruct n as [|n]; [lia|].
  change (repeat LF (S n) ++ t) with (LF :: (repeat LF n ++ t)).
  rewrite re_sub_cons.
  change (LF :: (repeat LF n ++ t)) with (repeat LF (S n) ++ t).
  rewrite re_three_newlines_repeat by assumption.
  destruct (Nat.leb_spec 3 (S n)); [|lia].
  now rewrite skipn_repeat_app.
Qed.

Lemma col_short_run (n : nat) (t : str) :
  n < 3 -> hd_error t <> Some LF ->
  re_sub re_three_newlines [LF; LF] (repeat LF n ++ t)
  = repeat LF n ++ re_sub re_three_newlines [LF; LF] t.
Proof.
  intros Hn Ht.
  assert (H1 : re_sub re_three_newlines [LF; LF] (LF :: t)
               = LF :: re_sub re_three_newlines [LF; LF] t).
  { rewrite re_sub_cons.
    change (LF :: t) with (repeat LF 1 ++ t).
    now rewrite re_three_newlines_repeat. }
  destruct n as [|[|[|n]]]; [reflexivity | exact H1 | | lia].
  change (repeat LF 2 ++ t) with (LF :: LF :: t).
  rewrite re_sub_cons.
  change (LF :: LF :: t) with (repeat LF 2 ++ t).
  rewrite re_three_newlines_repeat by assumption.
  change (repeat LF 2 ++ t) with (LF :: LF :: t).
  cbv iota beta. simpl Nat.leb. cbv iota. now rewrite H1.
Qed.

(** *** Normalization *)

(** C7 (as the code has it).  For every input string, [_normalize_whitespace]
    (1) rewrites each \r\n and each lone \r to \n, copying every other
    character, so that no \r remains; (2) rewrites every maximal run of three
    or more \n (two or more consecutive blank lines) to exactly two \n (one
    blank line) and leaves runs of one or two \n, and every other character,
    as they are; (3) returns the result of (2) without its leading and
    trailing whitespace. *)
Theorem normalize_whitespace_stages (s : str) :
  let eol := re_sub re_crlf_or_cr [LF] in
  let col := re_sub re_three_newlines [LF; LF] in
  (* (1) line endings *)
  (forall t, eol (CR :: LF :: t) = LF :: eol t)
  /\ (forall t, hd_error t <> Some LF -> eol (CR :: t) = LF :: eol t)
  /\ (forall c t, c <> CR -> eol (c :: t) = c :: eol t)
  /\ ~ In CR (eol s)
  (* (2) runs of newlines *)
  /\ (forall n t, 3 <= n -> hd_error t <> Some LF ->
        col (repeat LF n ++ t) = LF :: LF :: col t)
  /\ (forall n t, n < 3 -> hd_error t <> Some LF ->
        col (repeat LF n ++ t) = repeat LF n ++ col t)
  /\ (forall c t, c <> LF -> col (c :: t) = c :: col t)
  (* (3) trimming *)
  /\ (exists l r, col (eol s) = l ++ _normalize_whitespace s ++ r
                  /\ forallb isspace l = true /\ forallb isspace r = true)
  /\ match _normalize_whitespace s with
     | c :: _ => isspace c = false
     | [] => True
     end
  /\ match rev (_normalize_whitespace s) with
     | c :: _ => isspace c = false
     | [] => True
     end.
Proof.
  intros eol col.
  repeat match goal with |- _ /\ _ => split end.
  - apply eol_crlf.
  - apply eol_cr.
  - apply eol_other.
  - apply eol_no_cr.
  - apply col_long_run.
  - apply col_short_run.
  - apply col_other.
  - apply (strip_spec (col (eol s))).
  - apply (strip_spec (col (eol s))).
  - apply (strip_spec (col (eol s))).
Qed.

(** The theorem at " a\r\n\n\n\nb ": four newlines after the line-ending
    pass, two after the collapse. *)
Lemma normalize_whitespace_stages_witness :
  re_sub re_three_newlines [LF; LF] (repeat LF 4 ++ lit "b ")
  = LF :: LF :: re_sub re_three_newlines [LF; LF] (lit "b ").
Proof.
  destruct (normalize_whitespace_stages
              (lit " a" ++ [CR; LF; LF; LF; LF] ++ lit "b "))
    as (_ & _ & _ & _ & H & _).
  apply (H 4 (lit "b ")); [lia | discriminate].
Defined.

(** C7 (as stated) fails on "a\n\n\nb": the text has no \r and no outer
    whitespace, its only run of blank lines has two lines, fewer than three,
    and normalization does not leave that run unchanged but turns it into a
    single blank line. *)
Lemma normalize_whitespace_two_blank_lines :
  let s := lit "a" ++ [LF; LF; LF] ++ lit "b" in
  ~ In CR s
  /\ strip s = s
  /\ blank_line_runs s = [2]
  /\ _normalize_whitespace s = lit "a" ++ [LF; LF] ++ lit "b"
  /\ blank_line_runs (_normalize_whitespace s) = [1].
Proof.
  vm_compute. repeat split; try reflexivity.
  intros H. repeat (destruct H as [H|H]; [discriminate H|]). exact H.
Qed.

(** ** Fragment fetcher *)

Section Fetcher.

Variable server : list event -> Request.t -> reply.

(** One call is one request, whatever comes back. *)
Lemma fetch_fragment_world session url headers cfg w :
  fst (_fetch_fragment server session url headers cfg w)
  = emit (Get (fragment_request session url headers cfg)) w.
Proof.
  unfold _fetch_fragment, bind, session_get, fragment_request.
  destruct (server (trace w) _) as [r|name msg]; [|reflexivity].
  destruct (Response.status_code r =? 404)%Z; [reflexivity|].
  destruct (Response.status_code r >=? 400)%Z; [reflexivity|].
  destruct (truthy (strip (Response.text r))); [|reflexivity].
  simpl negb. cbv iota.
  destruct (contains _ _ && contains _ _); reflexivity.
Qed.

(** What it returns is a function of the reply alone. *)
Lemma fetch_fragment_result session url headers cfg w :
  snd (_fetch_fragment server session url headers cfg w)
  = match server (trace w) (fragment_request session url headers cfg) with
    | Fails name msg => Raise (LibraryError name msg)
    | Responds r =>
        if (Response.status_code r =? 404)%Z then Return None
        else if (Response.status_code r >=? 400)%Z
        then Raise (TranscriptScrapeError
                      (lit "HTTP " ++ dec (Response.status_code r)
                       ++ lit " for " ++ Response.url r))
        else
          let body := strip (Response.text r) in
          if negb (truthy body) then Return None
          else if contains body (lit "Page Not Found")
                  && contains body (lit "404")
          then Return None
          else Return (Some body)
    end.
Proof.
  unfold _fetch_fragment, bind, session_get, fragment_request.
  destruct (server (trace w) _) as [r|name msg]; [|reflexivity].
  destruct (Response.status_code r =? 404)%Z; [reflexivity|].
  destruct (Response.status_code r >=? 400)%Z; [reflexivity|].
  destruct (truthy (strip (Response.text r))); [|reflexivity].
  simpl negb. cbv iota.
  destruct (contains _ _ && contains _ _); reflexivity.
Qed.

(** A fragment that is returned is never empty, and the loop never runs out
    of fuel here: there is no loop. *)
Lemma fetch_fragment_shape session url headers cfg w :
  match snd (_fetch_fragment server session url headers cfg w) with
  | Return (Some b) => truthy b = true
  | Return None => True
  | Raise _ => True
  | OutOfFuel => False
  end.
Proof.
  rewrite fetch_fragment_result.
  destruct (server (trace w) _) as [r|name msg]; [|exact I].
  destruct (Response.status_code r =? 404)%Z; [exact I|].
  destruct (Response.status_code r >=? 400)%Z; [exact I|].
  cbv zeta.
  destruct (truthy (strip (Response.text r))) eqn:E; [|exact I].
  simpl negb. cbv iota.
  destruct (contains _ _ && contains _ _); [exact I | exact E].
Qed.

(** C3.  For every HTTP response that [session.get] returns,
    [_fetch_fragment] sends exactly one request (it never retries) and ends in
    exactly one of three ways: it returns the stripped body when the status is
    2xx, the body is not empty after stripping and does not contain both
    "Page Not Found" and "404"; it returns [None] when the status is 404, or
    the status is 2xx and the body is empty after stripping or matches that
    template; it raises [TranscriptScrapeError] with the status code and the
    resolved URL for any other status from 400 up.  (The code looks for the
    two phrases in the stripped body; that is the same as looking in the
    body.) *)
Theorem fetch_fragment_classifies session url headers cfg w r :
  server (trace w) (fragment_request session url headers cfg) = Responds r ->
  let status := Response.status_code r in
  let body := strip (Response.text r) in
  let not_found_template :=
    contains (Response.text r) (lit "Page Not Found")
    && contains (Response.text r) (lit "404") in
  exists res,
    _fetch_fragment server session url headers cfg w
    = (emit (Get (fragment_request session url headers cfg)) w, res)
    (* Content *)
    /\ ((200 <= status <= 299)%Z -> truthy body = true ->
        not_found_template = false -> res = Return (Some body))
    (* Absent *)
    /\ (status = 404%Z
        \/ ((200 <= status <= 299)%Z
            /\ (truthy body = false \/ not_found_template = true)) ->
        res = Return None)
    (* Error *)
    /\ ((400 <= status)%Z -> status <> 404%Z ->
        res = Raise (TranscriptScrapeError
                       (lit "HTTP " ++ dec status ++ lit " for "
                        ++ Response.url r)))
    (* exactly one of the three *)
    /\ ((exists b, res = Return (Some b) /\ truthy b = true)
        \/ res = Return None
        \/ (exists msg, res = Raise (TranscriptScrapeError msg))).
Proof.
  intros Hr status body tpl.
  exists (snd (_fetch_fragment server session url headers cfg w)).
  split.
  { rewrite <- fetch_fragment_world. apply surjective_pairing. }
  rewrite fetch_fragment_result, Hr. fold status. cbv zeta. fold body.
  assert (Htpl : contains body (lit "Page Not Found")
                 && contains body (lit "404") = tpl).
  { unfold body, tpl.
    rewrite (contains_strip (Response.text r) (lit "Page Not Found")
               "P"%char "d"%char eq_refl eq_refl eq_refl eq_refl).
    now rewrite (contains_strip (Response.text r) (lit "404")
                   "4"%char "4"%char eq_refl eq_refl eq_refl eq_refl). }
  rewrite Htpl. clear Htpl.
  destruct (Z.eqb_spec status 404) as [E404|N404].
  { repeat split; intros; try lia; auto. }
  destruct (Z.geb_spec status 400) as [G|L].
  { repeat split; intros; try lia; eauto.
    all: try (exfalso; intuition lia). }
  destruct (truthy body) eqn:Hb; simpl negb; cbv iota.
  - destruct tpl eqn:Ht.
    + repeat split; intros; try lia; try congruence; auto.
    + repeat split; intros; try lia; try congruence; eauto.
      all: try (exfalso; intuition (try lia; congruence)).
  - repeat split; intros; try lia; try congruence; auto.
Qed.

End Fetcher.

(** The theorem at a server that answers 200 with " hello ". *)
Lemma fetch_fragment_classifies_witness :
  let server := fun (_ : list event) (rq : Request.t) =>
    Responds (Response.mk 200 (Request.url rq) (lit " hello ")) in
  exists res,
    _fetch_fragment server [] (lit "http://x/") [] ScrapeConfig.default
                    (mkWorld [] (fun _ => None) no_draws)
    = (emit (Get (fragment_request [] (lit "http://x/") []
                    ScrapeConfig.default))
            (mkWorld [] (fun _ => None) no_draws), res)
    /\ res = Return (Some (lit "hello")).
Proof.
  intros server.
  destruct (@fetch_fragment_classifies server [] (lit "http://x/") []
              ScrapeConfig.default (mkWorld [] (fun _ => None) no_draws)
              (Response.mk 200 (lit "http://x/") (lit " hello "))
              eq_refl)
    as (res & Hrun & Hcontent & _).
  exists res. split; [exact Hrun|].
  apply Hcontent; [simpl; lia | reflexivity | reflexivity].
Defined.

(** ** What [time.sleep] accepts *)

Lemma Qle_bool_false (a b : Q) : Qle_bool a b = false <-> (b < a)%Q.
Proof.
  split.
  - intros H. apply Qnot_le_lt. intros L. apply Qle_bool_iff in L. congruence.
  - intros H. destruct (Qle_bool a b) eqn:E; [|reflexivity].
    apply Qle_bool_iff in E. exfalso. exact (Qlt_not_le _ _ H E).
Qed.

Lemma nanoseconds_nonneg (s : Q) : (0 <= s)%Q -> (0 <= nanoseconds s)%Q.
Proof.
  intros H. unfold nanoseconds. apply Qmult_le_0_compat; [exact H|].
  unfold Qle. simpl. lia.
Qed.

(** [time.sleep] accepts exactly the lengths from 0 up to, and not
    including, 2^63 nanoseconds. *)
Lemma sleep_error_none (s : Q) :
  sleep_error s = None
  <-> (0 <= s)%Q /\ (nanoseconds s < inject_Z (2 ^ 63))%Q.
Proof.
  unfold sleep_error, sleep_out_of_range. split.
  - intros H.
    destruct (Qle_bool (inject_Z (2 ^ 63)) (nanoseconds s)) eqn:E1;
      [discriminate|].
    destruct (Qle_bool (inject_Z (- 2 ^ 63)) (nanoseconds s)) eqn:E2;
      [|discriminate].
    destruct (Qle_bool 0 s) eqn:E3; [|discriminate].
    split; [now apply Qle_bool_iff | now apply Qle_bool_false].
  - intros [H0 H1].
    apply Qle_bool_false in H1. rewrite H1.
    assert (E2 : Qle_bool (inject_Z (- 2 ^ 63)) (nanoseconds s) = true).
    { apply Qle_bool_iff. apply Qle_trans with 0%Q.
      - unfold Qle. simpl. lia.
      - now apply nanoseconds_nonneg. }
    rewrite E2. apply Qle_bool_iff in H0. now rewrite H0.
Qed.

(** What it raises otherwise is one of two exceptions. *)
Lemma sleep_error_exn (s : Q) (e : exn) :
  sleep_error s = Some e ->
  e = OverflowError sleep_overflow_msg \/ e = ValueError sleep_negative_msg.
Proof.
  unfold sleep_error. destruct (sleep_out_of_range s).
  - intros [= <-]. now left.
  - destruct (negb _); [|discriminate]. intros [= <-]. now right.
Qed.

Lemma max0_nonneg (x : Q) : (0 <= max0 x)%Q.
Proof.
  unfold max0. destruct (Qle_bool x 0) eqn:E; [apply Qle_refl|].
  apply Qle_bool_false in E. now apply Qlt_le_weak.
Qed.

(** A pacing delay is never negative: [time.sleep] accepts it, or it is too
    long. *)
Lemma sleep_error_max0 (x : Q) :
  sleep_error (max0 x) = None
  \/ sleep_error (max0 x) = Some (OverflowError sleep_overflow_msg).
Proof.
  unfold sleep_error. destruct (sleep_out_of_range (max0 x)); [now right|].
  pose proof (max0_nonneg x) as H. apply Qle_bool_iff in H. rewrite H.
  now left.
Qed.

Lemma draw_of_bits_is_draw (bits : Z) : is_draw (draw_of_bits bits).
Proof.
  unfold is_draw, draw_of_bits, Qle, Qlt. cbn [Qnum Qden].
  pose proof (Z.mod_pos_bound bits (2 ^ 53) ltac:(lia)) as H.
  change (Z.pos (2 ^ 53)) with (2 ^ 53)%Z. lia.
Qed.

(** ** Worlds and index ranges *)

Lemma extend_nil (w : World) : extend w [] = w.
Proof. destruct w. unfold extend. simpl. now rewrite app_nil_r. Qed.

Lemma extend_extend (w : World) (e1 e2 : list event) :
  extend (extend w e1) e2 = extend w (e1 ++ e2).
Proof. unfold extend. simpl. now rewrite app_assoc. Qed.

Lemma emit_extend (e : event) (w : World) : emit e w = extend w [e].
Proof. reflexivity. Qed.

Lemma zseq_S (i : Z) (n : nat) : zseq i (S n) = i :: zseq (i + 1) n.
Proof.
  unfold zseq. simpl. f_equal; [f_equal; lia|].
  rewrite <- seq_shift, map_map. apply map_ext. intros k. lia.
Qed.



Lemma zseq_In (i : Z) (n : nat) (j : Z) :
  In j (zseq i n) <-> (i <= j < i + Z.of_nat n)%Z.
Proof.
  unfold zseq. rewrite in_map_iff. split.
  - intros [k [E H]]. apply in_seq in H. lia.
  - intros H. exists (Z.to_nat (j - i)). split; [lia|]. apply in_seq. lia.
Qed.


(** ** Fragment assembler *)

Section Assembler.

Variable server : list event -> Request.t -> reply.
Variable cfg : ScrapeConfig.t.
Variable base_url : str.

Let base := with_slash base_url.
Let session := session_of cfg.
Let headers := _build_headers base cfg.
Let bound := Z.max 0 (ScrapeConfig.max_parts cfg).

(** The function with its local names spelled out. *)
Lemma get_transcript_html_unfold :
  get_transcript_html server base_url (Some cfg)
  = (first <- _fetch_fragment server session base headers cfg ;;
     fragments <- fetch_parts server session base headers cfg
                    (range 1 (ScrapeConfig.max_parts cfg + 1))
                    (match first with
                     | Some f => if truthy f then [f] else []
                     | None => []
                     end) ;;
     if negb (nonempty fragments)
     then raise (TranscriptScrapeError no_fragments_msg)
     else ret (join [LF] fragments))%monad.
Proof. reflexivity. Qed.

Lemma part_url (i : Z) : (1 <= i)%Z ->
  base ++ dec i ++ lit "/" = frag_url base i.
Proof.
  intros H. unfold frag_url. destruct (Z.eqb_spec i 0); [lia | reflexivity].
Qed.

Lemma range_from_one :
  range 1 (ScrapeConfig.max_parts cfg + 1)
  = zseq 1 (Z.to_nat (ScrapeConfig.max_parts cfg)).
Proof. unfold range. f_equal. lia. Qed.

Lemma range_to_bound : range 0 (bound + 1) = 0%Z :: zseq 1 (Z.to_nat bound).
Proof.
  unfold range. replace (Z.to_nat (bound + 1 - 0)) with (S (Z.to_nat bound))
    by (unfold bound; lia).
  apply zseq_S.
Qed.

(** *** When every fetch is Absent *)

Lemma fetch_parts_all_absent (idxs : list Z) : forall w,
  (forall i w', In i idxs ->
     snd (_fetch_fragment server session (frag_url base i) headers cfg w')
     = Absent) ->
  Forall (fun i => (1 <= i)%Z) idxs ->
  fetch_parts server session base headers cfg idxs [] w
  = (extend w (map (fun i => Get (fragment_request session (frag_url base i)
                                                   headers cfg)) idxs),
     Return []).
Proof.
  induction idxs as [|i rest IH]; intros w Habs Hpos.
  - simpl. unfold ret. now rewrite extend_nil.
  - inversion Hpos as [|? ? Hi Hrest]; subst.
    cbn [fetch_parts]. unfold bind. rewrite (part_url i Hi).
    rewrite (surjective_pairing (_fetch_fragment _ _ _ _ _ w)).
    rewrite fetch_fragment_world, Habs by (left; reflexivity).
    cbn [nonempty]. rewrite IH.
    + rewrite emit_extend, extend_extend. reflexivity.
    + intros j w' Hj. apply Habs. now right.
    + exact Hrest.
Qed.

(** *** What is returned is never empty *)

Lemma join_truthy (sep : str) (parts : list str) :
  nonempty parts = true -> Forall (fun p => truthy p = true) parts ->
  truthy (join sep parts) = true.
Proof.
  intros Hne Hall. destruct parts as [|p rest]; [discriminate|].
  inversion Hall as [|? ? Hp _]; subst.
  destruct p as [|c p']; [discriminate|].
  destruct rest; reflexivity.
Qed.

Lemma fetch_parts_truthy (idxs : list Z) : forall frags w w' frs,
  Forall (fun p => truthy p = true) frags ->
  fetch_parts server session base headers cfg idxs frags w = (w', Return frs) ->
  Forall (fun p => truthy p = true) frs.
Proof.
  induction idxs as [|i rest IH]; intros frags w w' frs Hall Hrun.
  - simpl in Hrun. unfold ret in Hrun. now inversion Hrun; subst.
  - cbn [fetch_parts] in Hrun. unfold bind in Hrun.
    pose proof (fetch_fragment_shape server session
                  (base ++ dec i ++ lit "/") headers cfg w) as Hshape.
    destruct (_fetch_fragment server session (base ++ dec i ++ lit "/")
                headers cfg w) as [w1 [[b|]| |]]; simpl in Hshape;
      try discriminate.
    + destruct ((if negb (Qeq_bool (ScrapeConfig.sleep_s cfg) 0)
                 then time_sleep (FragmentDelay (ScrapeConfig.sleep_s cfg))
                 else ret tt) w1) as [w2 [[]| |]]; try discriminate.
      apply (IH _ _ _ _ (proj2 (Forall_app _ _ _)
                           (conj Hall (Forall_cons _ Hshape (Forall_nil _))))
                Hrun).
    + destruct (nonempty frags).
      * unfold ret in Hrun. now inversion Hrun; subst.
      * apply (IH _ _ _ _ Hall Hrun).
Qed.

Lemma get_transcript_html_truthy (w w' : World) (html : str) :
  get_transcript_html server base_url (Some cfg) w = (w', Return html) ->
  truthy html = true.
Proof.
  rewrite get_transcript_html_unfold. unfold bind. intros Hrun.
  pose proof (fetch_fragment_shape server session base headers cfg w) as Hshape.
  destruct (_fetch_fragment server session base headers cfg w)
    as [w1 [first| |]]; simpl in Hshape; try discriminate.
  destruct (fetch_parts server session base headers cfg _ _ w1)
    as [w2 [frs| |]] eqn:Hparts; try discriminate.
  apply fetch_parts_truthy in Hparts.
  - destruct (nonempty frs) eqn:Hne; simpl in Hrun.
    + unfold ret in Hrun. inversion Hrun; subst. now apply join_truthy.
    + discriminate.
  - destruct first as [f|]; [|constructor].
    rewrite Hshape. now repeat constructor.
Qed.

(** *** With a given outcome at each index *)

Variable o : Z -> result (option str).

(** The fetch at each index that a pass can reach has the outcome [o] gives
    it, at whatever moment it is made. *)
Hypothesis outcomes : forall i w, (0 <= i <= bound)%Z ->
  snd (_fetch_fragment server session (frag_url base i) headers cfg w) = o i.




(** The politeness delay, for a delay that [time.sleep] accepts. *)
Hypothesis delay_ok : sleep_error (ScrapeConfig.sleep_s cfg) = None.




End Assembler.




(** C4.  When every fetch of a pass, base and numbered, is Absent,
    [get_transcript_html] asks for all of the indices 0..M and raises
    [TranscriptScrapeError] with the no-fragments message; and whenever it
    does return, what it returns is not the empty document. *)
Theorem assembly_without_content
    (server : list event -> Request.t -> reply) (cfg : ScrapeConfig.t)
    (base_url : str) :
  let base := with_slash base_url in
  let M := Z.max 0 (ScrapeConfig.max_parts cfg) in
  let request i :=
    fragment_request (session_of cfg) (frag_url base i)
                     (_build_headers base cfg) cfg in
  (forall w,
     (forall i w', (0 <= i <= M)%Z ->
        snd (_fetch_fragment server (session_of cfg) (frag_url base i)
                             (_build_headers base cfg) cfg w') = Absent) ->
     get_transcript_html server base_url (Some cfg) w
     = (extend w (map (fun i => Get (request i)) (range 0 (M + 1))),
        Raise (TranscriptScrapeError no_fragments_msg)))
  /\ (forall w w' html,
        get_transcript_html server base_url (Some cfg) w = (w', Return html) ->
        truthy html = true).
Proof.
  intros base M request. subst base M request. cbv beta. split.
  - intros w Habs.
    rewrite get_transcript_html_unfold. unfold bind at 1.
    rewrite (surjective_pairing (_fetch_fragment _ _ _ _ _ w)).
    rewrite fetch_fragment_world.
    pose proof (Habs 0%Z w ltac:(lia)) as H0.
    change (frag_url (with_slash base_url) 0) with (with_slash base_url) in H0.
    rewrite H0. unfold bind.
    rewrite range_from_one, fetch_parts_all_absent.
    + cbn [nonempty negb]. unfold raise.
      rewrite range_to_bound. cbn [map].
      replace (Z.to_nat (Z.max 0 (ScrapeConfig.max_parts cfg)))
        with (Z.to_nat (ScrapeConfig.max_parts cfg)) by lia.
      now rewrite emit_extend, extend_extend.
    + intros i w' Hi. apply Habs. apply zseq_In in Hi. lia.
    + apply Forall_forall. intros i Hi. apply zseq_In in Hi. lia.
  - intros w w' html. apply get_transcript_html_truthy.
Qed.

(** The theorem at a server that answers 404 to everything, for two numbered
    parts: three requests, then the error. *)
Lemma assembly_without_content_witness :
  let server := fun (_ : list event) (rq : Request.t) =>
    Responds (Response.mk 404 (Request.url rq) []) in
  let cfg := ScrapeConfig.mk [] None None 2 0%Q 30 in
  let w := mkWorld [] (fun _ => None) no_draws in
  get_transcript_html server (lit "http://x/t") (Some cfg) w
  = (extend w
       (map (fun i => Get (fragment_request [] (frag_url (lit "http://x/t/") i)
                             (_build_headers (lit "http://x/t/") cfg) cfg))
            [0; 1; 2]%Z),
     Raise (TranscriptScrapeError no_fragments_msg)).
Proof.
  intros server cfg w.
  apply (proj1 (assembly_without_content server cfg (lit "http://x/t")) w).
  intros i w' _. rewrite fetch_fragment_result. reflexivity.
Defined.

(** ** Speaker segmenter *)

Lemma looks_like_speaker_candidate (line : str) :
  looks_like_speaker line = candidate_label line.
Proof.
  unfold looks_like_speaker, candidate_label.
  destruct (Nat.ltb_spec 60 (length line)) as [H|H].
  - replace (length line <=? 60) with false
      by (symmetry; apply Nat.leb_gt; lia).
    reflexivity.
  - replace (length line <=? 60) with true
      by (symmetry; apply Nat.leb_le; lia).
    destruct (re_search_denylist line).
    + now rewrite andb_false_r.
    + destruct (existsb _ (lit ".!?")); [reflexivity|].
      simpl. now rewrite andb_true_r.
Qed.

(** Lines that are no labels leave a scan alone while no speaker is set. *)
Lemma fold_no_labels (lines : list str) : forall st,
  current_speaker st = None ->
  (forall ln, In ln lines -> looks_like_speaker ln = false) ->
  fold_left seg_step lines st = st.
Proof.
  induction lines as [|ln rest IH]; intros st Hcur Hno; [reflexivity|].
  simpl. assert (Hstep : seg_step st ln = st).
  { unfold seg_step. rewrite (Hno ln (or_introl eq_refl)), Hcur. reflexivity. }
  rewrite Hstep. apply IH; [exact Hcur|].
  intros l Hl. apply Hno. now right.
Qed.

(** C9.  For every text none of whose lines (stripped of surrounding
    whitespace and non-empty, as the segmenter reads them) is a candidate
    speaker label, the segmenter returns exactly one block: speaker
    "Unknown", text the full input. *)
Theorem segmenter_without_labels (full_text : str) :
  (forall ln, In ln (seg_lines full_text) -> candidate_label ln = false) ->
  _parse_speaker_blocks_from_text full_text
  = [SpeakerBlock.mk (lit "Unknown") full_text].
Proof.
  intros Hno. unfold _parse_speaker_blocks_from_text, seg_scan.
  rewrite fold_no_labels; [reflexivity | reflexivity |].
  intros ln Hln. rewrite looks_like_speaker_candidate. now apply Hno.
Qed.

(** The theorem at "Good morning, everyone.\nThank you for joining us today." *)
Lemma segmenter_without_labels_witness :
  let full_text :=
    lit "Good morning, everyone." ++ [LF]
    ++ lit "Thank you for joining us today." in
  _parse_speaker_blocks_from_text full_text
  = [SpeakerBlock.mk (lit "Unknown") full_text].
Proof.
  intros full_text. apply segmenter_without_labels.
  intros ln Hln. vm_compute in Hln.
  destruct Hln as [<-|[<-|[]]]; reflexivity.
Defined.

(** C10 (as the code has it).  When the lines of a text are [pre], then a
    candidate label, then [rest], with no candidate label in [pre]: the scan
    builds exactly the blocks it builds from the label and [rest] alone, so
    the lines of [pre] enter no block it builds; the segmenter returns these
    blocks when there is at least one, and otherwise the fallback block,
    "Unknown" with the full text. *)
Theorem segmenter_drops_preamble (full_text : str) (pre : list str)
    (label : str) (rest : list str) :
  seg_lines full_text = pre ++ label :: rest ->
  (forall ln, In ln pre -> looks_like_speaker ln = false) ->
  looks_like_speaker label = true ->
  seg_scan (pre ++ label :: rest) = seg_scan (label :: rest)
  /\ (nonempty (seg_scan (label :: rest)) = true ->
      _parse_speaker_blocks_from_text full_text = seg_scan (label :: rest))
  /\ (nonempty (seg_scan (label :: rest)) = false ->
      _parse_speaker_blocks_from_text full_text
      = [SpeakerBlock.mk (lit "Unknown") full_text]).
Proof.
  intros Hlines Hpre Hlabel.
  assert (Hscan : seg_scan (pre ++ label :: rest) = seg_scan (label :: rest)).
  { unfold seg_scan. rewrite fold_left_app.
    now rewrite (fold_no_labels pre seg_init eq_refl Hpre). }
  split; [exact Hscan|].
  unfold _parse_speaker_blocks_from_text. rewrite Hlines, Hscan.
  split; intros H; now rewrite H.
Qed.

(** The theorem at "Prepared remarks follow.\nOperator\nWelcome to the call." *)
Lemma segmenter_drops_preamble_witness :
  let full_text :=
    lit "Prepared remarks follow." ++ [LF] ++ lit "Operator" ++ [LF]
    ++ lit "Welcome to the call." in
  _parse_speaker_blocks_from_text full_text
  = [SpeakerBlock.mk (lit "Operator") (lit "Welcome to the call.")].
Proof.
  intros full_text.
  destruct (segmenter_drops_preamble full_text
              [lit "Prepared remarks follow."] (lit "Operator")
              [lit "Welcome to the call."])
    as (_ & H & _).
  - reflexivity.
  - intros ln [<-|[]]. reflexivity.
  - reflexivity.
  - rewrite H; reflexivity.
Defined.

(** C10 (as stated) fails on "Intro line here.\nOperator": the second line is
    a candidate label, the first is not and precedes it, and the first line
    is part of the text of the block the segmenter returns, under the speaker
    "Unknown". *)
Lemma segmenter_preamble_in_fallback :
  let full_text := lit "Intro line here." ++ [LF] ++ lit "Operator" in
  seg_lines full_text = [lit "Intro line here."; lit "Operator"]
  /\ looks_like_speaker (lit "Intro line here.") = false
  /\ looks_like_speaker (lit "Operator") = true
  /\ _parse_speaker_blocks_from_text full_text
     = [SpeakerBlock.mk (lit "Unknown") full_text]
  /\ startswith full_text (lit "Intro line here.") = true.
Proof. vm_compute. repeat split. Qed.

(** ** Backoff delay: binary64 arithmetic *)

Section Binary64.

Local Open Scope Z_scope.
Local Unset Implicit Arguments.

(** *** Digits *)


(** *** Rounding to nearest even, on scaled values *)





(** *** The right shift of the standard library *)







(** *** Values of binary64 numbers, scaled to integers *)




































(** *** The delay of an attempt *)




End Binary64.

(** ** Batch retry controller *)

(** *** What an assembly pass can do, whatever the server *)

Section PassFrame.

Variable server : list event -> Request.t -> reply.

Lemma fetch_fragment_frame session url headers cfg w :
  exists r,
    _fetch_fragment server session url headers cfg w
    = (emit (Get (fragment_request session url headers cfg)) w, r)
    /\ pass_result_ok r.
Proof.
  exists (snd (_fetch_fragment server session url headers cfg w)). split.
  - rewrite <- (fetch_fragment_world server). apply surjective_pairing.
  - rewrite fetch_fragment_result.
    destruct (server (trace w) _) as [r|name msg]; [|reflexivity].
    destruct (Response.status_code r =? 404)%Z; [exact I|].
    destruct (Response.status_code r >=? 400)%Z; [reflexivity|].
    cbv zeta. destruct (negb _); [exact I|].
    destruct (_ && _); exact I.
Qed.

Lemma fetch_parts_frame session base headers cfg (idxs : list Z) :
  forall frags w,
  exists evs r,
    fetch_parts server session base headers cfg idxs frags w
    = (extend w evs, r)
    /\ Forall (fun e => fetch_event e = true) evs
    /\ pass_result_ok r.
Proof.
  induction idxs as [|i rest IH]; intros frags w.
  - exists [], (Return frags). simpl. unfold ret. rewrite extend_nil.
    repeat split; auto; repeat constructor.
  - cbn [fetch_parts]. unfold bind.
    destruct (fetch_fragment_frame session (base ++ dec i ++ lit "/")
                headers cfg w) as (r & -> & Hr).
    destruct r as [[b|]| |]; [| | |contradiction].
    + (* collected *)
      destruct (negb (Qeq_bool (ScrapeConfig.sleep_s cfg) 0)).
      * unfold time_sleep. cbn [duration_error].
        destruct (sleep_error (ScrapeConfig.sleep_s cfg)) as [e|] eqn:Hse.
        -- exists [Get (fragment_request session (base ++ dec i ++ lit "/")
                          headers cfg)], (Raise e).
           unfold raise. rewrite emit_extend.
           split; [reflexivity|]. split; [repeat constructor|].
           destruct (sleep_error_exn _ _ Hse) as [-> | ->]; reflexivity.
        -- unfold log.
           destruct (IH (frags ++ [b]) (emit (Sleep (FragmentDelay
                       (ScrapeConfig.sleep_s cfg)))
                       (emit (Get (fragment_request session
                          (base ++ dec i ++ lit "/") headers cfg)) w)))
             as (evs & r & -> & Hevs & Hr').
           exists (Get (fragment_request session (base ++ dec i ++ lit "/")
                          headers cfg)
                   :: Sleep (FragmentDelay (ScrapeConfig.sleep_s cfg)) :: evs),
             r.
           rewrite !emit_extend, !extend_extend. repeat split; auto.
      * unfold ret.
        destruct (IH (frags ++ [b]) (emit (Get (fragment_request session
                    (base ++ dec i ++ lit "/") headers cfg)) w))
          as (evs & r & -> & Hevs & Hr').
        exists (Get (fragment_request session (base ++ dec i ++ lit "/")
                       headers cfg) :: evs), r.
        rewrite !emit_extend, !extend_extend. repeat split; auto.
    + (* absent *)
      destruct (nonempty frags).
      * exists [Get (fragment_request session (base ++ dec i ++ lit "/")
                       headers cfg)], (Return frags).
        unfold ret. rewrite emit_extend. repeat split; auto; repeat constructor.
      * destruct (IH frags (emit (Get (fragment_request session
                    (base ++ dec i ++ lit "/") headers cfg)) w))
          as (evs & r & -> & Hevs & Hr').
        exists (Get (fragment_request session (base ++ dec i ++ lit "/")
                       headers cfg) :: evs), r.
        rewrite !emit_extend, !extend_extend. repeat split; auto.
    + (* error *)
      exists [Get (fragment_request session (base ++ dec i ++ lit "/")
                     headers cfg)], (Raise e).
      rewrite emit_extend. repeat split; auto; repeat constructor.
Qed.

(** A pass begins with a request, shows only requests and politeness delays,
    leaves the files alone, and ends by returning or by raising one of the
    assembly's exceptions. *)
Lemma get_transcript_html_frame base_url cfg w :
  exists rq evs r,
    get_transcript_html server base_url (Some cfg) w
    = (extend w (Get rq :: evs), r)
    /\ Forall (fun e => fetch_event e = true) evs
    /\ pass_result_ok r.
Proof.
  rewrite get_transcript_html_unfold. unfold bind at 1.
  destruct (fetch_fragment_frame (session_of cfg) (with_slash base_url)
              (_build_headers (with_slash base_url) cfg) cfg w)
    as (r0 & -> & Hr0).
  exists (fragment_request (session_of cfg) (with_slash base_url)
            (_build_headers (with_slash base_url) cfg) cfg).
  destruct r0 as [first| |]; [| |contradiction].
  - unfold bind.
    destruct (fetch_parts_frame (session_of cfg) (with_slash base_url)
                (_build_headers (with_slash base_url) cfg) cfg
                (range 1 (ScrapeConfig.max_parts cfg + 1))
                (match first with
                 | Some f => if truthy f then [f] else []
                 | None => []
                 end)
                (emit (Get (fragment_request (session_of cfg)
                   (with_slash base_url)
                   (_build_headers (with_slash base_url) cfg) cfg)) w))
      as (evs & r & -> & Hevs & Hr).
    rewrite emit_extend, extend_extend.
    destruct r as [frs| |]; [| |contradiction].
    + destruct (negb (nonempty frs)).
      * exists evs, (Raise (TranscriptScrapeError no_fragments_msg)).
        repeat split; auto.
      * exists evs, (Return (join [LF] frs)). repeat split; auto.
    + exists evs, (Raise e). repeat split; auto.
  - exists [], (Raise e). rewrite emit_extend. repeat split; auto.
Qed.

End PassFrame.

(** *** One pass of the retry loop *)

Section Controller.

Variable server : list event -> Request.t -> reply.
Variable _html_to_text : str -> str.
Variable args : Args.t.

Lemma backoff_run (t : str) (q attempt : Z) (w : World) :
  (attempt < Args.max_rate_limit_retries args)%Z ->
  (attempt < 1024)%Z ->
  on_rate_limit args t q attempt w
  = (extend w [Print (RATE_LIMIT t (Args.year args) q
                        (BackoffDelay attempt) (attempt + 1));
               Sleep (BackoffDelay attempt)],
     Return (Continue (attempt + 1))).
Proof.
  intros H Hsmall. unfold on_rate_limit, _backoff_delay_s.
  destruct (Z.geb_spec attempt (Args.max_rate_limit_retries args)); [lia|].
  destruct (Z.leb_spec 1024 attempt); [lia|].
  unfold bind, print, time_sleep, log, ret. simpl.
  now rewrite !emit_extend, extend_extend.
Qed.

Lemma overflow_run (t : str) (q attempt : Z) (w : World) :
  (attempt < Args.max_rate_limit_retries args)%Z ->
  (1024 <= attempt)%Z ->
  on_rate_limit args t q attempt w = (w, Raise (OverflowError overflow_msg)).
Proof.
  intros H Hbig. unfold on_rate_limit, _backoff_delay_s.
  destruct (Z.geb_spec attempt (Args.max_rate_limit_retries args)); [lia|].
  destruct (Z.leb_spec 1024 attempt); [|lia].
  reflexivity.
Qed.

Lemma exhausted_run (t : str) (q attempt : Z) (w : World) :
  (Args.max_rate_limit_retries args <= attempt)%Z ->
  on_rate_limit args t q attempt w
  = (w, Raise (RateLimitReached (exhausted_msg args t q))).
Proof.
  intros H. unfold on_rate_limit.
  destruct (Z.geb_spec attempt (Args.max_rate_limit_retries args)); [|lia].
  reflexivity.
Qed.

(** *** Files *)

Lemma path_eqb_refl (p : path) : path_eqb p p = true.
Proof. now apply path_eqb_true. Qed.

Lemma exists_nonempty_store (p : path) (f : file) (w : World) (q : path) :
  exists_nonempty (store p f w) q
  = if path_eqb q p then st_size_pos f else exists_nonempty w q.
Proof. unfold exists_nonempty, store. simpl. now destruct (path_eqb q p). Qed.

Lemma exists_nonempty_emit (e : event) (w : World) (q : path) :
  exists_nonempty (emit e w) q = exists_nonempty w q.
Proof. reflexivity. Qed.

Lemma exists_nonempty_extend (evs : list event) (w : World) (q : path) :
  exists_nonempty (extend w evs) q = exists_nonempty w q.
Proof. reflexivity. Qed.

Lemma grows_refl (w : World) : grows w w.
Proof. intros p H. exact H. Qed.

Lemma grows_trans (w1 w2 w3 : World) :
  grows w1 w2 -> grows w2 w3 -> grows w1 w3.
Proof. intros H12 H23 p H. apply H23, H12, H. Qed.

Lemma grows_files (w w' : World) : files w' = files w -> grows w w'.
Proof. intros Hf p. unfold exists_nonempty. now rewrite Hf. Qed.

Lemma grows_store (p : path) (f : file) (w : World) :
  st_size_pos f = true -> grows w (store p f w).
Proof.
  intros Hf q Hq. rewrite exists_nonempty_store.
  now destruct (path_eqb q p).
Qed.

(** Saving never fails and shows directory and file writes only; if what it
    writes is not empty, the files it writes exist afterwards and no file is
    lost. *)
Lemma save_outputs_run (text stem : str) (tdir : path) (w : World) :
  exists w2 saves,
    (forall (X : Type) (k : M X),
       ((if Args.save_txt args
         then save_transcript_txt_from_text text (stem ++ lit ".txt")
                (Some tdir) ;; ret tt
         else ret tt) ;;
        (if Args.save_csv args
         then save_transcript_csv_from_blocks (speaker_blocks_from_text text)
                (stem ++ lit ".csv") (Some tdir) ;; ret tt
         else ret tt) ;;
        k)%monad w
       = k w2)
    /\ trace w2 = trace w ++ saves
    /\ Forall (fun e => save_event e = true) saves
    /\ (Forall (fun e => nonempty_write e = true) saves ->
        grows w w2 /\ saved_present args tdir stem w2).
Proof.
  unfold saved_present.
  unfold bind, save_transcript_txt_from_text, save_transcript_csv_from_blocks,
    mkdir, write_file, log, ret, bind.
  destruct (save_target (stem ++ lit ".txt") (Some tdir)) as [dt pt] eqn:Et.
  destruct (save_target (stem ++ lit ".csv") (Some tdir)) as [dc pc] eqn:Ec.
  cbn [snd].
  destruct (Args.save_txt args), (Args.save_csv args).
  - exists (store pc (CsvFile ([lit "sequence"; lit "speaker"; lit "text"]
                               :: csv_rows 1 (speaker_blocks_from_text text)))
              (emit (Mkdir dc) (store pt (TextFile text) (emit (Mkdir dt) w)))),
      [Mkdir dt; WriteFile pt (TextFile text); Mkdir dc;
       WriteFile pc (CsvFile ([lit "sequence"; lit "speaker"; lit "text"]
                              :: csv_rows 1 (speaker_blocks_from_text text)))].
    split; [reflexivity|]. split; [simpl; now rewrite <- !app_assoc|].
    split; [repeat constructor|]. intros Hne.
    inversion Hne as [|? ? _ Hne1]; subst.
    inversion Hne1 as [|? ? Htxt _]; subst. simpl in Htxt.
    split.
    + apply (grows_trans _ (store pt (TextFile text) (emit (Mkdir dt) w))).
      * apply (grows_trans _ (emit (Mkdir dt) w));
          [now apply grows_files | now apply grows_store].
      * apply (grows_trans _ (emit (Mkdir dc)
                 (store pt (TextFile text) (emit (Mkdir dt) w))));
          [now apply grows_files | now apply grows_store].
    + split; intros _; rewrite exists_nonempty_store.
      * destruct (path_eqb pt pc); [reflexivity|].
        now rewrite exists_nonempty_emit, exists_nonempty_store,
          path_eqb_refl.
      * now rewrite path_eqb_refl.
  - exists (store pt (TextFile text) (emit (Mkdir dt) w)),
      [Mkdir dt; WriteFile pt (TextFile text)].
    split; [reflexivity|]. split; [simpl; now rewrite <- !app_assoc|].
    split; [repeat constructor|]. intros Hne.
    inversion Hne as [|? ? _ Hne1]; subst.
    inversion Hne1 as [|? ? Htxt _]; subst. simpl in Htxt.
    split.
    + apply (grows_trans _ (emit (Mkdir dt) w));
        [now apply grows_files | now apply grows_store].
    + split; [|discriminate]. intros _.
      now rewrite exists_nonempty_store, path_eqb_refl.
  - exists (store pc (CsvFile ([lit "sequence"; lit "speaker"; lit "text"]
                               :: csv_rows 1 (speaker_blocks_from_text text)))
              (emit (Mkdir dc) w)),
      [Mkdir dc;
       WriteFile pc (CsvFile ([lit "sequence"; lit "speaker"; lit "text"]
                              :: csv_rows 1 (speaker_blocks_from_text text)))].
    split; [reflexivity|]. split; [simpl; now rewrite <- !app_assoc|].
    split; [repeat constructor|]. intros _.
    split.
    + apply (grows_trans _ (emit (Mkdir dc) w));
        [now apply grows_files | now apply grows_store].
    + split; [discriminate|]. intros _.
      now rewrite exists_nonempty_store, path_eqb_refl.
  - exists w, []. split; [reflexivity|].
    split; [symmetry; apply app_nil_r|]. split; [constructor|].
    intros _. split; [apply grows_refl|]. split; discriminate.
Qed.

(** One pass: an assembly pass, then one of the steps. *)
Lemma one_pass_step (t : str) (tdir : path) (stem : str) (q attempt : Z)
    (w : World) :
  exists rq evs res w' r,
    get_transcript_html server (unit_url args t q) (Some (batch_cfg args)) w
    = (extend w (Get rq :: evs), res)
    /\ Forall (fun e => fetch_event e = true) evs
    /\ one_pass server _html_to_text args t tdir stem q attempt w = (w', r)
    /\ pass_step _html_to_text args t tdir stem q attempt
         (extend w (Get rq :: evs)) res w' r.
Proof.
  destruct (get_transcript_html_frame server (unit_url args t q)
              (batch_cfg args) w) as (rq & evs & res & Hget & Hevs & Hres).
  exists rq, evs, res.
  unfold one_pass, try_except, try_body. unfold bind at 1. rewrite Hget.
  destruct res as [html|e|]; [| |contradiction]; cbv beta iota.
  - (* the pass returned a document *)
    destruct (is_rate_limited_message
                (transcript_text_from_html _html_to_text html)) eqn:Hrl.
    + destruct (Z_lt_le_dec attempt (Args.max_rate_limit_retries args)).
      * destruct (Z_lt_le_dec attempt 1024).
        -- rewrite backoff_run by assumption.
           eexists; eexists. repeat split; eauto. now apply pass_retry.
        -- rewrite overflow_run by assumption. cbn [handlers].
           unfold bind, print, log, ret.
           eexists; eexists. repeat split; eauto.
           eapply pass_overflow_logged; eauto.
      * rewrite exhausted_run by assumption. cbn [handlers]. unfold raise.
        eexists; eexists. repeat split; eauto. now apply pass_exhausted.
    + destruct (save_outputs_run
                  (transcript_text_from_html _html_to_text html) stem tdir
                  (extend w (Get rq :: evs)))
        as (w2 & saves & Hsave & Htr & Hs & Hpresent).
      rewrite Hsave. unfold bind, print, log, ret.
      eexists; eexists. repeat split; eauto.
      eapply pass_done; eauto.
  - (* the pass raised *)
    destruct e as [msg|msg|msg|msg|msg|name msg]; try discriminate Hres;
      cbn [handlers].
    + destruct (is_rate_limited_message msg) eqn:Hrl.
      * destruct (Z_lt_le_dec attempt (Args.max_rate_limit_retries args)).
        -- destruct (Z_lt_le_dec attempt 1024).
           ++ rewrite backoff_run by assumption.
              eexists; eexists. repeat split; eauto. now apply pass_retry.
           ++ rewrite overflow_run by assumption.
              eexists; eexists. repeat split; eauto.
              eapply pass_overflow_raised; eauto.
        -- rewrite exhausted_run by assumption.
           eexists; eexists. repeat split; eauto. now apply pass_exhausted.
      * unfold bind, print, log, ret.
        eexists; eexists. repeat split; eauto.
        eapply pass_skipped; eauto.
    + unfold bind, print, log, ret.
      eexists; eexists. repeat split; eauto.
      eapply pass_failed; eauto.
    + unfold bind, print, log, ret.
      eexists; eexists. repeat split; eauto.
      eapply pass_failed; eauto.
    + unfold bind, print, log, ret.
      eexists; eexists. repeat split; eauto.
      eapply pass_failed; eauto.
Qed.

(** *** The retry loop of one unit *)

Lemma fetch_events_quiet (evs : list event) :
  Forall (fun e => fetch_event e = true) evs ->
  Forall (fun e => quiet e = true) evs.
Proof.
  apply Forall_impl. intros [rq|[s|a|s]|l|p|p f]; simpl; congruence.
Qed.

Lemma save_events_quiet (evs : list event) :
  Forall (fun e => save_event e = true) evs ->
  Forall (fun e => quiet e = true) evs.
Proof.
  apply Forall_impl. intros [rq|[s|a|s]|l|p|p f]; simpl; congruence.
Qed.

Lemma backoffs_app (e1 e2 : list event) :
  backoffs (e1 ++ e2) = backoffs e1 + backoffs e2.
Proof. unfold backoffs. now rewrite filter_app, length_app. Qed.

Lemma backoffs_quiet_fetch (evs : list event) :
  Forall (fun e => fetch_event e = true) evs -> backoffs evs = 0.
Proof.
  induction 1 as [|e evs He _ IH]; [reflexivity|].
  change (e :: evs) with ([e] ++ evs). rewrite backoffs_app, IH.
  destruct e as [rq|[s|a|s]|l|p|p f]; simpl in *; congruence.
Qed.

Lemma str_eqb_refl (t : str) : str_eqb t t = true.
Proof. now apply str_eqb_true. Qed.

Lemma retry_loop_spec (t : str) (tdir : path) (stem : str) (q : Z) :
  forall (fuel : nat) (attempt : Z) (w : World),
  (0 <= attempt)%Z ->
  Z.to_nat (Args.max_rate_limit_retries args - attempt) < fuel ->
  exists w' r rq body,
    retry_loop server _html_to_text args fuel t tdir stem q attempt w = (w', r)
    /\ trace w' = trace w ++ Get rq :: body
    /\ ((r = Return tt
         /\ (unlimited_pass server _html_to_text args t q
             \/ (1024 < Args.max_rate_limit_retries args)%Z)
         /\ exists body0 c,
              body = body0 ++ [Print c]
              /\ Forall (fun e => quiet e = true) body0
              /\ attempted_completion t (Args.year args) q c = true)
        \/ (r = Raise (RateLimitReached (exhausted_msg args t q))
            /\ Forall (fun e => quiet e = true) body
            /\ Z.of_nat (backoffs (Get rq :: body))
               = Z.max 0 (Args.max_rate_limit_retries args - attempt)
            /\ limited_at server _html_to_text args t q w')
        \/ (r = Raise (OverflowError overflow_msg)
            /\ Forall (fun e => quiet e = true) body
            /\ (1024 < Args.max_rate_limit_retries args)%Z
            /\ Z.of_nat (backoffs (Get rq :: body)) = Z.max 0 (1024 - attempt)
            /\ limited_at server _html_to_text args t q w')).
Proof.
  induction fuel as [|fuel IH]; intros attempt w Hpos Hfuel; [lia|].
  cbn [retry_loop]. unfold bind.
  destruct (one_pass_step t tdir stem q attempt w)
    as (rq & evs & res & w1 & r1 & Hget & Hfetch & -> & Hstep).
  pose proof (fetch_events_quiet evs Hfetch) as Hevs.
  assert (Hfree : rate_limit_detected _html_to_text res = false ->
                  unlimited_pass server _html_to_text args t q).
  { intros Hrl. exists w, res. now rewrite Hget. }
  assert (Hb0 : backoffs (Get rq :: evs) = 0).
  { change (Get rq :: evs) with ([Get rq] ++ evs).
    now rewrite backoffs_app, (backoffs_quiet_fetch evs Hfetch). }
  destruct Hstep as [Hrl Hmax | Hrl Hmax Hsmall
                     | html w2 saves Hres Hrl Htr Hsaves Hpresent
                     | msg Hres Hrl | e Hres He
                     | html Hres Hrl Hmax Hbig | msg Hres Hrl Hmax Hbig].
  - (* budget spent *)
    exists (extend w (Get rq :: evs)),
      (Raise (RateLimitReached (exhausted_msg args t q))), rq, evs.
    split; [reflexivity|]. split; [reflexivity|]. right. left.
    split; [reflexivity|]. split; [exact Hevs|]. split; [rewrite Hb0; lia|].
    exists w, res. auto.
  - (* back off, go round again *)
    destruct (IH (attempt + 1)%Z
                 (extend (extend w (Get rq :: evs))
                    [Print (RATE_LIMIT t (Args.year args) q
                              (BackoffDelay attempt) (attempt + 1));
                     Sleep (BackoffDelay attempt)]))
      as (w' & r & rq' & body & Hrun & Htr & Hshape); [lia | lia |].
    set (bo := [Print (RATE_LIMIT t (Args.year args) q
                         (BackoffDelay attempt) (attempt + 1));
                Sleep (BackoffDelay attempt)]) in *.
    exists w', r, rq, (evs ++ bo ++ Get rq' :: body).
    split; [exact Hrun|]. split.
    { rewrite Htr. simpl. rewrite <- !app_assoc. reflexivity. }
    assert (Hq : Forall (fun e => quiet e = true) (evs ++ bo ++ [Get rq'])).
    { apply Forall_app. split; [exact Hevs | repeat constructor]. }
    assert (Hsplit : forall l, evs ++ bo ++ Get rq' :: l
                               = (evs ++ bo ++ [Get rq']) ++ l).
    { intros l. simpl. rewrite <- !app_assoc. reflexivity. }
    assert (Hcount : forall l,
               backoffs (Get rq :: evs ++ bo ++ Get rq' :: l)
               = S (backoffs (Get rq' :: l))).
    { intros l.
      change (Get rq :: evs ++ bo ++ Get rq' :: l)
        with ((Get rq :: evs) ++ bo ++ Get rq' :: l).
      rewrite !backoffs_app, Hb0. reflexivity. }
    destruct Hshape as [(-> & Hwhy & body0 & c & -> & Hbody0 & Hc)
                       | [(-> & Hb & Hn & Hex)
                         | (-> & Hb & Hover & Hn & Hex)]].
    + left. split; [reflexivity|]. split; [exact Hwhy|].
      exists (evs ++ bo ++ Get rq' :: body0), c.
      split; [simpl; rewrite <- !app_assoc; reflexivity|].
      split; [|exact Hc].
      rewrite Hsplit. apply Forall_app. split; assumption.
    + right. left. split; [reflexivity|]. split; [|split; [|exact Hex]].
      * rewrite Hsplit. apply Forall_app. split; assumption.
      * rewrite Hcount. lia.
    + right. right. split; [reflexivity|].
      split; [|split; [exact Hover | split; [|exact Hex]]].
      * rewrite Hsplit. apply Forall_app. split; assumption.
      * rewrite Hcount. lia.
  - (* done *)
    exists (emit (Print (OK t (Args.year args) q)) w2), (Return tt), rq,
      ((evs ++ saves) ++ [Print (OK t (Args.year args) q)]).
    split; [reflexivity|]. split.
    { simpl. rewrite Htr. simpl. rewrite <- !app_assoc. reflexivity. }
    left. split; [reflexivity|]. split; [left; now apply Hfree|].
    exists (evs ++ saves), (OK t (Args.year args) q).
    split; [reflexivity|]. split.
    + apply Forall_app. split; [exact Hevs | now apply save_events_quiet].
    + simpl. now rewrite str_eqb_refl, !Z.eqb_refl.
  - (* skipped *)
    exists (emit (Print (SKIP t (Args.year args) q msg))
                 (extend w (Get rq :: evs))), (Return tt), rq,
      (evs ++ [Print (SKIP t (Args.year args) q msg)]).
    split; [reflexivity|]. split.
    { simpl. rewrite <- !app_assoc. reflexivity. }
    left. split; [reflexivity|]. split; [left; now apply Hfree|].
    exists evs, (SKIP t (Args.year args) q msg).
    split; [reflexivity|]. split; [exact Hevs|].
    simpl. now rewrite str_eqb_refl, !Z.eqb_refl.
  - (* given up *)
    exists (emit (Print (ERR t (Args.year args) q (exn_name e) (exn_str e)))
                 (extend w (Get rq :: evs))), (Return tt), rq,
      (evs ++ [Print (ERR t (Args.year args) q (exn_name e) (exn_str e))]).
    split; [reflexivity|]. split.
    { simpl. rewrite <- !app_assoc. reflexivity. }
    left. split; [reflexivity|]. split.
    { left. apply Hfree. subst res. now destruct e. }
    exists evs, (ERR t (Args.year args) q (exn_name e) (exn_str e)).
    split; [reflexivity|]. split; [exact Hevs|].
    simpl. now rewrite str_eqb_refl, !Z.eqb_refl.
  - (* the delay cannot be computed, inside [try]: given up *)
    exists (emit (Print (ERR t (Args.year args) q (lit "OverflowError")
                           overflow_msg))
                 (extend w (Get rq :: evs))), (Return tt), rq,
      (evs ++ [Print (ERR t (Args.year args) q (lit "OverflowError")
                        overflow_msg)]).
    split; [reflexivity|]. split.
    { simpl. rewrite <- !app_assoc. reflexivity. }
    left. split; [reflexivity|]. split; [right; lia|].
    exists evs, (ERR t (Args.year args) q (lit "OverflowError") overflow_msg).
    split; [reflexivity|]. split; [exact Hevs|].
    cbn [attempted_completion]. now rewrite str_eqb_refl, !Z.eqb_refl.
  - (* the delay cannot be computed, inside the handler: raised *)
    exists (extend w (Get rq :: evs)), (Raise (OverflowError overflow_msg)),
      rq, evs.
    split; [reflexivity|]. split; [reflexivity|]. right. right.
    split; [reflexivity|]. split; [exact Hevs|]. split; [lia|].
    split; [rewrite Hb0; lia|]. exists w, res. auto.
Qed.

(** *** One unit of work *)

(** The pacing call: it sleeps and returns, or [time.sleep] refuses the
    delay. *)
Lemma sleep_with_jitter_run (base_s jitter_s : Q) (w : World) :
  _sleep_with_jitter base_s jitter_s w
  = if pacing_accepted base_s jitter_s (draw_of_bits (genrand w (trace w)))
    then (extend w (pacing_events base_s jitter_s
                      (draw_of_bits (genrand w (trace w)))),
          Return tt)
    else (w, Raise (OverflowError sleep_overflow_msg)).
Proof.
  unfold _sleep_with_jitter, pacing_events, pacing_accepted.
  destruct (Qle_bool base_s 0 && Qle_bool jitter_s 0); cbn [orb].
  - unfold ret. now rewrite extend_nil.
  - unfold bind, random_random, time_sleep. cbn [duration_error].
    unfold pacing_seconds.
    destruct (sleep_error_max0
                (base_s + draw_of_bits (genrand w (trace w)) * max0 jitter_s))
      as [-> | ->]; reflexivity.
Qed.



Lemma already_processed_result tdir stem st sc w :
  exists b, _already_processed tdir stem st sc w = (w, Return b).
Proof. unfold _already_processed. destruct (negb _); eauto. Qed.






(** *** The loops over quarters and tickers *)



Lemma unit_failure_completed (t : str) (q : Z) (body : list event)
    (w' : World) (e : exn) :
  unit_failure server _html_to_text args t q body w' e ->
  completed body = [] \/ completed body = [(t, q)].
Proof. intros [Hc _ | Hc _ _ _ | r Hc _ _]; auto. Qed.


(** *** The run *)

Lemma read_tickers_world (p : path) (w : World) :
  fst (_read_tickers_from_sandp_csv p w) = w.
Proof.
  unfold _read_tickers_from_sandp_csv, bind, read_file.
  destruct (files w p) as [[text|rows]|]; try reflexivity.
  destruct (filter truthy (map strip (splitlines text))); [reflexivity|].
  now destruct (negb _).
Qed.

(** Reading the ticker list depends on the files only. *)
Lemma read_tickers_files (p : path) (w1 w2 : World) :
  files w1 = files w2 ->
  snd (_read_tickers_from_sandp_csv p w1)
  = snd (_read_tickers_from_sandp_csv p w2).
Proof.
  intros H. unfold _read_tickers_from_sandp_csv, bind, read_file. rewrite H.
  destruct (files w2 p) as [[text|rows]|]; try reflexivity.
  destruct (filter truthy (map strip (splitlines text))); [reflexivity|].
  now destruct (negb _).
Qed.


End Controller.

(** Against a server that only ever shows the rate-limit page, the run backs
    off five times on the first unit and then fails. *)
Example run_exhausts_budget :
  let args := example_args true true in
  let run :=
    fetch_all_transcripts_for_year always_limited plain_text args
      (mkWorld [] fresh_disk no_draws) in
  snd run = Raise (RateLimitReached (exhausted_msg args (lit "AAPL") 1))
  /\ backoffs (trace (fst run)) = 5
  /\ completed (trace (fst run)) = [].
Proof. vm_compute. repeat split. Qed.

(** At attempt 1024 the delay cannot be computed: a detection in the text of
    a pass started there ends the unit with an [ERR] line. *)
Example overflow_in_try_is_logged :
  let args := {| Args.year := 2025;
                 Args.output_dir := [lit "out"];
                 Args.tickers_csv_path := [lit "tickers"; lit "sandp.csv"];
                 Args.quarters := [1]%Z;
                 Args.save_txt := true;
                 Args.save_csv := true;
                 Args.cfg := Some two_parts;
                 Args.sleep_s := 0%Q;
                 Args.jitter_s := 0%Q;
                 Args.max_rate_limit_retries := 2000 |} in
  let pass :=
    one_pass always_limited plain_text args (lit "AAPL")
      [lit "out"; lit "AAPL"] (lit "AAPL_2025_Q1") 1 1024
      (mkWorld [] fresh_disk no_draws) in
  snd pass = Return Break
  /\ last (trace (fst pass)) (Mkdir [])
     = Print (ERR (lit "AAPL") 2025 1 (lit "OverflowError") overflow_msg).
Proof. vm_compute. repeat split. Qed.

(** *** Pacing *)




Section Pacing.

Variable args : Args.t.

Let base_s := Args.sleep_s args.
Let jitter_s := Args.jitter_s args.









End Pacing.




(** *** Units that are already processed *)

Section Skipping.

Variable server : list event -> Request.t -> reply.
Variable _html_to_text : str -> str.
Variable args : Args.t.

Lemma already_processed_true (w0 w : World) (t : str) (q : Z) :
  files w0 = files w ->
  outputs_present args w t q ->
  _already_processed (ticker_dir_of args t)
    (unit_stem args (_safe_filename t) q)
    (Args.save_txt args) (Args.save_csv args) w0
  = (w0, Return true).
Proof.
  intros Hf (Hany & Htxt & Hcsv).
  unfold _already_processed, outputs_present, exists_nonempty, output_file in *.
  rewrite Hf.
  destruct (Args.save_txt args), (Args.save_csv args); try discriminate;
    cbn [app nonempty negb forallb].
  - now rewrite (Htxt eq_refl), (Hcsv eq_refl).
  - now rewrite (Htxt eq_refl).
  - now rewrite (Hcsv eq_refl).
Qed.

Lemma process_unit_skips (w0 w : World) (t : str) (q : Z) :
  files w0 = files w ->
  outputs_present args w t q ->
  process_unit server _html_to_text args t (_safe_filename t)
    (ticker_dir_of args t) q w0
  = (emit (Print (SKIP_DONE t (Args.year args) q)) w0, Return tt).
Proof.
  intros Hf Hp. unfold process_unit, bind.
  now rewrite (already_processed_true w0 w t q Hf Hp).
Qed.

Lemma quarters_skip (w : World) (t : str) : forall (qs : list Z) (w0 : World),
  files w0 = files w ->
  (forall q, In q qs -> outputs_present args w t q) ->
  for_each qs (process_unit server _html_to_text args t (_safe_filename t)
                 (ticker_dir_of args t)) w0
  = (extend w0 (map (fun q => Print (SKIP_DONE t (Args.year args) q)) qs),
     Return tt).
Proof.
  induction qs as [|q qs IH]; intros w0 Hf Hall.
  - simpl. unfold ret. now rewrite extend_nil.
  - cbn [for_each]. unfold bind.
    rewrite (process_unit_skips w0 w t q Hf (Hall q (or_introl eq_refl))).
    rewrite IH.
    + now rewrite emit_extend, extend_extend.
    + exact Hf.
    + intros q' Hq'. apply Hall. now right.
Qed.

Lemma tickers_skip (w : World) : forall (ts : list str) (w0 : World),
  files w0 = files w ->
  (forall t q, In t ts -> In q (Args.quarters args) ->
     outputs_present args w t q) ->
  for_each ts (process_ticker server _html_to_text args) w0
  = (extend w0
       (flat_map (fun t =>
          Mkdir (ticker_dir_of args t)
          :: map (fun q => Print (SKIP_DONE t (Args.year args) q))
                 (Args.quarters args)) ts),
     Return tt).
Proof.
  induction ts as [|t ts IH]; intros w0 Hf Hall.
  - simpl. unfold ret. now rewrite extend_nil.
  - cbn [for_each]. unfold bind at 1. unfold process_ticker at 1.
    unfold bind at 1. unfold mkdir, log.
    fold (ticker_dir_of args t).
    rewrite (quarters_skip w t (Args.quarters args)
               (emit (Mkdir (ticker_dir_of args t)) w0) Hf).
    + rewrite IH.
      * rewrite emit_extend, !extend_extend. cbn [flat_map].
        reflexivity.
      * exact Hf.
      * intros t' q Ht' Hq. apply Hall; [now right | exact Hq].
    + intros q Hq. apply Hall; [now left | exact Hq].
Qed.

End Skipping.

Lemma no_get_in_skipped_trace (args : Args.t) (tickers : list str) :
  existsb is_get (all_skipped_trace args tickers) = false.
Proof.
  assert (Hq : forall t qs,
             existsb is_get
               (map (fun q => Print (SKIP_DONE t (Args.year args) q)) qs)
             = false).
  { intros t qs. induction qs as [|q qs IHq]; [reflexivity | exact IHq]. }
  unfold all_skipped_trace. simpl.
  induction tickers as [|t ts IH]; [reflexivity|].
  cbn [flat_map]. simpl. now rewrite existsb_app, IH, orb_false_r.
Qed.

(** *** File names *)

Lemma split_on_none (sep : ascii) (s : str) : forall cur,
  ~ In sep s -> split_on sep cur s = [rev cur ++ s].
Proof.
  induction s as [|c s IH]; intros cur Hno.
  - simpl. now rewrite app_nil_r.
  - simpl. destruct (Ascii.eqb c sep) eqn:E.
    + apply ascii_eqb_true in E. subst. elim Hno. now left.
    + rewrite IH by (intros H; apply Hno; now right).
      simpl. now rewrite <- app_assoc.
Qed.

(** A name without a slash, not empty and not ".", is a path of one
    component. *)
Lemma Path_simple (name : str) :
  ~ In "/"%char name -> name <> [] -> name <> lit "." -> Path name = [name].
Proof.
  intros Hno Hne Hdot. unfold Path.
  rewrite (split_on_none "/"%char name [] Hno). simpl rev. simpl app.
  assert (Hs : startswith name (lit "/") = false).
  { destruct name as [|c name]; [reflexivity|]. simpl.
    destruct (Ascii.eqb "/" c) eqn:E; [|reflexivity].
    apply ascii_eqb_true in E. subst. elim Hno. now left. }
  rewrite Hs. cbn [filter].
  destruct (str_eqb name []) eqn:E1; [apply str_eqb_true in E1; congruence|].
  destruct (str_eqb name (lit ".")) eqn:E2;
    [apply str_eqb_true in E2; congruence|].
  reflexivity.
Qed.

(** For such a name the save functions write where the skip check looks. *)
Lemma save_target_same (tdir : path) (name : str) :
  ~ In "/"%char name -> name <> [] -> name <> lit "." ->
  snd (save_target name (Some tdir)) = path_div tdir name.
Proof.
  intros Hno Hne Hdot. unfold save_target. cbn [snd].
  rewrite (Path_simple name Hno Hne Hdot). unfold path_name. cbn [last].
  destruct (str_eqb name (lit "/")) eqn:E; [|reflexivity].
  apply str_eqb_true in E. subst. elim Hno. now left.
Qed.

Lemma safe_filename_chars (s : str) :
  forall c, In c (_safe_filename s) -> is_safe_char c = true.
Proof.
  unfold _safe_filename.
  remember (length s) as n eqn:Hn. revert s Hn.
  induction n as [n IH] using lt_wf_ind. intros s Hn c.
  destruct s as [|d s]; [intros []|].
  rewrite re_sub_cons. unfold re_unsafe_run at 1.
  destruct (run_length (fun c0 => negb (is_safe_char c0)) (d :: s))
    as [|k] eqn:Hrun.
  - (* the first character is safe: it is copied *)
    cbn [Nat.leb]. intros [<-|Hc].
    + simpl in Hrun. destruct (is_safe_char d); [reflexivity | discriminate].
    + apply (IH (length s)) with (s := s); [simpl in Hn; lia | reflexivity|].
      exact Hc.
  - (* a run of unsafe characters: one underscore *)
    cbn [Nat.leb]. intros Hc. apply in_app_or in Hc. destruct Hc as [Hc|Hc].
    + destruct Hc as [<-|[]]. reflexivity.
    + pose proof (skipn_length_le k s) as Hlen.
      apply (IH (length (skipn k s))) with (s := skipn k s);
        [simpl in Hn; lia | reflexivity | exact Hc].
Qed.

Lemma uint_no_slash (d : Decimal.uint) :
  ~ In "/"%char (lit (NilEmpty.string_of_uint d)).
Proof.
  induction d; simpl; intros H;
    try (destruct H as [H|H]; [discriminate H | now apply IHd]).
  exact H.
Qed.

Lemma dec_no_slash (z : Z) : ~ In "/"%char (dec z).
Proof.
  unfold dec, NilZero.string_of_int.
  assert (Hu : forall d, ~ In "/"%char (lit (NilZero.string_of_uint d))).
  { intros d. unfold NilZero.string_of_uint.
    destruct d; try apply uint_no_slash.
    simpl. intros [H|[]]. discriminate H. }
  destruct (Z.to_int z) as [d|d]; [apply Hu|].
  simpl. intros [H|H]; [discriminate H | now apply (Hu d)].
Qed.

Lemma unit_file_simple (args : Args.t) (t : str) (q : Z) (suffix : string) :
  ~ In "/"%char (lit suffix) -> 2 <= length (lit suffix) ->
  let name := unit_stem args (_safe_filename t) q ++ lit suffix in
  ~ In "/"%char name /\ name <> [] /\ name <> lit ".".
Proof.
  intros Hsuf Hlen name. split; [|split].
  - unfold name, unit_stem. intros H.
    repeat (apply in_app_or in H; destruct H as [H|H]).
    + apply safe_filename_chars in H. discriminate H.
    + destruct H as [H|[]]. discriminate H.
    + now apply dec_no_slash in H.
    + destruct H as [H|[H|[]]]; discriminate H.
    + now apply dec_no_slash in H.
    + now apply Hsuf.
  - intros H. apply (f_equal (@length ascii)) in H. unfold name in H.
    rewrite !length_app in H. simpl in H. lia.
  - intros H. apply (f_equal (@length ascii)) in H. unfold name in H.
    rewrite !length_app in H. simpl in H. lia.
Qed.

(** *** What a run leaves on disk *)

Section Presence.

Variable server : list event -> Request.t -> reply.
Variable _html_to_text : str -> str.
Variable args : Args.t.

Lemma saved_present_files (tdir : path) (stem : str) (w w' : World) :
  files w' = files w ->
  saved_present args tdir stem w -> saved_present args tdir stem w'.
Proof.
  intros Hf [Ht Hc]. unfold saved_present, exists_nonempty in *.
  rewrite Hf. now split.
Qed.

Lemma retry_loop_present (t : str) (tdir : path) (stem : str) (q : Z) :
  forall (fuel : nat) (attempt : Z) (w : World),
  exists w' r evs,
    retry_loop server _html_to_text args fuel t tdir stem q attempt w = (w', r)
    /\ trace w' = trace w ++ evs
    /\ (Forall (fun e => nonempty_write e = true) evs -> grows w w')
    /\ (r = Return tt ->
        Forall (fun e => good_closing e = true) evs ->
        Forall (fun e => nonempty_write e = true) evs ->
        saved_present args tdir stem w').
Proof.
  induction fuel as [|fuel IH]; intros attempt w.
  - exists w, OutOfFuel, []. split; [reflexivity|].
    split; [now rewrite app_nil_r|]. split; [intros _; apply grows_refl|].
    discriminate.
  - cbn [retry_loop]. unfold bind.
    destruct (one_pass_step server _html_to_text args t tdir stem q attempt w)
      as (rq & evs & res & w1 & r1 & Hget & _ & -> & Hstep).
    destruct Hstep as [Hrl Hmax | Hrl Hmax Hsmall
                       | html w2 saves Hres Hrl Htr Hsaves Hpresent
                       | msg Hres Hrl | e Hres He
                       | html Hres Hrl Hmax Hbig | msg Hres Hrl Hmax Hbig].
    + exists (extend w (Get rq :: evs)),
        (Raise (RateLimitReached (exhausted_msg args t q))), (Get rq :: evs).
      split; [reflexivity|]. split; [reflexivity|].
      split; [intros _; now apply grows_files | discriminate].
    + destruct (IH (attempt + 1)%Z
                   (extend (extend w (Get rq :: evs))
                      [Print (RATE_LIMIT t (Args.year args) q
                                (BackoffDelay attempt) (attempt + 1));
                       Sleep (BackoffDelay attempt)]))
        as (w' & r & evs2 & Hrun & Htr & Hgrow & Hsaved).
      exists w', r,
        ((Get rq :: evs)
         ++ [Print (RATE_LIMIT t (Args.year args) q
                      (BackoffDelay attempt) (attempt + 1));
             Sleep (BackoffDelay attempt)] ++ evs2).
      split; [exact Hrun|]. split.
      { rewrite Htr. simpl. now rewrite <- !app_assoc. }
      split.
      * intros Hne. apply Forall_app in Hne. destruct Hne as [_ Hne].
        apply Forall_app in Hne. destruct Hne as [_ Hne].
        apply (grows_trans _ (extend (extend w (Get rq :: evs))
                 [Print (RATE_LIMIT t (Args.year args) q
                           (BackoffDelay attempt) (attempt + 1));
                  Sleep (BackoffDelay attempt)]));
          [now apply grows_files | now apply Hgrow].
      * intros Hr Hgood Hne.
        apply Forall_app in Hgood. destruct Hgood as [_ Hgood].
        apply Forall_app in Hgood. destruct Hgood as [_ Hgood].
        apply Forall_app in Hne. destruct Hne as [_ Hne].
        apply Forall_app in Hne. destruct Hne as [_ Hne].
        now apply Hsaved.
    + exists (emit (Print (OK t (Args.year args) q)) w2), (Return tt),
        ((Get rq :: evs) ++ saves ++ [Print (OK t (Args.year args) q)]).
      split; [reflexivity|]. split.
      { simpl. rewrite Htr. simpl. now rewrite <- !app_assoc. }
      assert (Hsplit : Forall (fun e => nonempty_write e = true)
                         ((Get rq :: evs) ++ saves
                          ++ [Print (OK t (Args.year args) q)]) ->
                       Forall (fun e => nonempty_write e = true) saves).
      { intros Hne. apply Forall_app in Hne. destruct Hne as [_ Hne].
        apply Forall_app in Hne. now destruct Hne. }
      split.
      * intros Hne. destruct (Hpresent (Hsplit Hne)) as [Hg _].
        apply (grows_trans _ (extend w (Get rq :: evs)));
          [now apply grows_files|].
        apply (grows_trans _ w2); [exact Hg | now apply grows_files].
      * intros _ _ Hne. destruct (Hpresent (Hsplit Hne)) as [_ Hp].
        now apply (saved_present_files tdir stem w2).
    + exists (emit (Print (SKIP t (Args.year args) q msg))
                   (extend w (Get rq :: evs))), (Return tt),
        ((Get rq :: evs) ++ [Print (SKIP t (Args.year args) q msg)]).
      split; [reflexivity|]. split.
      { simpl. now rewrite <- !app_assoc. }
      split; [intros _; now apply grows_files|].
      intros _ Hgood. apply Forall_app in Hgood. destruct Hgood as [_ Hgood].
      inversion Hgood as [|? ? Hbad _]. discriminate Hbad.
    + exists (emit (Print (ERR t (Args.year args) q (exn_name e) (exn_str e)))
                   (extend w (Get rq :: evs))), (Return tt),
        ((Get rq :: evs)
         ++ [Print (ERR t (Args.year args) q (exn_name e) (exn_str e))]).
      split; [reflexivity|]. split.
      { simpl. now rewrite <- !app_assoc. }
      split; [intros _; now apply grows_files|].
      intros _ Hgood. apply Forall_app in Hgood. destruct Hgood as [_ Hgood].
      inversion Hgood as [|? ? Hbad _]. discriminate Hbad.
    + exists (emit (Print (ERR t (Args.year args) q (lit "OverflowError")
                             overflow_msg))
                   (extend w (Get rq :: evs))), (Return tt),
        ((Get rq :: evs)
         ++ [Print (ERR t (Args.year args) q (lit "OverflowError")
                      overflow_msg)]).
      split; [reflexivity|]. split.
      { simpl. now rewrite <- !app_assoc. }
      split; [intros _; now apply grows_files|].
      intros _ Hgood. apply Forall_app in Hgood. destruct Hgood as [_ Hgood].
      inversion Hgood as [|? ? Hbad _]. discriminate Hbad.
    + exists (extend w (Get rq :: evs)), (Raise (OverflowError overflow_msg)),
        (Get rq :: evs).
      split; [reflexivity|]. split; [reflexivity|].
      split; [intros _; now apply grows_files | discriminate].
Qed.

(** What the skip check has seen when it answers yes. *)
Lemma already_processed_inv (w : World) (t : str) (q : Z) :
  _already_processed (ticker_dir_of args t)
    (unit_stem args (_safe_filename t) q)
    (Args.save_txt args) (Args.save_csv args) w
  = (w, Return true) ->
  outputs_present args w t q.
Proof.
  unfold _already_processed, outputs_present, output_file.
  fold (exists_nonempty w
          (path_div (ticker_dir_of args t)
             (unit_stem args (_safe_filename t) q ++ lit ".txt"))).
  fold (exists_nonempty w
          (path_div (ticker_dir_of args t)
             (unit_stem args (_safe_filename t) q ++ lit ".csv"))).
  destruct (Args.save_txt args), (Args.save_csv args);
    cbn [app nonempty negb forallb]; intros H; injection H as H.
  - rewrite andb_true_r in H. apply andb_prop in H. destruct H as [H1 H2].
    repeat split; auto.
  - rewrite andb_true_r in H. repeat split; auto; discriminate.
  - rewrite andb_true_r in H. repeat split; auto; discriminate.
  - discriminate.
Qed.

Lemma outputs_present_grows (w w' : World) (t : str) (q : Z) :
  outputs_present args w t q -> grows w w' -> outputs_present args w' t q.
Proof.
  intros (Hany & Ht & Hc) Hg. split; [exact Hany|].
  split; intros H; apply Hg; auto.
Qed.

Lemma process_unit_present (t : str) (q : Z) (w : World) :
  exists w' r evs,
    process_unit server _html_to_text args t (_safe_filename t)
      (ticker_dir_of args t) q w = (w', r)
    /\ trace w' = trace w ++ evs
    /\ (Forall (fun e => nonempty_write e = true) evs -> grows w w')
    /\ (r = Return tt ->
        Forall (fun e => good_closing e = true) evs ->
        Forall (fun e => nonempty_write e = true) evs ->
        Args.save_txt args || Args.save_csv args = true ->
        outputs_present args w' t q).
Proof.
  unfold process_unit, bind.
  destruct (already_processed_result (ticker_dir_of args t)
              (unit_stem args (_safe_filename t) q)
              (Args.save_txt args) (Args.save_csv args) w) as [[|] Hdone];
    rewrite Hdone.
  - exists (emit (Print (SKIP_DONE t (Args.year args) q)) w), (Return tt),
      [Print (SKIP_DONE t (Args.year args) q)].
    split; [reflexivity|]. split; [reflexivity|].
    split; [intros _; now apply grows_files|].
    intros _ _ _ _.
    apply (outputs_present_grows w); [now apply already_processed_inv|].
    now apply grows_files.
  - destruct (retry_loop_present t (ticker_dir_of args t)
                (unit_stem args (_safe_filename t) q) q (retry_fuel args) 0 w)
      as (w1 & r & evs & -> & Htr & Hgrow & Hsaved).
    destruct r as [[]|e|].
    + rewrite sleep_with_jitter_run.
      destruct (pacing_accepted (Args.sleep_s args) (Args.jitter_s args)
                  (draw_of_bits (genrand w1 (trace w1)))).
      2:{ exists w1, (Raise (OverflowError sleep_overflow_msg)), evs.
          split; [reflexivity|]. split; [exact Htr|].
          split; [exact Hgrow | discriminate]. }
      exists (extend w1 (pacing_events (Args.sleep_s args)
                           (Args.jitter_s args)
                           (draw_of_bits (genrand w1 (trace w1))))),
        (Return tt),
        (evs ++ pacing_events (Args.sleep_s args) (Args.jitter_s args)
                  (draw_of_bits (genrand w1 (trace w1)))).
      split; [reflexivity|]. split.
      { simpl. rewrite Htr. now rewrite <- app_assoc. }
      split.
      * intros Hne. apply Forall_app in Hne. destruct Hne as [Hne _].
        apply (grows_trans _ w1); [now apply Hgrow | now apply grows_files].
      * intros _ Hgood Hne Hany.
        apply Forall_app in Hgood. destruct Hgood as [Hgood _].
        apply Forall_app in Hne. destruct Hne as [Hne _].
        destruct (Hsaved eq_refl Hgood Hne) as [Ht Hc].
        split; [exact Hany|]. unfold output_file.
        destruct (unit_file_simple args t q ".txt") as (T1 & T2 & T3);
          [intros [H|[H|[H|[H|[]]]]]; discriminate H | simpl; lia |].
        destruct (unit_file_simple args t q ".csv") as (C1 & C2 & C3);
          [intros [H|[H|[H|[H|[]]]]]; discriminate H | simpl; lia |].
        rewrite (save_target_same _ _ T1 T2 T3) in Ht.
        rewrite (save_target_same _ _ C1 C2 C3) in Hc.
        split; intros H; rewrite exists_nonempty_extend; auto.
    + exists w1, (Raise e), evs.
      split; [reflexivity|]. split; [exact Htr|].
      split; [exact Hgrow | discriminate].
    + exists w1, OutOfFuel, evs.
      split; [reflexivity|]. split; [exact Htr|].
      split; [exact Hgrow | discriminate].
Qed.

Lemma quarters_present (t : str) : forall (qs : list Z) (w : World),
  exists w' r evs,
    for_each qs (process_unit server _html_to_text args t (_safe_filename t)
                   (ticker_dir_of args t)) w = (w', r)
    /\ trace w' = trace w ++ evs
    /\ (Forall (fun e => nonempty_write e = true) evs -> grows w w')
    /\ (r = Return tt ->
        Forall (fun e => good_closing e = true) evs ->
        Forall (fun e => nonempty_write e = true) evs ->
        Args.save_txt args || Args.save_csv args = true ->
        forall q, In q qs -> outputs_present args w' t q).
Proof.
  induction qs as [|q qs IH]; intros w.
  - exists w, (Return tt), []. split; [reflexivity|].
    split; [now rewrite app_nil_r|]. split; [intros _; apply grows_refl|].
    intros _ _ _ _ q [].
  - cbn [for_each]. unfold bind.
    destruct (process_unit_present t q w)
      as (w1 & r1 & e1 & -> & Htr1 & Hg1 & Hp1).
    destruct r1 as [[]|e|].
    + destruct (IH w1) as (w' & r & e2 & Hrun & Htr2 & Hg2 & Hp2).
      exists w', r, (e1 ++ e2). split; [exact Hrun|].
      split; [now rewrite Htr2, Htr1, app_assoc|]. split.
      * intros Hne. apply Forall_app in Hne. destruct Hne as [Hn1 Hn2].
        apply (grows_trans _ w1); auto.
      * intros Hr Hgood Hne Hany q' [<-|Hq'].
        -- apply Forall_app in Hgood. destruct Hgood as [Hgd1 Hgd2].
           apply Forall_app in Hne. destruct Hne as [Hn1 Hn2].
           apply (outputs_present_grows w1); auto.
        -- apply Forall_app in Hgood. destruct Hgood as [Hgd1 Hgd2].
           apply Forall_app in Hne. destruct Hne as [Hn1 Hn2].
           now apply Hp2.
    + exists w1, (Raise e), e1. split; [reflexivity|].
      split; [exact Htr1|]. split; [exact Hg1 | discriminate].
    + exists w1, OutOfFuel, e1. split; [reflexivity|].
      split; [exact Htr1|]. split; [exact Hg1 | discriminate].
Qed.

Lemma tickers_present : forall (ts : list str) (w : World),
  exists w' r evs,
    for_each ts (process_ticker server _html_to_text args) w = (w', r)
    /\ trace w' = trace w ++ evs
    /\ (Forall (fun e => nonempty_write e = true) evs -> grows w w')
    /\ (r = Return tt ->
        Forall (fun e => good_closing e = true) evs ->
        Forall (fun e => nonempty_write e = true) evs ->
        Args.save_txt args || Args.save_csv args = true ->
        forall t q, In t ts -> In q (Args.quarters args) ->
          outputs_present args w' t q).
Proof.
  induction ts as [|t ts IH]; intros w.
  - exists w, (Return tt), []. split; [reflexivity|].
    split; [now rewrite app_nil_r|]. split; [intros _; apply grows_refl|].
    intros _ _ _ _ t q [].
  - cbn [for_each]. unfold bind at 1. unfold process_ticker at 1.
    unfold bind at 1. unfold mkdir, log.
    fold (ticker_dir_of args t).
    destruct (quarters_present t (Args.quarters args)
                (emit (Mkdir (ticker_dir_of args t)) w))
      as (w1 & r1 & e1 & -> & Htr1 & Hg1 & Hp1).
    destruct r1 as [[]|e|].
    + destruct (IH w1) as (w' & r & e2 & Hrun & Htr2 & Hg2 & Hp2).
      exists w', r, ((Mkdir (ticker_dir_of args t) :: e1) ++ e2).
      split; [exact Hrun|]. split.
      { rewrite Htr2, Htr1. simpl. now rewrite <- !app_assoc. }
      split.
      * intros Hne. apply Forall_app in Hne. destruct Hne as [Hn1 Hn2].
        inversion Hn1 as [|? ? _ Hn1']; subst.
        apply (grows_trans _ (emit (Mkdir (ticker_dir_of args t)) w));
          [now apply grows_files|].
        apply (grows_trans _ w1); auto.
      * intros Hr Hgood Hne Hany t' q [<-|Ht'] Hq.
        -- apply Forall_app in Hgood. destruct Hgood as [Hgd1 Hgd2].
           apply Forall_app in Hne. destruct Hne as [Hn1 Hn2].
           inversion Hgd1 as [|? ? _ Hgd1']; subst.
           inversion Hn1 as [|? ? _ Hn1']; subst.
           apply (outputs_present_grows w1); auto.
        -- apply Forall_app in Hgood. destruct Hgood as [Hgd1 Hgd2].
           apply Forall_app in Hne. destruct Hne as [Hn1 Hn2].
           now apply Hp2.
    + exists w1, (Raise e), (Mkdir (ticker_dir_of args t) :: e1).
      split; [reflexivity|]. split.
      { rewrite Htr1. simpl. now rewrite <- !app_assoc. }
      split; [|discriminate].
      intros Hne. inversion Hne as [|? ? _ Hne']; subst.
      apply (grows_trans _ (emit (Mkdir (ticker_dir_of args t)) w));
        [now apply grows_files | auto].
    + exists w1, OutOfFuel, (Mkdir (ticker_dir_of args t) :: e1).
      split; [reflexivity|]. split.
      { rewrite Htr1. simpl. now rewrite <- !app_assoc. }
      split; [|discriminate].
      intros Hne. inversion Hne as [|? ? _ Hne']; subst.
      apply (grows_trans _ (emit (Mkdir (ticker_dir_of args t)) w));
        [now apply grows_files | auto].
Qed.

(** After a run that returned, in which every unit was closed by [OK] or
    [SKIP-DONE] and nothing empty was written, the outputs of every unit are
    on disk. *)
Lemma batch_present (tickers : list str) (w w' : World) (evs : list event) :
  snd (_read_tickers_from_sandp_csv (Args.tickers_csv_path args) w)
  = Return tickers ->
  tickers <> [] ->
  fetch_all_transcripts_for_year server _html_to_text args w
  = (w', Return tt) ->
  trace w' = trace w ++ evs ->
  Forall (fun e => good_closing e = true) evs ->
  Forall (fun e => nonempty_write e = true) evs ->
  Args.save_txt args || Args.save_csv args = true ->
  forall t q, In t tickers -> In q (Args.quarters args) ->
    outputs_present args w' t q.
Proof.
  intros Hread Hne Hrun Htr Hgood Hnw Hany.
  unfold fetch_all_transcripts_for_year in Hrun. unfold bind at 1 in Hrun.
  unfold mkdir at 1, log in Hrun. unfold bind at 1 in Hrun.
  rewrite (surjective_pairing (_read_tickers_from_sandp_csv _ _)) in Hrun.
  rewrite read_tickers_world in Hrun.
  rewrite (read_tickers_files _ _ w) in Hrun by reflexivity.
  rewrite Hread in Hrun.
  destruct tickers as [|t0 ts]; [congruence|]. cbn [nonempty negb] in Hrun.
  destruct (tickers_present (t0 :: ts) (emit (Mkdir (Args.output_dir args)) w))
    as (w1 & r & e1 & Hrun1 & Htr1 & _ & Hp).
  rewrite Hrun in Hrun1. injection Hrun1 as <- <-.
  assert (He : evs = Mkdir (Args.output_dir args) :: e1).
  { apply (app_inv_head (trace w)). rewrite <- Htr, Htr1. simpl.
    now rewrite <- app_assoc. }
  subst evs.
  inversion Hgood as [|? ? _ Hgood']; subst.
  inversion Hnw as [|? ? _ Hnw']; subst.
  now apply Hp.
Qed.

End Presence.

(** A run on a disk where the outputs of every unit are present. *)
Lemma batch_skips (server : list event -> Request.t -> reply)
    (_html_to_text : str -> str) (args : Args.t) (w : World)
    (tickers : list str) :
  snd (_read_tickers_from_sandp_csv (Args.tickers_csv_path args) w)
  = Return tickers ->
  tickers <> [] ->
  (forall t q, In t tickers -> In q (Args.quarters args) ->
     outputs_present args w t q) ->
  fetch_all_transcripts_for_year server _html_to_text args w
  = (extend w (all_skipped_trace args tickers), Return tt).
Proof.
  intros Hread Hne Hall.
  unfold fetch_all_transcripts_for_year. unfold bind at 1.
  unfold mkdir at 1, log. unfold bind at 1.
  rewrite (surjective_pairing (_read_tickers_from_sandp_csv _ _)).
  rewrite read_tickers_world.
  rewrite (read_tickers_files _ _ w) by reflexivity. rewrite Hread.
  destruct tickers as [|t ts]; [congruence|]. cbn [nonempty negb].
  rewrite (tickers_skip server _html_to_text args w (t :: ts)
             (emit (Mkdir (Args.output_dir args)) w) eq_refl Hall).
  now rewrite emit_extend, extend_extend.
Qed.

(** C6 (as the code has it).  (1) For every unit, if at least one output is
    requested and each requested output file exists and is not empty, the
    unit prints [SKIP-DONE] and does nothing else: no request, no delay, no
    write.  (2) Consequently a run that starts on an output directory where
    this holds of every unit skips every unit and makes no request at all.
    (3) That is the case for a second run against the output directory of a
    first run that returned, in which every unit was closed by [OK] or
    [SKIP-DONE] and no empty text was written, whatever the source then
    answers.  (Units that a run skipped after an error, or whose text was
    empty, are fetched again.) *)
Theorem skip_when_outputs_present
    (server : list event -> Request.t -> reply) (_html_to_text : str -> str)
    (args : Args.t) :
  (forall w t q,
     outputs_present args w t q ->
     process_unit server _html_to_text args t (_safe_filename t)
       (ticker_dir_of args t) q w
     = (emit (Print (SKIP_DONE t (Args.year args) q)) w, Return tt))
  /\ (forall w tickers,
        snd (_read_tickers_from_sandp_csv (Args.tickers_csv_path args) w)
        = Return tickers ->
        tickers <> [] ->
        (forall t q, In t tickers -> In q (Args.quarters args) ->
           outputs_present args w t q) ->
        fetch_all_transcripts_for_year server _html_to_text args w
        = (extend w (all_skipped_trace args tickers), Return tt)
        /\ existsb is_get (all_skipped_trace args tickers) = false)
  /\ (forall w tickers w1 evs,
        snd (_read_tickers_from_sandp_csv (Args.tickers_csv_path args) w)
        = Return tickers ->
        tickers <> [] ->
        Args.save_txt args || Args.save_csv args = true ->
        fetch_all_transcripts_for_year server _html_to_text args w
        = (w1, Return tt) ->
        trace w1 = trace w ++ evs ->
        Forall (fun e => good_closing e = true) evs ->
        Forall (fun e => nonempty_write e = true) evs ->
        forall (server' : list event -> Request.t -> reply) (w2 : World),
          files w2 = files w1 ->
          snd (_read_tickers_from_sandp_csv (Args.tickers_csv_path args) w2)
          = Return tickers ->
          fetch_all_transcripts_for_year server' _html_to_text args w2
          = (extend w2 (all_skipped_trace args tickers), Return tt)).
Proof.
  split; [|split].
  - intros w t q Hp. now apply (process_unit_skips server _html_to_text args w w).
  - intros w tickers Hread Hne Hall. split; [|apply no_get_in_skipped_trace].
    now apply batch_skips.
  - intros w tickers w1 evs Hread Hne Hany Hrun Htr Hgood Hnw server' w2 Hf
      Hread2.
    apply batch_skips; [exact Hread2 | exact Hne |].
    intros t q Ht Hq.
    apply (outputs_present_grows args w1); [|now apply grows_files].
    now apply (batch_present server _html_to_text args tickers w w1 evs).
Qed.

(** The theorem at the unit AAPL 2025 Q1 on the disk that has its outputs,
    and at two runs in a row: the first against a server that has the
    fragment "x" everywhere, the second, on the files the first one left,
    against a server that would answer 404. *)
Lemma skip_when_outputs_present_witness :
  let args := example_args true true in
  (let w := mkWorld [] disk_with_q1 no_draws in
   process_unit always_x plain_text args (lit "AAPL")
     (_safe_filename (lit "AAPL")) (ticker_dir_of args (lit "AAPL")) 1 w
   = (emit (Print (SKIP_DONE (lit "AAPL") 2025 1)) w, Return tt))
  /\ (let w1 :=
        fst (fetch_all_transcripts_for_year always_x plain_text args
               (mkWorld [] fresh_disk no_draws)) in
      let w2 := mkWorld [] (files w1) no_draws in
      fetch_all_transcripts_for_year always_404 plain_text args w2
      = (extend w2 (all_skipped_trace args [lit "AAPL"]), Return tt)).
Proof.
  intros args. split.
  - intros w.
    apply (proj1 (skip_when_outputs_present always_x plain_text args)).
    split; [reflexivity|]. split; intros _; reflexivity.
  - intros w1 w2.
    apply (proj2 (proj2 (skip_when_outputs_present always_x plain_text args))
             (mkWorld [] fresh_disk no_draws) [lit "AAPL"] w1 (trace w1)).
    + reflexivity.
    + discriminate.
    + reflexivity.
    + unfold w1. rewrite surjective_pairing at 1.
      f_equal; vm_compute; reflexivity.
    + reflexivity.
    + vm_compute. repeat constructor.
    + vm_compute. repeat constructor.
    + reflexivity.
    + vm_compute. reflexivity.
Defined.

(** C6 (as stated) fails in two ways.  With neither output requested, every
    expected output of a unit exists (there is none), yet the unit is
    fetched.  And a second run against the directory that a first, completed
    run left behind, with an unchanged source that has no transcript, sends
    requests again: the first run skipped its units after the scrape error and
    wrote nothing. *)
Lemma second_run_fetches_again :
  (let args := example_args false false in
   let w := mkWorld [] fresh_disk no_draws in
   (Args.save_txt args = true ->
    exists_nonempty w (output_file args (lit "AAPL") 1 ".txt") = true)
   /\ (Args.save_csv args = true ->
       exists_nonempty w (output_file args (lit "AAPL") 1 ".csv") = true)
   /\ exists rq rest,
        trace (fst (process_unit always_404 plain_text args (lit "AAPL")
                      (_safe_filename (lit "AAPL"))
                      (ticker_dir_of args (lit "AAPL")) 1 w))
        = Get rq :: rest)
  /\ (let args := example_args true true in
      let first :=
        fetch_all_transcripts_for_year always_404 plain_text args
          (mkWorld [] fresh_disk no_draws) in
      let second :=
        fetch_all_transcripts_for_year always_404 plain_text args
          (mkWorld [] (files (fst first)) no_draws) in
      snd first = Return tt
      /\ snd second = Return tt
      /\ existsb is_get (trace (fst second)) = true).
Proof.
  split.
  - intros args w. split; [discriminate|]. split; [discriminate|].
    eexists. eexists. vm_compute. reflexivity.
  - vm_compute. repeat split.
Qed.

(* ================================================================= *)
(** * Part III. Further properties *)
(* ================================================================= *)

(** ** Normalizer: its normal form *)

Lemma eol_id (s : str) : ~ In CR s -> re_sub re_crlf_or_cr [LF] s = s.
Proof.
  induction s as [|c t IH]; intros H; [reflexivity|].
  rewrite eol_other by (intros ->; apply H; now left).
  f_equal. apply IH. intros Hin. apply H. now right.
Qed.

(** Every text is a run of line feeds followed by a text that does not start
    with one. *)
Lemma lf_run_split (s : str) :
  exists n t, s = repeat LF n ++ t /\ hd_error t <> Some LF.
Proof.
  induction s as [|c s (n & t & -> & Ht)].
  - exists 0, []. split; [reflexivity | discriminate].
  - destruct (ascii_dec c LF) as [->|Hc].
    + exists (S n), t. split; [reflexivity | exact Ht].
    + exists 0, (c :: repeat LF n ++ t). split; [reflexivity|].
      simpl. congruence.
Qed.

Lemma three_lf_other (c : ascii) (s : str) :
  c <> LF -> contains (c :: s) [LF; LF; LF] = contains s [LF; LF; LF].
Proof.
  intros Hc. cbn [contains startswith].
  apply ascii_eqb_false in Hc. rewrite Ascii.eqb_sym in Hc. now rewrite Hc.
Qed.

Lemma three_lf_run (n : nat) (t : str) :
  hd_error t <> Some LF ->
  contains (repeat LF n ++ t) [LF; LF; LF]
  = (3 <=? n) || contains t [LF; LF; LF].
Proof.
  intros Ht.
  assert (Hhd : forall u, startswith t (LF :: u) = false).
  { intros u. destruct t as [|d t']; [reflexivity|]. simpl.
    destruct (Ascii.eqb LF d) eqn:E; [|reflexivity].
    apply ascii_eqb_true in E. subst d. now elim Ht. }
  assert (H0 : forall u, contains (LF :: u) [LF; LF; LF]
                         = startswith u [LF; LF] || contains u [LF; LF; LF]).
  { intros u. cbn [contains startswith]. now rewrite Ascii.eqb_refl. }
  assert (H1 : forall u, startswith (LF :: u) [LF; LF] = startswith u [LF]).
  { intros u. cbn [startswith]. now rewrite Ascii.eqb_refl. }
  induction n as [|n IH]; [reflexivity|].
  change (repeat LF (S n) ++ t) with (LF :: (repeat LF n ++ t)).
  rewrite H0, IH.
  destruct n as [|[|n]].
  - simpl repeat. simpl app. now rewrite Hhd.
  - change (repeat LF 1 ++ t) with (LF :: t). now rewrite H1, Hhd.
  - change (repeat LF (S (S n)) ++ t) with (LF :: LF :: (repeat LF n ++ t)).
    cbn [startswith]. rewrite !Ascii.eqb_refl.
    now destruct (repeat LF n ++ t).
Qed.

Lemma col_nil : re_sub re_three_newlines [LF; LF] [] = [].
Proof. reflexivity. Qed.

(** The collapse, run by run. *)
Lemma col_run (n : nat) (t : str) :
  hd_error t <> Some LF ->
  re_sub re_three_newlines [LF; LF] (repeat LF n ++ t)
  = repeat LF (Nat.min n 2) ++ re_sub re_three_newlines [LF; LF] t.
Proof.
  intros Ht. destruct (Nat.lt_ge_cases n 3) as [Hn|Hn].
  - rewrite col_short_run by assumption.
    now replace (Nat.min n 2) with n by lia.
  - rewrite col_long_run by assumption.
    now replace (Nat.min n 2) with 2 by lia.
Qed.

Lemma col_head (t : str) :
  hd_error t <> Some LF ->
  hd_error (re_sub re_three_newlines [LF; LF] t) <> Some LF.
Proof.
  destruct t as [|c t']; intros H; [discriminate|].
  rewrite col_other by (simpl in H; congruence). exact H.
Qed.

Lemma col_no_three (s : str) :
  contains (re_sub re_three_newlines [LF; LF] s) [LF; LF; LF] = false.
Proof.
  remember (length s) as k eqn:Hk. revert s Hk.
  induction k as [k IH] using lt_wf_ind. intros s Hk.
  destruct (lf_run_split s) as (n & t & -> & Ht).
  rewrite col_run by assumption.
  rewrite three_lf_run by now apply col_head.
  replace (3 <=? Nat.min n 2) with false
    by (symmetry; apply Nat.leb_gt; lia).
  destruct t as [|c t']; [reflexivity|].
  assert (Hc : c <> LF) by (simpl in Ht; congruence).
  rewrite col_other, three_lf_other by assumption.
  apply (IH (length t')); [|reflexivity].
  rewrite Hk, length_app. simpl. lia.
Qed.

Lemma col_id (s : str) :
  contains s [LF; LF; LF] = false ->
  re_sub re_three_newlines [LF; LF] s = s.
Proof.
  remember (length s) as k eqn:Hk. revert s Hk.
  induction k as [k IH] using lt_wf_ind. intros s Hk.
  destruct (lf_run_split s) as (n & t & -> & Ht).
  rewrite three_lf_run by assumption. intros H.
  apply orb_false_elim in H. destruct H as [Hn H].
  apply Nat.leb_gt in Hn.
  rewrite col_run by assumption.
  replace (Nat.min n 2) with n by lia. f_equal.
  destruct t as [|c t']; [reflexivity|].
  assert (Hc : c <> LF) by (simpl in Ht; congruence).
  rewrite three_lf_other in H by assumption.
  rewrite col_other by assumption. f_equal.
  apply (IH (length t')); [|reflexivity | exact H].
  rewrite Hk, length_app. simpl. lia.
Qed.

(** The collapse introduces no character. *)
Lemma col_chars (x : ascii) (s : str) :
  In x (re_sub re_three_newlines [LF; LF] s) -> In x s.
Proof.
  remember (length s) as k eqn:Hk. revert s Hk.
  induction k as [k IH] using lt_wf_ind. intros s Hk.
  destruct (lf_run_split s) as (n & t & -> & Ht).
  rewrite col_run by assumption. intros H.
  apply in_app_or in H. apply in_or_app. destruct H as [H|H].
  - left. destruct n as [|n]; [destruct H|].
    apply repeat_spec in H. subst x. now left.
  - right. destruct t as [|c t']; [exact H|].
    assert (Hc : c <> LF) by (simpl in Ht; congruence).
    rewrite col_other in H by assumption.
    destruct H as [H|H]; [now left | right].
    apply (IH (length t')); [|reflexivity | exact H].
    rewrite Hk, length_app. simpl. lia.
Qed.

Lemma contains_infix (l m r p : str) :
  contains (l ++ m ++ r) p = false -> contains m p = false.
Proof.
  intros H. destruct (contains m p) eqn:E; [|reflexivity].
  apply contains_iff in E. destruct E as (a & b & ->).
  rewrite <- H. symmetry. apply contains_iff.
  exists (l ++ a), (b ++ r). now rewrite <- !app_assoc.
Qed.

Lemma strip_fixed (s : str) :
  match s with c :: _ => isspace c = false | [] => True end ->
  match rev s with c :: _ => isspace c = false | [] => True end ->
  strip s = s.
Proof.
  intros Hh Hl. unfold strip. rewrite (lstrip_fixed s Hh).
  unfold rstrip. rewrite (lstrip_fixed (rev s) Hl). apply rev_involutive.
Qed.

Lemma strip_strip (s : str) : strip (strip s) = strip s.
Proof.
  destruct (strip_spec s) as (_ & Hh & Hl). now apply strip_fixed.
Qed.

Lemma normalize_normalized (s : str) : normalized (_normalize_whitespace s).
Proof.
  unfold normalized, _normalize_whitespace.
  set (u := re_sub re_three_newlines [LF; LF] (re_sub re_crlf_or_cr [LF] s)).
  destruct (strip_spec u) as ((l & r & Hu & _) & _).
  split; [|split].
  - intros H. apply (eol_no_cr s). apply col_chars. fold u. rewrite Hu.
    apply in_or_app. right. apply in_or_app. now left.
  - apply (contains_infix l _ r). rewrite <- Hu. apply col_no_three.
  - apply strip_strip.
Qed.

Lemma normalize_fixed (s : str) : normalized s -> _normalize_whitespace s = s.
Proof.
  intros (Hcr & H3 & Hs). unfold _normalize_whitespace.
  now rewrite (eol_id s Hcr), (col_id s H3).
Qed.

(** X1.  What [_normalize_whitespace] returns is in normal form, whatever the
    input: it holds no carriage return, no three line feeds in a row (so no
    two blank lines in a row), and no whitespace at either end. *)
Theorem normalize_whitespace_normal_form (s : str) :
  ~ In CR (_normalize_whitespace s)
  /\ contains (_normalize_whitespace s) [LF; LF; LF] = false
  /\ strip (_normalize_whitespace s) = _normalize_whitespace s.
Proof. exact (normalize_normalized s). Qed.

(** X2.  The texts that [_normalize_whitespace] leaves as they are are
    exactly the texts in normal form; hence normalizing twice is the same as
    normalizing once. *)
Theorem normalize_whitespace_idempotent :
  (forall s, _normalize_whitespace s = s <-> normalized s)
  /\ (forall s, _normalize_whitespace (_normalize_whitespace s)
                = _normalize_whitespace s).
Proof.
  split.
  - intros s. split.
    + intros H. rewrite <- H. apply normalize_normalized.
    + apply normalize_fixed.
  - intros s. apply normalize_fixed, normalize_normalized.
Qed.

(** ** File names *)

(** The scan of [_safe_filename], one step at a time: a safe character is
    copied, a run of unsafe ones becomes one underscore. *)
Lemma safe_filename_step (c : ascii) (t : str) :
  _safe_filename (c :: t)
  = if is_safe_char c then c :: _safe_filename t
    else lit "_"
         ++ _safe_filename
              (skipn (run_length (fun x => negb (is_safe_char x)) t) t).
Proof.
  unfold _safe_filename. rewrite re_sub_cons. unfold re_unsafe_run.
  cbn [run_length]. now destruct (is_safe_char c).
Qed.

Lemma safe_filename_safe (s : str) :
  forallb is_safe_char s = true -> _safe_filename s = s.
Proof.
  induction s as [|c t IH]; [reflexivity|].
  cbn [forallb]. intros H. apply andb_prop in H. destruct H as [Hc Ht].
  rewrite safe_filename_step, Hc. f_equal. now apply IH.
Qed.

Lemma safe_filename_length (s : str) :
  length (_safe_filename s) <= length s.
Proof.
  remember (length s) as n eqn:Hn. revert s Hn.
  induction n as [n IH] using lt_wf_ind. intros s Hn.
  destruct s as [|c t]; [subst; apply Nat.le_refl|].
  rewrite safe_filename_step. simpl in Hn.
  destruct (is_safe_char c).
  - simpl. pose proof (IH (length t) ltac:(lia) t eq_refl). lia.
  - pose proof (skipn_length_le
                  (run_length (fun x => negb (is_safe_char x)) t) t) as Hs.
    assert (Hl : length (_safe_filename
                           (skipn (run_length
                                     (fun x => negb (is_safe_char x)) t) t))
                 <= length (skipn (run_length
                                     (fun x => negb (is_safe_char x)) t) t)).
    { apply (IH (length (skipn (run_length
                                  (fun x => negb (is_safe_char x)) t) t)));
        [lia | reflexivity]. }
    rewrite length_app. simpl. lia.
Qed.

(** X3.  [_safe_filename] returns a name made of letters, digits, dots,
    underscores and hyphens only; it leaves exactly such names as they are,
    so applying it twice changes nothing more; it never makes a name longer,
    and never turns a name that is not empty into the empty name. *)
Theorem safe_filename_normal_form (s : str) :
  forallb is_safe_char (_safe_filename s) = true
  /\ (_safe_filename s = s <-> forallb is_safe_char s = true)
  /\ _safe_filename (_safe_filename s) = _safe_filename s
  /\ length (_safe_filename s) <= length s
  /\ (s <> [] -> _safe_filename s <> []).
Proof.
  assert (Hsafe : forallb is_safe_char (_safe_filename s) = true).
  { apply forallb_forall. apply safe_filename_chars. }
  split; [exact Hsafe|]. split; [|split; [|split]].
  - split; [intros H; now rewrite <- H | apply safe_filename_safe].
  - now apply safe_filename_safe.
  - apply safe_filename_length.
  - destruct s as [|c t]; [congruence|]. intros _.
    rewrite safe_filename_step. now destruct (is_safe_char c).
Qed.

(** ** Lines and fields *)

Lemma strip_chars (s : str) (c : ascii) : In c (strip s) -> In c s.
Proof.
  destruct (strip_spec s) as ((l & r & Hs & _) & _). intros H.
  rewrite Hs. apply in_or_app. right. apply in_or_app. now left.
Qed.

Lemma strip_spaces (s : str) : forallb isspace s = true -> strip s = [].
Proof.
  intros H. destruct (strip_spec s) as (_ & Hh & _).
  destruct (strip s) as [|c t] eqn:E; [reflexivity|].
  assert (Hc : In c s) by (apply strip_chars; rewrite E; now left).
  rewrite forallb_forall in H. rewrite (H c Hc) in Hh. discriminate.
Qed.

(** The lines of [splitlines] are made of characters of the text, none of
    them a line boundary. *)
Lemma splitlines_aux_chars (n : nat) : forall s cur ln c,
  length s = n ->
  In ln (splitlines_aux cur s) -> In c ln ->
  (In c cur \/ In c s) /\ (is_linebreak c = true -> In c cur).
Proof.
  induction n as [n IH] using lt_wf_ind. intros s cur ln c Hn Hln Hc.
  assert (Hcur : In c (rev cur) ->
                 (In c cur \/ In c s) /\ (is_linebreak c = true -> In c cur)).
  { intros H. apply in_rev in H. split; auto. }
  assert (Hrest : forall u, length u < n -> (forall x, In x u -> In x s) ->
                    In ln (rev cur :: splitlines_aux [] u) ->
                    (In c cur \/ In c s)
                    /\ (is_linebreak c = true -> In c cur)).
  { intros u Hu Hsub [<-|H]; [now apply Hcur|].
    destruct (IH (length u) Hu u [] ln c eq_refl H Hc) as [[[]|H1] H2].
    split; [right; now apply Hsub|].
    intros Hlb. destruct (H2 Hlb). }
  destruct s as [|d t].
  - simpl in Hln. destruct cur as [|x cur']; [destruct Hln|].
    destruct Hln as [<-|[]]. now apply Hcur.
  - cbn [splitlines_aux] in Hln. simpl in Hn.
    destruct (Ascii.eqb d CR).
    + destruct t as [|d' t'].
      * apply (Hrest []); [simpl; lia | intros x [] | exact Hln].
      * destruct (Ascii.eqb d' LF).
        -- apply (Hrest t'); [simpl in *; lia | | exact Hln].
           intros x Hx. right. now right.
        -- apply (Hrest (d' :: t')); [simpl in *; lia | | exact Hln].
           intros x Hx. now right.
    + destruct (is_linebreak d) eqn:Hd.
      * apply (Hrest t); [lia | | exact Hln]. intros x Hx. now right.
      * destruct (IH (length t) ltac:(lia) t (d :: cur) ln c eq_refl Hln Hc)
          as [H1 H2].
        split.
        -- destruct H1 as [[<-|H1]|H1]; [right; now left | now left|].
           right. now right.
        -- intros Hlb. destruct (H2 Hlb) as [<-|H]; [congruence | exact H].
Qed.

Lemma splitlines_chars (s ln : str) (c : ascii) :
  In ln (splitlines s) -> In c ln -> In c s /\ is_linebreak c = false.
Proof.
  intros Hln Hc.
  destruct (splitlines_aux_chars (length s) s [] ln c eq_refl Hln Hc)
    as [[[]|H1] H2].
  split; [exact H1|].
  destruct (is_linebreak c); [destruct (H2 eq_refl) | reflexivity].
Qed.

(** The first field of a line holds no separator. *)
Lemma split_on_first (sep : ascii) (s : str) : forall cur c,
  In c (hd [] (split_on sep cur s)) ->
  (In c cur \/ (In c s /\ c <> sep)).
Proof.
  induction s as [|d t IH]; intros cur c H.
  - simpl in H. apply in_rev in H. now left.
  - cbn [split_on] in H. destruct (Ascii.eqb d sep) eqn:E.
    + simpl in H. apply in_rev in H. now left.
    + apply ascii_eqb_false in E.
      destruct (IH (d :: cur) c H) as [[<-|Hc]|[Hc Hs]].
      * right. split; [now left | exact E].
      * now left.
      * right. split; [now right | exact Hs].
Qed.

(** ** Ticker list *)

(** The lines that the reader keeps: stripped, not empty, no line boundary
    inside. *)
Lemma kept_lines_clean (text ln : str) :
  In ln (filter truthy (map strip (splitlines text))) -> clean_line ln.
Proof.
  intros H. apply filter_In in H. destruct H as [H Hne].
  apply in_map_iff in H. destruct H as (raw & <- & Hraw).
  split; [|split].
  - intros E. rewrite E in Hne. discriminate.
  - apply strip_strip.
  - apply forallb_forall. intros c Hc. apply strip_chars in Hc.
    destruct (splitlines_chars text raw c Hraw Hc) as [_ ->]. reflexivity.
Qed.

Lemma ticker_field_clean (ln : str) :
  clean_line ln ->
  let t := strip (hd [] (split_on ","%char [] ln)) in
  truthy t = true ->
  clean_line t /\ ~ In ","%char t.
Proof.
  intros (_ & _ & Hlb) t Ht. split; [split; [|split]|].
  - intros E. rewrite E in Ht. discriminate.
  - apply strip_strip.
  - apply forallb_forall. intros c Hc. apply strip_chars in Hc.
    destruct (split_on_first _ _ _ _ Hc) as [[]|[Hin _]].
    rewrite forallb_forall in Hlb. now apply Hlb.
  - intros Hc. apply strip_chars in Hc.
    destruct (split_on_first _ _ _ _ Hc) as [[]|[_ Hne]]. congruence.
Qed.

(** X4.  Whenever [_read_tickers_from_sandp_csv] returns, it has changed
    nothing, and every ticker it returns is not empty, has no whitespace at
    either end, and holds neither a comma nor a line boundary. *)
Theorem read_tickers_clean (p : path) (w w' : World) (tickers : list str) :
  _read_tickers_from_sandp_csv p w = (w', Return tickers) ->
  w' = w
  /\ Forall (fun t => clean_line t /\ ~ In ","%char t) tickers.
Proof.
  intros Hrun. split.
  { rewrite <- (read_tickers_world p w). now rewrite Hrun. }
  unfold _read_tickers_from_sandp_csv, bind, read_file in Hrun.
  destruct (files w p) as [[text|rows]|]; try discriminate Hrun.
  pose proof (kept_lines_clean text) as Hkept.
  destruct (filter truthy (map strip (splitlines text))) as [|header rows].
  - injection Hrun as _ <-. constructor.
  - destruct (negb _); [discriminate Hrun|].
    injection Hrun as _ <-.
    apply Forall_forall. intros t Ht.
    apply filter_In in Ht. destruct Ht as [Ht Hne].
    apply in_map_iff in Ht. destruct Ht as (ln & <- & Hln).
    apply ticker_field_clean; [|exact Hne].
    apply Hkept. now right.
Qed.

(** The theorem at the disk of the examples, whose list holds AAPL. *)
Lemma read_tickers_clean_witness :
  let w := mkWorld [] fresh_disk no_draws in
  w = w
  /\ Forall (fun t => clean_line t /\ ~ In ","%char t) [lit "AAPL"].
Proof.
  intros w.
  apply (read_tickers_clean [lit "tickers"; lit "sandp.csv"] w w [lit "AAPL"]).
  reflexivity.
Defined.

Lemma splitlines_aux_first (h rest : str) : forall cur,
  forallb (fun c => negb (is_linebreak c)) h = true ->
  splitlines_aux cur (h ++ LF :: rest)
  = (rev cur ++ h) :: splitlines_aux [] rest.
Proof.
  induction h as [|d h IH]; intros cur Hh.
  - simpl app. cbn [splitlines_aux].
    change (Ascii.eqb LF CR) with false. change (is_linebreak LF) with true.
    cbv iota. now rewrite app_nil_r.
  - cbn [forallb] in Hh. apply andb_prop in Hh. destruct Hh as [Hd Hh].
    apply negb_true_iff in Hd.
    assert (Hcr : Ascii.eqb d CR = false).
    { apply ascii_eqb_false. intros ->. discriminate Hd. }
    simpl app. cbn [splitlines_aux]. rewrite Hcr, Hd.
    rewrite IH by assumption. simpl rev. now rewrite <- app_assoc.
Qed.

Lemma blank_text_lines (text : str) :
  forallb isspace text = true ->
  filter truthy (map strip (splitlines text)) = [].
Proof.
  intros Hsp.
  assert (H : forall lines, (forall ln, In ln lines -> In ln (splitlines text)) ->
                            filter truthy (map strip lines) = []).
  { induction lines as [|ln lines IH]; intros Hsub; [reflexivity|].
    simpl. rewrite strip_spaces.
    - apply IH. intros l Hl. apply Hsub. now right.
    - apply forallb_forall. intros c Hc.
      rewrite forallb_forall in Hsp. apply Hsp.
      now apply (splitlines_chars text ln c (Hsub ln (or_introl eq_refl))). }
  now apply H.
Qed.

(** X5.  The edges of [_read_tickers_from_sandp_csv]: a file that does not
    exist raises [FileNotFoundError]; a file of whitespace only gives the
    empty list; and when the file starts with a header line, the list is read
    if the header holds "act_symbol" in any mix of upper and lower case,
    and [ValueError] is raised if it does not.  Nothing is changed in any of
    these cases. *)
Theorem read_tickers_edges (p : path) (w : World) :
  (files w p = None ->
   exists msg,
     _read_tickers_from_sandp_csv p w = (w, Raise (FileNotFoundError msg)))
  /\ (forall text,
        files w p = Some (TextFile text) -> forallb isspace text = true ->
        _read_tickers_from_sandp_csv p w = (w, Return []))
  /\ (forall header rest,
        files w p = Some (TextFile (header ++ LF :: rest)) ->
        clean_line header ->
        if contains (str_lower header) (lit "act_symbol")
        then exists tickers,
               _read_tickers_from_sandp_csv p w = (w, Return tickers)
        else exists msg,
               _read_tickers_from_sandp_csv p w = (w, Raise (ValueError msg))).
Proof.
  split; [|split].
  - intros Hf. unfold _read_tickers_from_sandp_csv, bind, read_file.
    rewrite Hf. eexists. reflexivity.
  - intros text Hf Hsp. unfold _read_tickers_from_sandp_csv, bind, read_file.
    rewrite Hf. cbv zeta. now rewrite (blank_text_lines text Hsp).
  - intros header rest Hf (Hne & Hstrip & Hlb).
    unfold _read_tickers_from_sandp_csv, bind, read_file. rewrite Hf.
    unfold splitlines. rewrite splitlines_aux_first by assumption.
    cbn [rev app map filter]. rewrite Hstrip.
    destruct header as [|c header']; [congruence|]. cbn [truthy].
    destruct (contains (str_lower (c :: header')) (lit "act_symbol"));
      cbn [negb]; eexists; reflexivity.
Qed.

(** The theorem at a list whose header is in upper case. *)
Lemma read_tickers_edges_witness :
  let p := [lit "sandp.csv"] in
  let text := lit "ACT_SYMBOL,Name" ++ LF :: lit "MSFT,Microsoft" in
  let w := mkWorld [] (fun q => if path_eqb q p then Some (TextFile text)
                                else None) no_draws in
  exists tickers, _read_tickers_from_sandp_csv p w = (w, Return tickers).
Proof.
  intros p text w.
  apply (proj2 (proj2 (read_tickers_edges p w))
           (lit "ACT_SYMBOL,Name") (lit "MSFT,Microsoft")).
  - reflexivity.
  - repeat split. discriminate.
Defined.

(** ** Rate-limit phrases *)

Lemma lower_lower (c : ascii) : lower (lower c) = lower c.
Proof. destruct c as [[] [] [] [] [] [] [] []]; vm_compute; reflexivity. Qed.

Lemma str_lower_lower (s : str) : str_lower (str_lower s) = str_lower s.
Proof.
  unfold str_lower. rewrite map_map. apply map_ext. apply lower_lower.
Qed.

Lemma contains_trans (s p q : str) :
  contains s p = true -> contains p q = true -> contains s q = true.
Proof.
  rewrite !contains_iff. intros (a & b & ->) (a' & b' & ->).
  exists (a ++ a'), (b' ++ b). now rewrite <- !app_assoc.
Qed.

Lemma rate_limited_two_phrases (text : str) :
  is_rate_limited_message text
  = contains (str_lower text) (lit "request limit reached")
    || contains (str_lower text)
         (lit "you seem to have reached your request limit").
Proof.
  unfold is_rate_limited_message, _LIMIT_REACHED_PATTERNS.
  cbn [existsb].
  change (str_lower (lit "Request Limit Reached"))
    with (lit "request limit reached").
  change (str_lower (lit "Forbidden - Request Limit Reached"))
    with (lit "forbidden - request limit reached").
  change (str_lower (lit "You seem to have reached your request limit"))
    with (lit "you seem to have reached your request limit").
  destruct (contains (str_lower text) (lit "request limit reached")) eqn:E1;
    [reflexivity|].
  destruct (contains (str_lower text)
              (lit "forbidden - request limit reached")) eqn:E2.
  - assert (H : contains (str_lower text) (lit "request limit reached")
                = true)
      by (apply (contains_trans _ _ _ E2); reflexivity).
    congruence.
  - cbn [orb]. now rewrite orb_false_r.
Qed.

(** X6.  [is_rate_limited_message] looks for two phrases only ("request
    limit reached" and "you seem to have reached your request limit"; the
    third of its patterns contains the first), without regard to case, and
    anywhere: a text that holds a rate-limited text is rate-limited. *)
Theorem rate_limited_message_anywhere :
  (forall text,
     is_rate_limited_message text
     = contains (str_lower text) (lit "request limit reached")
       || contains (str_lower text)
            (lit "you seem to have reached your request limit"))
  /\ (forall text,
        is_rate_limited_message (str_lower text)
        = is_rate_limited_message text)
  /\ (forall a b c,
        is_rate_limited_message b = true ->
        is_rate_limited_message (a ++ b ++ c) = true).
Proof.
  split; [exact rate_limited_two_phrases|]. split.
  - intros text. unfold is_rate_limited_message.
    now rewrite str_lower_lower.
  - intros a b c. rewrite !rate_limited_two_phrases.
    unfold str_lower. rewrite !map_app. fold (str_lower a) (str_lower b)
      (str_lower c).
    intros H. apply orb_true_iff in H. apply orb_true_iff.
    assert (Hsub : forall p, contains (str_lower b) p = true ->
                     contains (str_lower a ++ str_lower b ++ str_lower c) p
                     = true).
    { intros p Hp. apply (contains_trans _ (str_lower b)); [|exact Hp].
      apply contains_iff. now exists (str_lower a), (str_lower c). }
    destruct H as [H|H]; [left | right]; now apply Hsub.
Qed.

(** The theorem at a page that shows the phrase in capitals inside markup. *)
Lemma rate_limited_message_anywhere_witness :
  is_rate_limited_message
    (lit "<h1>" ++ lit "REQUEST LIMIT REACHED" ++ lit "</h1>") = true.
Proof.
  apply (proj2 (proj2 rate_limited_message_anywhere)). reflexivity.
Defined.

(** ** Request headers *)

Lemma dict_get_set (k k' v : str) (d : dict) :
  dict_get k (dict_set k' v d)
  = if str_eqb k k' then Some v else dict_get k d.
Proof.
  induction d as [|[k0 v0] d IH]; simpl.
  - reflexivity.
  - destruct (str_eqb k' k0) eqn:E0; simpl.
    + apply str_eqb_true in E0. subst k0.
      now destruct (str_eqb k k').
    + destruct (str_eqb k k0) eqn:E1; [|exact IH].
      apply str_eqb_true in E1. subst k0.
      destruct (str_eqb k k') eqn:E2; [|reflexivity].
      apply str_eqb_true in E2. subst k'.
      rewrite str_eqb_refl in E0. discriminate.
Qed.

Lemma dict_get_snoc (k k0 v0 : str) (d : dict) :
  dict_get k (d ++ [(k0, v0)])
  = match dict_get k d with
    | Some v => Some v
    | None => if str_eqb k k0 then Some v0 else None
    end.
Proof.
  induction d as [|[k1 v1] d IH]; simpl; [reflexivity|].
  now destruct (str_eqb k k1).
Qed.

(** After [d.update(upd)] a key has the value that [upd] gives it last, or
    else the one it had. *)
Lemma dict_get_update (k : str) (upd : dict) : forall d,
  dict_get k (dict_update d upd)
  = match dict_get k (rev upd) with
    | Some v => Some v
    | None => dict_get k d
    end.
Proof.
  unfold dict_update.
  induction upd as [|[k0 v0] upd IH]; intros d; [reflexivity|].
  cbn [fold_left fst snd rev]. rewrite IH, dict_get_snoc, dict_get_set.
  destruct (dict_get k (rev upd)); [reflexivity|].
  now destruct (str_eqb k k0).
Qed.

Lemma dict_get_absent (k : str) (d : dict) :
  ~ In k (map fst d) -> dict_get k d = None.
Proof.
  induction d as [|[k0 v0] d IH]; intros H; [reflexivity|].
  simpl. destruct (str_eqb k k0) eqn:E.
  - apply str_eqb_true in E. subst k0. elim H. now left.
  - apply IH. intros Hin. apply H. now right.
Qed.

Lemma dict_get_rev (k : str) (d : dict) :
  NoDup (map fst d) -> dict_get k (rev d) = dict_get k d.
Proof.
  induction d as [|[k0 v0] d IH]; intros H; [reflexivity|].
  inversion H as [|? ? Hnot Hnd]; subst.
  cbn [rev]. rewrite dict_get_snoc, (IH Hnd). simpl.
  destruct (str_eqb k k0) eqn:E.
  - apply str_eqb_true in E. subst k0.
    now rewrite (dict_get_absent k d Hnot).
  - now destruct (dict_get k d).
Qed.

Lemma dict_set_keys (k v : str) (d : dict) :
  NoDup (map fst d) ->
  NoDup (map fst (dict_set k v d))
  /\ forall x, In x (map fst (dict_set k v d)) -> x = k \/ In x (map fst d).
Proof.
  induction d as [|[k0 v0] d IH]; intros H.
  - simpl. split; [repeat constructor; intros [] | intros x [<-|[]]; now left].
  - inversion H as [|? ? Hnot Hnd]; subst. simpl.
    destruct (str_eqb k k0) eqn:E.
    + apply str_eqb_true in E. subst k0. simpl. split; [exact H|].
      intros x [<-|Hx]; [now left | right; now right].
    + destruct (IH Hnd) as [IH1 IH2]. simpl. split.
      * constructor; [|exact IH1]. intros Hin.
        destruct (IH2 k0 Hin) as [->|Hin']; [|contradiction].
        rewrite str_eqb_refl in E. discriminate.
      * intros x [<-|Hx]; [right; now left|].
        destruct (IH2 x Hx) as [->|Hx']; [now left | right; now right].
Qed.

Lemma dict_update_keys (upd : dict) : forall d,
  NoDup (map fst d) -> NoDup (map fst (dict_update d upd)).
Proof.
  unfold dict_update.
  induction upd as [|[k0 v0] upd IH]; intros d H; [exact H|].
  cbn [fold_left]. apply IH. now apply dict_set_keys.
Qed.

(** X7.  In the headers that [_build_headers] returns, a key that the
    configuration's [base_headers] holds has the value given there, and every
    other key has its default (Accept, User-Agent, Referer, HX-Request,
    HX-Current-URL, HX-Target, with the address as Referer and
    HX-Current-URL); no key occurs twice. *)
Theorem build_headers_lookup (base_url : str) (cfg : ScrapeConfig.t) :
  match ScrapeConfig.base_headers cfg with
  | Some h => NoDup (map fst h)
  | None => True
  end ->
  (forall k,
     dict_get k (_build_headers base_url cfg)
     = match ScrapeConfig.base_headers cfg with
       | Some h =>
           match dict_get k h with
           | Some v => Some v
           | None => dict_get k (default_headers base_url cfg)
           end
       | None => dict_get k (default_headers base_url cfg)
       end)
  /\ NoDup (map fst (_build_headers base_url cfg)).
Proof.
  intros Hwf.
  assert (Hdef : NoDup (map fst (default_headers base_url cfg))).
  { simpl. repeat constructor; simpl; intros H;
      repeat (destruct H as [H|H]; [discriminate H|]); exact H. }
  unfold _build_headers. fold (default_headers base_url cfg).
  destruct (ScrapeConfig.base_headers cfg) as [h|]; [|split; auto].
  destruct h as [|kv h']; cbn [nonempty]; [split; auto|].
  split.
  - intros k. rewrite dict_get_update. now rewrite (dict_get_rev k _ Hwf).
  - now apply dict_update_keys.
Qed.

(** The theorem at a configuration that sets its own Referer. *)
Lemma build_headers_lookup_witness :
  let cfg := ScrapeConfig.mk (lit "agent") None
               (Some [(lit "Referer", lit "https://example.org/")]) 2 0%Q 30 in
  dict_get (lit "Referer") (_build_headers (lit "https://x/") cfg)
  = Some (lit "https://example.org/")
  /\ dict_get (lit "HX-Request") (_build_headers (lit "https://x/") cfg)
     = Some (lit "true").
Proof.
  intros cfg.
  assert (Hwf : NoDup (map fst [(lit "Referer", lit "https://example.org/")])).
  { repeat constructor. intros []. }
  split.
  - exact (proj1 (build_headers_lookup (lit "https://x/") cfg Hwf)
             (lit "Referer")).
  - exact (proj1 (build_headers_lookup (lit "https://x/") cfg Hwf)
             (lit "HX-Request")).
Defined.

(** ** Fragment assembler, whatever the server answers *)

Section AssemblerRequests.

Variable server : list event -> Request.t -> reply.
Variable cfg : ScrapeConfig.t.
Variable base : str.

Let session := session_of cfg.
Let headers := _build_headers base cfg.
Let request (i : Z) : event :=
  Get (fragment_request session (frag_url base i) headers cfg).

Lemma numbered_url (i : Z) :
  (1 <= i)%Z -> base ++ dec i ++ lit "/" = frag_url base i.
Proof.
  intros H. unfold frag_url. destruct (Z.eqb_spec i 0); [lia | reflexivity].
Qed.

(** The loop over the numbered parts asks for the indices it is given, in
    order, up to the one it stops at. *)
Lemma fetch_parts_requests (n : nat) : forall (i : Z) (frags : list str) w,
  (1 <= i)%Z ->
  exists m evs r,
    m <= n
    /\ fetch_parts server session base headers cfg (zseq i n) frags w
       = (extend w evs, r)
    /\ filter is_get evs = map request (zseq i m)
    /\ Forall (fun e => fetch_event e = true) evs.
Proof.
  induction n as [|n IH]; intros i frags w Hi.
  - exists 0, [], (Return frags). simpl. unfold ret. rewrite extend_nil.
    repeat split; auto.
  - rewrite zseq_S. cbn [fetch_parts]. unfold bind.
    rewrite (numbered_url i Hi).
    rewrite (surjective_pairing (_fetch_fragment _ _ _ _ _ w)).
    rewrite fetch_fragment_world. fold (request i).
    assert (Hstop : forall r : result (list str),
              exists m evs r',
                m <= S n
                /\ (emit (request i) w, r) = (extend w evs, r')
                /\ filter is_get evs = map request (zseq i m)
                /\ Forall (fun e => fetch_event e = true) evs).
    { intros r. exists 1, [request i], r. rewrite emit_extend, zseq_S.
      split; [lia|]. split; [reflexivity|].
      split; [reflexivity | repeat constructor]. }
    assert (Hgo : forall frags' pause,
              Forall (fun e => fetch_event e = true) pause ->
              filter is_get pause = [] ->
              exists m evs r',
                m <= S n
                /\ fetch_parts server session base headers cfg
                     (zseq (i + 1) n) frags'
                     (extend (emit (request i) w) pause)
                   = (extend w evs, r')
                /\ filter is_get evs = map request (zseq i m)
                /\ Forall (fun e => fetch_event e = true) evs).
    { intros frags' pause Hp Hpg.
      destruct (IH (i + 1)%Z frags' (extend (emit (request i) w) pause))
        as (m & evs & r' & Hm & Hrun & Hg & Hev); [lia|].
      exists (S m), (request i :: pause ++ evs), r'.
      split; [lia|]. split.
      { rewrite Hrun, emit_extend, !extend_extend. reflexivity. }
      split.
      { rewrite zseq_S. cbn [map filter request is_get].
        fold (request i). rewrite filter_app, Hpg, Hg. reflexivity. }
      constructor; [reflexivity|]. apply Forall_app. now split. }
    destruct (snd (_fetch_fragment server session (frag_url base i) headers
                     cfg w)) as [[b|]| |].
    + (* collected *)
      destruct (negb (Qeq_bool (ScrapeConfig.sleep_s cfg) 0)).
      * unfold time_sleep. cbn [duration_error].
        destruct (sleep_error (ScrapeConfig.sleep_s cfg)).
        -- unfold raise. apply Hstop.
        -- unfold log. rewrite emit_extend.
           apply (Hgo (frags ++ [b])
                    [Sleep (FragmentDelay (ScrapeConfig.sleep_s cfg))]);
             [repeat constructor | reflexivity].
      * unfold ret. rewrite <- (extend_nil (emit (request i) w)).
        apply (Hgo (frags ++ [b]) []); [constructor | reflexivity].
    + (* absent *)
      destruct (nonempty frags).
      * unfold ret. apply Hstop.
      * rewrite <- (extend_nil (emit (request i) w)).
        apply (Hgo frags []); [constructor | reflexivity].
    + apply Hstop.
    + apply Hstop.
Qed.

End AssemblerRequests.

Lemma assembly_requests
    (server : list event -> Request.t -> reply) (cfg : ScrapeConfig.t)
    (base_url : str) (w : World) :
  let base := with_slash base_url in
  let request i :=
    Get (fragment_request (session_of cfg) (frag_url base i)
                          (_build_headers base cfg) cfg) in
  exists k evs r,
    (0 <= k <= Z.max 0 (ScrapeConfig.max_parts cfg))%Z
    /\ get_transcript_html server base_url (Some cfg) w = (extend w evs, r)
    /\ filter is_get evs = map request (range 0 (k + 1))
    /\ Forall (fun e => fetch_event e = true) evs.
Proof.
  intros base request.
  rewrite get_transcript_html_unfold. unfold bind at 1.
  rewrite (surjective_pairing (_fetch_fragment _ _ _ _ _ w)).
  rewrite fetch_fragment_world.
  fold base.
  change (Get (fragment_request (session_of cfg) base
                 (_build_headers base cfg) cfg)) with (request 0%Z).
  assert (Hr0 : range 0 (0 + 1) = [0%Z]) by reflexivity.
  destruct (snd (_fetch_fragment server (session_of cfg) base
                   (_build_headers base cfg) cfg w)) as [first| |].
  - unfold bind. rewrite range_from_one.
    destruct (fetch_parts_requests server cfg base
                (Z.to_nat (ScrapeConfig.max_parts cfg)) 1
                (match first with
                 | Some f => if truthy f then [f] else []
                 | None => []
                 end)
                (emit (request 0%Z) w) ltac:(lia))
      as (m & evs & r & Hm & Hrun & Hg & Hev).
    fold base in Hrun. rewrite Hrun.
    exists (Z.of_nat m), (request 0%Z :: evs).
    assert (Hrange : range 0 (Z.of_nat m + 1) = 0%Z :: zseq 1 m).
    { unfold range.
      replace (Z.to_nat (Z.of_nat m + 1 - 0)) with (S m) by lia.
      apply zseq_S. }
    destruct r as [frs| |].
    + destruct (negb (nonempty frs)); eexists;
        (split; [lia|]); rewrite emit_extend, extend_extend;
        (split; [reflexivity|]); rewrite Hrange; cbn [filter map];
        (split; [cbn [request is_get]; fold (request 0%Z);
                 now rewrite Hg | now constructor]).
    + eexists. split; [lia|]. rewrite emit_extend, extend_extend.
      split; [reflexivity|]. rewrite Hrange. cbn [filter map].
      split; [cbn [request is_get]; fold (request 0%Z); now rewrite Hg
             | now constructor].
    + eexists. split; [lia|]. rewrite emit_extend, extend_extend.
      split; [reflexivity|]. rewrite Hrange. cbn [filter map].
      split; [cbn [request is_get]; fold (request 0%Z); now rewrite Hg
             | now constructor].
  - exists 0%Z, [request 0%Z], (Raise e). split; [lia|].
    rewrite emit_extend. split; [reflexivity|]. rewrite Hr0.
    split; [reflexivity | repeat constructor].
  - exists 0%Z, [request 0%Z], OutOfFuel. split; [lia|].
    rewrite emit_extend. split; [reflexivity|]. rewrite Hr0.
    split; [reflexivity | repeat constructor].
Qed.

(** X8.  Whatever the server answers, one call of [get_transcript_html]
    sends its requests to the base address and then to the numbered parts
    1, 2, ... in order, each once, up to some index k that is at most
    [max_parts]: at least one request and at most [max_parts] + 1.  Apart from
    the requests it only sleeps for the politeness delay, and it touches no
    file. *)
Theorem assembly_requests_in_order
    (server : list event -> Request.t -> reply) (cfg : ScrapeConfig.t)
    (base_url : str) (w : World) :
  let base := with_slash base_url in
  let request i :=
    Get (fragment_request (session_of cfg) (frag_url base i)
                          (_build_headers base cfg) cfg) in
  exists k evs r,
    (0 <= k <= Z.max 0 (ScrapeConfig.max_parts cfg))%Z
    /\ get_transcript_html server base_url (Some cfg) w = (extend w evs, r)
    /\ filter is_get evs = map request (range 0 (k + 1))
    /\ Forall (fun e => fetch_event e = true) evs.
Proof. exact (assembly_requests server cfg base_url w). Qed.

Lemma endswith_slash (u : str) : endswith (u ++ lit "/") (lit "/") = true.
Proof.
  unfold endswith. change (lit "/") with ["/"%char].
  rewrite rev_app_distr. cbn [rev app startswith].
  rewrite Ascii.eqb_refl. now destruct (rev u).
Qed.

Lemma with_slash_slash (u : str) : with_slash (with_slash u) = with_slash u.
Proof.
  unfold with_slash. destruct (endswith u (lit "/")) eqn:E; cbn [negb].
  - now rewrite E.
  - now rewrite endswith_slash.
Qed.

Lemma get_transcript_html_with_slash
    (server : list event -> Request.t -> reply) (u : str)
    (cfg : option ScrapeConfig.t) (w : World) :
  get_transcript_html server (with_slash u) cfg w
  = get_transcript_html server u cfg w.
Proof.
  unfold get_transcript_html. cbv zeta.
  change (if negb (endswith (with_slash u) (lit "/"))
          then with_slash u ++ lit "/" else with_slash u)
    with (with_slash (with_slash u)).
  rewrite with_slash_slash. reflexivity.
Qed.

(** X9.  An address without its final slash is fetched exactly as the
    address with it: [get_transcript_html] sends the same requests and
    returns the same result for both. *)
Theorem assembly_trailing_slash
    (server : list event -> Request.t -> reply) (u : str)
    (cfg : option ScrapeConfig.t) (w : World) :
  endswith u (lit "/") = false ->
  get_transcript_html server (u ++ lit "/") cfg w
  = get_transcript_html server u cfg w.
Proof.
  intros H. rewrite <- (get_transcript_html_with_slash server u).
  unfold with_slash. now rewrite H.
Qed.

(** The theorem at the address of a transcript. *)
Lemma assembly_trailing_slash_witness :
  let u := lit "https://discountingcashflows.com/company/AAPL/transcripts/2025/4" in
  let w := mkWorld [] (fun _ => None) no_draws in
  get_transcript_html always_x (u ++ lit "/") None w
  = get_transcript_html always_x u None w.
Proof.
  intros u w. apply assembly_trailing_slash. reflexivity.
Defined.

(** With a negative politeness delay the loop cannot keep a numbered
    fragment: [time.sleep] refuses the delay right after it is collected. *)
Lemma fetch_parts_negative_delay
    (server : list event -> Request.t -> reply) (session : dict) (base : str)
    (headers : dict) (cfg : ScrapeConfig.t) (idxs : list Z) :
  Qle_bool 0 (ScrapeConfig.sleep_s cfg) = false ->
  forall frags w w' frs,
    fetch_parts server session base headers cfg idxs frags w
    = (w', Return frs) ->
    frs = frags.
Proof.
  intros Hneg.
  assert (Hnz : Qeq_bool (ScrapeConfig.sleep_s cfg) 0 = false).
  { destruct (Qeq_bool (ScrapeConfig.sleep_s cfg) 0) eqn:E; [|reflexivity].
    apply Qeq_bool_iff in E.
    assert (H : Qle_bool 0 (ScrapeConfig.sleep_s cfg) = true).
    { apply Qle_bool_iff. rewrite E. apply Qle_refl. }
    congruence. }
  induction idxs as [|i rest IH]; intros frags w w' frs Hrun.
  - simpl in Hrun. unfold ret in Hrun. now injection Hrun as _ <-.
  - cbn [fetch_parts] in Hrun. unfold bind in Hrun.
    destruct (_fetch_fragment server session (base ++ dec i ++ lit "/")
                headers cfg w) as [w1 [[b|]| |]]; try discriminate Hrun.
    + rewrite Hnz in Hrun. cbn [negb] in Hrun.
      unfold time_sleep in Hrun. cbn [duration_error] in Hrun.
      destruct (sleep_error (ScrapeConfig.sleep_s cfg)) eqn:Hse;
        [discriminate Hrun|].
      apply sleep_error_none in Hse. destruct Hse as [Hpos _].
      apply Qle_bool_iff in Hpos. congruence.
    + destruct (nonempty frags).
      * unfold ret in Hrun. now injection Hrun as _ <-.
      * now apply (IH _ _ _ _ Hrun).
Qed.

(** X10.  With a negative [sleep_s] in the configuration,
    [get_transcript_html] never returns more than the base fragment: when it
    returns at all, its result is the body that the base address gave.
    (Right after a numbered fragment is collected, [time.sleep] raises
    [ValueError], or [OverflowError] below minus 2^63 nanoseconds.) *)
Theorem assembly_negative_delay
    (server : list event -> Request.t -> reply) (cfg : ScrapeConfig.t)
    (base_url : str) (w w' : World) (html : str) :
  let base := with_slash base_url in
  Qle_bool 0 (ScrapeConfig.sleep_s cfg) = false ->
  get_transcript_html server base_url (Some cfg) w = (w', Return html) ->
  snd (_fetch_fragment server (session_of cfg) base
                       (_build_headers base cfg) cfg w)
  = Content html.
Proof.
  intros base Hneg Hrun.
  rewrite get_transcript_html_unfold in Hrun. unfold bind in Hrun.
  fold base in Hrun.
  pose proof (fetch_fragment_shape server (session_of cfg) base
                (_build_headers base cfg) cfg w) as Hshape.
  destruct (_fetch_fragment server (session_of cfg) base
              (_build_headers base cfg) cfg w) as [w1 [first| |]];
    try discriminate Hrun.
  destruct (fetch_parts server (session_of cfg) base
              (_build_headers base cfg) cfg _ _ w1)
    as [w2 [frs| |]] eqn:Hp; try discriminate Hrun.
  apply (fetch_parts_negative_delay _ _ _ _ _ _ Hneg) in Hp. subst frs.
  cbn [snd] in *.
  destruct first as [f|]; [|discriminate Hrun].
  rewrite Hshape in Hrun. cbn [nonempty negb join] in Hrun.
  unfold ret in Hrun. now injection Hrun as _ <-.
Qed.

(** The theorem at a server that has the base fragment only, with a delay of
    minus one second. *)
Lemma assembly_negative_delay_witness :
  let server := fun (_ : list event) (rq : Request.t) =>
    if str_eqb (Request.url rq) (lit "http://x/t/")
    then Responds (Response.mk 200 (Request.url rq) (lit "x"))
    else Responds (Response.mk 404 (Request.url rq) []) in
  let cfg := ScrapeConfig.mk [] None None 2 (-1)%Q 30 in
  let w := mkWorld [] (fun _ => None) no_draws in
  snd (_fetch_fragment server (session_of cfg) (lit "http://x/t/")
                       (_build_headers (lit "http://x/t/") cfg) cfg w)
  = Content (lit "x").
Proof.
  intros server cfg w.
  apply (assembly_negative_delay server cfg (lit "http://x/t") w
           (fst (get_transcript_html server (lit "http://x/t") (Some cfg) w))
           (lit "x")).
  - reflexivity.
  - vm_compute. reflexivity.
Defined.

(** ** Speaker blocks of any text *)

Lemma parse_blocks_nonempty (full_text : str) :
  _parse_speaker_blocks_from_text full_text <> [].
Proof.
  unfold _parse_speaker_blocks_from_text. cbv zeta.
  destruct (seg_scan (seg_lines full_text)); simpl; discriminate.
Qed.

(** ** Speaker segmenter: what the scan computes *)

Lemma label_nonempty (ln : str) :
  looks_like_speaker ln = true -> truthy ln = true.
Proof. destruct ln; [vm_compute; discriminate | reflexivity]. Qed.

(** The scan from a state in which a speaker is set. *)
Lemma seg_fold_speaker (lines : list str) : forall bl sp bf,
  truthy sp = true ->
  blocks (flush (fold_left seg_step lines (mkSeg bl (Some sp) bf)))
  = bl
    ++ (if nonempty (bf ++ body_of lines)
        then [block_of_group (sp, bf ++ body_of lines)] else [])
    ++ map block_of_group (filter has_body (labelled_groups lines)).
Proof.
  induction lines as [|ln rest IH]; intros bl sp bf Hsp.
  - cbn [fold_left flush blocks current_speaker buf body_of labelled_groups
         filter map]. rewrite Hsp, !app_nil_r. cbn [andb].
    destruct (nonempty bf); [reflexivity | now rewrite app_nil_r].
  - cbn [fold_left body_of labelled_groups].
    destruct (looks_like_speaker ln) eqn:Hl.
    + assert (Hstep : seg_step (mkSeg bl (Some sp) bf) ln
                      = mkSeg (bl ++ (if nonempty bf
                                      then [block_of_group (sp, bf)] else []))
                              (Some ln) []).
      { unfold seg_step. rewrite Hl. unfold flush.
        cbn [blocks current_speaker buf]. rewrite Hsp. cbn [andb].
        destruct (nonempty bf); [reflexivity | now rewrite app_nil_r]. }
      rewrite Hstep, IH by now apply label_nonempty.
      rewrite app_nil_r. cbn [app filter].
      change (has_body (ln, body_of rest)) with (nonempty (body_of rest)).
      destruct (nonempty bf); destruct (nonempty (body_of rest));
        cbn [map app]; rewrite <- ?app_assoc; reflexivity.
    + assert (Hstep : seg_step (mkSeg bl (Some sp) bf) ln
                      = mkSeg bl (Some sp) (bf ++ [ln])).
      { unfold seg_step. rewrite Hl.
        cbn [truthy_opt current_speaker blocks buf]. now rewrite Hsp. }
      rewrite Hstep, IH by assumption. now rewrite <- app_assoc.
Qed.

(** The scan from the start: the lines before the first label are passed
    over. *)
Lemma seg_scan_groups (lines : list str) :
  seg_scan lines
  = map block_of_group (filter has_body (labelled_groups lines)).
Proof.
  unfold seg_scan.
  induction lines as [|ln rest IH]; [reflexivity|].
  cbn [fold_left labelled_groups].
  destruct (looks_like_speaker ln) eqn:Hl.
  - assert (Hstep : seg_step seg_init ln = mkSeg [] (Some ln) [])
      by (unfold seg_step; now rewrite Hl).
    rewrite Hstep, seg_fold_speaker by now apply label_nonempty.
    cbn [app filter].
    change (has_body (ln, body_of rest)) with (nonempty (body_of rest)).
    now destruct (nonempty (body_of rest)).
  - assert (Hstep : seg_step seg_init ln = seg_init)
      by (unfold seg_step; now rewrite Hl).
    rewrite Hstep. exact IH.
Qed.

(** *** Lines joined by single spaces *)

Lemma join_cons (sep p : str) (rest : list str) :
  rest <> [] -> join sep (p :: rest) = p ++ sep ++ join sep rest.
Proof. destruct rest; [congruence | reflexivity]. Qed.

Lemma join_chars (sep : str) (parts : list str) (c : ascii) :
  In c (join sep parts) -> In c sep \/ exists p, In p parts /\ In c p.
Proof.
  induction parts as [|p rest IH]; [intros []|].
  destruct rest as [|q rest'].
  - simpl. intros H. right. exists p. split; [now left | exact H].
  - rewrite join_cons by discriminate. intros H.
    apply in_app_or in H. destruct H as [H|H].
    + right. exists p. split; [now left | exact H].
    + apply in_app_or in H. destruct H as [H|H]; [now left|].
      destruct (IH H) as [Hs|(p' & Hp' & Hc)]; [now left|].
      right. exists p'. split; [now right | exact Hc].
Qed.

Lemma clean_line_ends (ln : str) :
  clean_line ln ->
  (exists c t, ln = c :: t /\ isspace c = false)
  /\ (exists c t, rev ln = c :: t /\ isspace c = false).
Proof.
  intros (Hne & Hs & _). destruct (strip_spec ln) as (_ & Hh & Hl).
  rewrite Hs in Hh, Hl. split.
  - destruct ln as [|c t]; [congruence|]. now exists c, t.
  - destruct (rev ln) as [|c t] eqn:E.
    + apply (f_equal (@rev ascii)) in E. rewrite rev_involutive in E.
      simpl in E. congruence.
    + now exists c, t.
Qed.

Lemma join_head (sep : str) (parts : list str) (c : ascii) (t : str)
    (rest : list str) :
  parts = (c :: t) :: rest -> exists u, join sep parts = c :: u.
Proof.
  intros ->. destruct rest as [|q rest'].
  - now exists t.
  - rewrite join_cons by discriminate. now exists (t ++ sep ++ join sep (q :: rest')).
Qed.

Lemma join_last (sep : str) (parts : list str) : forall c,
  parts <> [] ->
  (forall p, In p parts -> exists t, rev p = c p :: t) ->
  exists t, rev (join sep parts) = c (last parts []) :: t.
Proof.
  induction parts as [|p rest IH]; intros c Hne Hall; [congruence|].
  destruct rest as [|q rest'].
  - simpl. apply Hall. now left.
  - rewrite join_cons by discriminate.
    destruct (IH c ltac:(discriminate)) as [t Ht].
    { intros p' Hp'. apply Hall. now right. }
    rewrite !rev_app_distr, Ht.
    change (last (p :: q :: rest') []) with (last (q :: rest') []).
    simpl. eauto.
Qed.

Lemma last_in {A} (l : list A) (d : A) : l <> [] -> In (last l d) l.
Proof.
  induction l as [|x l IH]; [congruence|]. intros _.
  destruct l as [|y l']; [now left|]. right. apply IH. discriminate.
Qed.

Lemma join_clean_head (body : list str) :
  body <> [] -> (forall p, In p body -> clean_line p) ->
  exists c u, join [SP] body = c :: u /\ isspace c = false.
Proof.
  intros Hne Hall. destruct body as [|p rest]; [congruence|].
  destruct (clean_line_ends p (Hall p (or_introl eq_refl)))
    as ((c & t & Hp & Hc) & _).
  destruct (join_head [SP] (p :: rest) c t rest) as [u Hu];
    [now rewrite Hp|].
  now exists c, u.
Qed.

Lemma join_clean_last (body : list str) :
  body <> [] -> (forall p, In p body -> clean_line p) ->
  exists c u, rev (join [SP] body) = c :: u /\ isspace c = false.
Proof.
  intros Hne Hall.
  destruct (join_last [SP] body
              (fun p => match rev p with c :: _ => c | [] => SP end) Hne)
    as [t Ht].
  - intros p Hp. destruct (clean_line_ends p (Hall p Hp))
      as (_ & (c & t & E & _)). rewrite E. now exists t.
  - rewrite Ht.
    destruct (clean_line_ends _ (Hall _ (last_in body [] Hne)))
      as (_ & (c & t' & E & Hc)).
    rewrite E. now exists c, t.
Qed.

(** Clean lines joined by single spaces make a text in normal form. *)
Lemma join_clean_normalized (body : list str) :
  body <> [] -> Forall clean_line body ->
  clean_line (join [SP] body) /\ normalized (join [SP] body).
Proof.
  intros Hne Hall. rewrite Forall_forall in Hall.
  assert (Hlb : forall c, In c (join [SP] body) -> is_linebreak c = false).
  { intros c Hc. destruct (join_chars _ _ _ Hc) as [[<-|[]]|(p & Hp & Hcp)].
    - reflexivity.
    - destruct (Hall p Hp) as (_ & _ & H). rewrite forallb_forall in H.
      apply negb_true_iff. now apply H. }
  destruct (join_clean_head body Hne Hall) as (c & u & Eh & Hc).
  destruct (join_clean_last body Hne Hall) as (d & v & El & Hd).
  assert (Hstrip : strip (join [SP] body) = join [SP] body).
  { apply strip_fixed; [now rewrite Eh | now rewrite El]. }
  split; [split; [|split; [exact Hstrip|]] | split; [|split]].
  - rewrite Eh. discriminate.
  - apply forallb_forall. intros x Hx. now rewrite (Hlb x Hx).
  - intros Hcr. now specialize (Hlb CR Hcr).
  - destruct (contains (join [SP] body) [LF; LF; LF]) eqn:E; [|reflexivity].
    apply contains_iff in E. destruct E as (a & b & E).
    assert (Hin : In LF (join [SP] body)).
    { rewrite E. apply in_or_app. right. now left. }
    now specialize (Hlb LF Hin).
  - exact Hstrip.
Qed.

Lemma seg_lines_clean (full_text ln : str) :
  In ln (seg_lines full_text) -> clean_line ln.
Proof.
  unfold seg_lines. intros H. apply filter_In in H. destruct H as [H Hne].
  apply in_map_iff in H. destruct H as (raw & <- & Hraw).
  split; [|split].
  - intros E. rewrite E in Hne. discriminate.
  - apply strip_strip.
  - apply forallb_forall. intros c Hc. apply strip_chars in Hc.
    destruct (splitlines_chars full_text raw c Hraw Hc) as [_ ->]. reflexivity.
Qed.

(** What the groups are made of. *)
Lemma body_of_lines (lines : list str) (ln : str) :
  In ln (body_of lines) -> In ln lines /\ looks_like_speaker ln = false.
Proof.
  induction lines as [|l rest IH]; [intros []|].
  cbn [body_of]. destruct (looks_like_speaker l) eqn:E; [intros []|].
  intros [<-|H]; [split; [now left | exact E]|].
  destruct (IH H). split; [now right | assumption].
Qed.

Lemma labelled_groups_lines (lines : list str) (g : str * list str) :
  In g (labelled_groups lines) ->
  In (fst g) lines /\ looks_like_speaker (fst g) = true
  /\ forall ln, In ln (snd g) ->
       In ln lines /\ looks_like_speaker ln = false.
Proof.
  induction lines as [|l rest IH]; [intros []|].
  cbn [labelled_groups]. destruct (looks_like_speaker l) eqn:E.
  - intros [<-|H].
    + cbn [fst snd]. split; [now left|]. split; [exact E|].
      intros ln Hln. destruct (body_of_lines rest ln Hln).
      split; [now right | assumption].
    + destruct (IH H) as (H1 & H2 & H3). split; [now right|].
      split; [exact H2|]. intros ln Hln. destruct (H3 ln Hln).
      split; [now right | assumption].
  - intros H. destruct (IH H) as (H1 & H2 & H3). split; [now right|].
    split; [exact H2|]. intros ln Hln. destruct (H3 ln Hln).
    split; [now right | assumption].
Qed.

Lemma parse_groups (full_text : str) :
  _parse_speaker_blocks_from_text full_text
  = if nonempty (filter has_body (labelled_groups (seg_lines full_text)))
    then map (fun g => SpeakerBlock.mk (fst g) (join [SP] (snd g)))
             (filter has_body (labelled_groups (seg_lines full_text)))
    else [SpeakerBlock.mk (lit "Unknown") full_text].
Proof.
  unfold _parse_speaker_blocks_from_text. cbv zeta.
  rewrite seg_scan_groups.
  set (groups := filter has_body (labelled_groups (seg_lines full_text))).
  assert (Hmap : map block_of_group groups
                 = map (fun g => SpeakerBlock.mk (fst g) (join [SP] (snd g)))
                       groups).
  { apply map_ext_in. intros g Hg. unfold block_of_group. f_equal.
    apply filter_In in Hg. destruct Hg as [Hg Hb].
    apply normalize_fixed, join_clean_normalized.
    - unfold has_body in Hb. destruct (snd g); [discriminate | discriminate].
    - apply Forall_forall. intros ln Hln.
      destruct (labelled_groups_lines _ g Hg) as (_ & _ & H).
      apply (seg_lines_clean full_text). now apply H. }
  rewrite Hmap. destruct groups; reflexivity.
Qed.

(** X13.  What [_parse_speaker_blocks_from_text] computes: every label line
    of the text is paired with the lines that follow it up to the next
    label; a label with nothing after it is dropped; each remaining pair
    becomes a block, the label as speaker and the lines joined by single
    spaces as text (normalization changes nothing there); the lines before
    the first label are in no pair.  If no block results, the fallback block
    is returned. *)
Theorem segmenter_groups (full_text : str) :
  let groups := filter has_body (labelled_groups (seg_lines full_text)) in
  _parse_speaker_blocks_from_text full_text
  = if nonempty groups
    then map (fun g => SpeakerBlock.mk (fst g) (join [SP] (snd g))) groups
    else [SpeakerBlock.mk (lit "Unknown") full_text].
Proof. exact (parse_groups full_text). Qed.

(** X14.  In every block that the scan of [_parse_speaker_blocks_from_text]
    builds, the speaker is one of the text's lines and looks like a speaker
    label, and the text is a single line: not empty, without whitespace at
    either end, without a line boundary. *)
Theorem segmenter_blocks_clean (full_text : str) (b : SpeakerBlock.t) :
  In b (seg_scan (seg_lines full_text)) ->
  In (SpeakerBlock.speaker b) (seg_lines full_text)
  /\ looks_like_speaker (SpeakerBlock.speaker b) = true
  /\ clean_line (SpeakerBlock.text b).
Proof.
  rewrite seg_scan_groups. intros H.
  apply in_map_iff in H. destruct H as (g & <- & Hg).
  apply filter_In in Hg. destruct Hg as [Hg Hb].
  destruct (labelled_groups_lines _ g Hg) as (H1 & H2 & H3).
  split; [exact H1|]. split; [exact H2|].
  cbn [block_of_group SpeakerBlock.text].
  assert (Hj : clean_line (join [SP] (snd g))
               /\ normalized (join [SP] (snd g))).
  { apply join_clean_normalized.
    - unfold has_body in Hb. destruct (snd g); discriminate.
    - apply Forall_forall. intros ln Hln.
      apply (seg_lines_clean full_text). now apply H3. }
  destruct Hj as [Hc Hn]. unfold block_of_group. cbn [SpeakerBlock.text].
  now rewrite (normalize_fixed _ Hn).
Qed.

(** The theorem at a transcript of two speakers. *)
Lemma segmenter_blocks_clean_witness :
  let full_text :=
    lit "Operator" ++ [LF] ++ lit "Welcome to the call." ++ [LF]
    ++ lit "Tim Cook" ++ [LF] ++ lit "Thank you." ++ [LF] ++ lit "Good afternoon." in
  let b := SpeakerBlock.mk (lit "Tim Cook") (lit "Thank you. Good afternoon.") in
  In (SpeakerBlock.speaker b) (seg_lines full_text)
  /\ looks_like_speaker (SpeakerBlock.speaker b) = true
  /\ clean_line (SpeakerBlock.text b).
Proof.
  intros full_text b. apply (segmenter_blocks_clean full_text b).
  vm_compute. right. now left.
Defined.

(** *** Writing a transcript out and reading it back *)

Lemma splitlines_aux_line (l : str) : forall cur,
  forallb (fun c => negb (is_linebreak c)) l = true ->
  rev cur ++ l <> [] ->
  splitlines_aux cur l = [rev cur ++ l].
Proof.
  induction l as [|d l IH]; intros cur Hl Hne.
  - rewrite app_nil_r in *. simpl.
    destruct cur as [|x cur']; [now elim Hne | reflexivity].
  - cbn [forallb] in Hl. apply andb_prop in Hl. destruct Hl as [Hd Hl].
    apply negb_true_iff in Hd.
    assert (Hcr : Ascii.eqb d CR = false).
    { apply ascii_eqb_false. intros ->. discriminate Hd. }
    cbn [splitlines_aux]. rewrite Hcr, Hd.
    rewrite IH; [|exact Hl|]; simpl rev; rewrite <- app_assoc; auto.
Qed.

Lemma splitlines_join (ls : list str) :
  Forall clean_line ls -> splitlines (join [LF] ls) = ls.
Proof.
  induction ls as [|l rest IH]; intros Hall; [reflexivity|].
  inversion Hall as [|? ? (Hne & _ & Hlb) Hrest]; subst.
  destruct rest as [|l' rest'].
  - simpl join. unfold splitlines. now apply splitlines_aux_line.
  - rewrite join_cons by discriminate. unfold splitlines.
    change (l ++ [LF] ++ join [LF] (l' :: rest'))
      with (l ++ LF :: join [LF] (l' :: rest')).
    rewrite splitlines_aux_first by assumption. cbn [rev app]. f_equal.
    now apply IH.
Qed.

Lemma seg_lines_join (ls : list str) :
  Forall clean_line ls -> seg_lines (join [LF] ls) = ls.
Proof.
  intros Hall. unfold seg_lines. rewrite (splitlines_join ls Hall).
  induction Hall as [|l rest (Hne & Hs & _) _ IH]; [reflexivity|].
  cbn [map filter]. rewrite Hs.
  destruct (str_eqb l []) eqn:E; [apply str_eqb_true in E; congruence|].
  cbn [negb]. now rewrite IH.
Qed.

Lemma rendered_groups (bs : list SpeakerBlock.t) :
  Forall (fun b => looks_like_speaker (SpeakerBlock.speaker b) = true
                   /\ looks_like_speaker (SpeakerBlock.text b) = false) bs ->
  labelled_groups
    (flat_map (fun b => [SpeakerBlock.speaker b; SpeakerBlock.text b]) bs)
  = map (fun b => (SpeakerBlock.speaker b, [SpeakerBlock.text b])) bs.
Proof.
  induction 1 as [|b rest [Hs Ht] Hrest IH]; [reflexivity|].
  cbn [flat_map app labelled_groups body_of map]. rewrite Hs, Ht.
  rewrite IH. f_equal. f_equal. f_equal.
  destruct Hrest as [|b' rest' [Hs' _] _]; [reflexivity|].
  cbn [flat_map app body_of]. now rewrite Hs'.
Qed.

(** X15.  A transcript written out one line per speaker label and one line
    per speech is read back as it was: if every speaker is a clean line that
    looks like a label and every text a clean line that does not, the
    segmenter returns exactly the blocks that were written. *)
Theorem segmenter_round_trip (bs : list SpeakerBlock.t) :
  bs <> [] ->
  Forall (fun b => clean_line (SpeakerBlock.speaker b)
                   /\ looks_like_speaker (SpeakerBlock.speaker b) = true
                   /\ clean_line (SpeakerBlock.text b)
                   /\ looks_like_speaker (SpeakerBlock.text b) = false) bs ->
  _parse_speaker_blocks_from_text (render_blocks bs) = bs.
Proof.
  intros Hne Hall. rewrite parse_groups. unfold render_blocks.
  rewrite seg_lines_join.
  - rewrite rendered_groups.
    + assert (Hf : filter has_body
                     (map (fun b => (SpeakerBlock.speaker b,
                                     [SpeakerBlock.text b])) bs)
                   = map (fun b => (SpeakerBlock.speaker b,
                                    [SpeakerBlock.text b])) bs).
      { clear. induction bs as [|b bs IH]; [reflexivity|].
        cbn [map filter]. change (has_body _) with true at 1.
        cbv iota. now rewrite IH. }
      rewrite Hf, map_map. cbn [fst snd join].
      destruct bs as [|b bs']; [congruence|]. cbn [map nonempty].
      f_equal; [now destruct b|].
      rewrite <- (map_id bs') at 2. apply map_ext. now intros [s t].
    + eapply Forall_impl; [|exact Hall]. intros b (_ & H1 & _ & H2).
      now split.
  - clear Hne. induction Hall as [|b rest (H1 & _ & H2 & _) _ IH];
      [constructor|].
    cbn [flat_map app]. constructor; [exact H1|].
    constructor; [exact H2 | exact IH].
Qed.

(** The theorem at a transcript of two speakers. *)
Lemma segmenter_round_trip_witness :
  let bs := [SpeakerBlock.mk (lit "Operator") (lit "Welcome to the call.");
             SpeakerBlock.mk (lit "Tim Cook") (lit "Thank you, and good afternoon.")] in
  _parse_speaker_blocks_from_text (render_blocks bs) = bs.
Proof.
  intros bs. apply segmenter_round_trip; [discriminate|].
  repeat constructor; try discriminate.
Defined.

(** ** What a batch run never does *)

Section RunConfinement.

Variable server : list event -> Request.t -> reply.
Variable _html_to_text : str -> str.
Variable args : Args.t.

Lemma unit_url_slash (t : str) (q : Z) :
  with_slash (unit_url args t q) = unit_url args t q.
Proof.
  unfold with_slash.
  assert (H : endswith (unit_url args t q) (lit "/") = true).
  { unfold unit_url. rewrite !app_assoc. apply endswith_slash. }
  now rewrite H.
Qed.

Lemma range_In (lo hi i : Z) : In i (range lo hi) -> (lo <= i < hi)%Z.
Proof. unfold range. intros H. apply zseq_In in H. lia. Qed.

(** One assembly pass of a unit shows requests of that unit and politeness
    delays only. *)
Lemma pass_events (t : str) (q : Z) (w : World) :
  exists evs r,
    get_transcript_html server (unit_url args t q) (Some (batch_cfg args)) w
    = (extend w evs, r)
    /\ Forall (unit_event args t q) evs
    /\ pass_result_ok r.
Proof.
  destruct (assembly_requests server (batch_cfg args) (unit_url args t q) w)
    as (k & evs & r & Hk & Hrun & Hg & Hev).
  rewrite unit_url_slash in Hg.
  exists evs, r. split; [exact Hrun|]. split.
  - apply Forall_forall. intros e He.
    rewrite Forall_forall in Hev. specialize (Hev e He).
    destruct e as [rq|[s|a|s]|l|p|p f]; try discriminate Hev;
      [|exact I].
    assert (Hin : In (Get rq) (filter is_get evs))
      by (apply filter_In; now split).
    rewrite Hg in Hin. apply in_map_iff in Hin.
    destruct Hin as (i & Hi & Hr). apply range_In in Hr.
    exists i. split; [lia|]. now injection Hi as <-.
  - destruct (get_transcript_html_frame server (unit_url args t q)
                (batch_cfg args) w) as (rq & evs' & r' & Hrun' & _ & Hok).
    rewrite Hrun in Hrun'. now injection Hrun' as _ ->.
Qed.

(** A rate-limit branch shows a backoff line and its delay, or nothing. *)
Lemma on_rate_limit_events (t : str) (q attempt : Z) (w : World) :
  (0 <= attempt)%Z ->
  exists evs r,
    on_rate_limit args t q attempt w = (extend w evs, r)
    /\ Forall (unit_event args t q) evs
    /\ (forall a, r = Return (Continue a) -> (0 <= a)%Z)
    /\ r <> OutOfFuel.
Proof.
  intros Hpos.
  destruct (Z_lt_le_dec attempt (Args.max_rate_limit_retries args)) as [Hlt|Hge].
  - destruct (Z_lt_le_dec attempt 1024) as [Hs|Hb].
    + rewrite backoff_run by assumption.
      eexists; eexists. split; [reflexivity|]. split; [|split].
      * constructor; [|constructor; [|constructor]].
        -- cbn [unit_event unit_line]. repeat split; eauto.
        -- cbn [unit_event]. lia.
      * intros a [= <-]. lia.
      * discriminate.
    + rewrite overflow_run by assumption.
      exists [], (Raise (OverflowError overflow_msg)).
      rewrite extend_nil. repeat split; auto; discriminate.
  - rewrite exhausted_run by assumption.
    exists [], (Raise (RateLimitReached (exhausted_msg args t q))).
    rewrite extend_nil. repeat split; auto; discriminate.
Qed.

Lemma csv_rows_nonempty (bs : list SpeakerBlock.t) (i : Z) :
  bs <> [] -> csv_rows i bs <> [].
Proof. destruct bs; [congruence | discriminate]. Qed.

(** Saving the outputs of a unit shows its directory and its two writes. *)
Lemma save_outputs_events (t : str) (q : Z) (text : str) (w : World) :
  normalized text ->
  exists w2 saves,
    (forall (X : Type) (k : M X),
       ((if Args.save_txt args
         then save_transcript_txt_from_text text
                (unit_stem args (_safe_filename t) q ++ lit ".txt")
                (Some (ticker_dir_of args t)) ;; ret tt
         else ret tt) ;;
        (if Args.save_csv args
         then save_transcript_csv_from_blocks (speaker_blocks_from_text text)
                (unit_stem args (_safe_filename t) q ++ lit ".csv")
                (Some (ticker_dir_of args t)) ;; ret tt
         else ret tt) ;;
        k)%monad w
       = k w2)
    /\ trace w2 = trace w ++ saves
    /\ Forall (unit_event args t q) saves.
Proof.
  intros Hnorm.
  destruct (unit_file_simple args t q ".txt") as (T1 & T2 & T3);
    [intros [H|[H|[H|[H|[]]]]]; discriminate H | simpl; lia |].
  destruct (unit_file_simple args t q ".csv") as (C1 & C2 & C3);
    [intros [H|[H|[H|[H|[]]]]]; discriminate H | simpl; lia |].
  pose proof (save_target_same (ticker_dir_of args t) _ T1 T2 T3) as Ht.
  pose proof (save_target_same (ticker_dir_of args t) _ C1 C2 C3) as Hc.
  fold (output_file args t q ".txt") in Ht.
  fold (output_file args t q ".csv") in Hc.
  unfold bind, save_transcript_txt_from_text, save_transcript_csv_from_blocks,
    mkdir, write_file, log, ret, bind.
  destruct (save_target (unit_stem args (_safe_filename t) q ++ lit ".txt")
              (Some (ticker_dir_of args t))) as [dt pt] eqn:Et.
  destruct (save_target (unit_stem args (_safe_filename t) q ++ lit ".csv")
              (Some (ticker_dir_of args t))) as [dc pc] eqn:Ec.
  assert (Hdt : dt = ticker_dir_of args t)
    by (unfold save_target in Et; now injection Et as <- _).
  assert (Hdc : dc = ticker_dir_of args t)
    by (unfold save_target in Ec; now injection Ec as <- _).
  cbn [snd] in Ht, Hc. subst dt dc pt pc.
  assert (Wt : Args.save_txt args = true ->
               unit_event args t q
                 (WriteFile (output_file args t q ".txt") (TextFile text))).
  { intros H. left. split; [exact H|]. split; [reflexivity|]. now exists text. }
  assert (Wc : Args.save_csv args = true ->
               unit_event args t q
                 (WriteFile (output_file args t q ".csv")
                    (CsvFile ([lit "sequence"; lit "speaker"; lit "text"]
                              :: csv_rows 1 (speaker_blocks_from_text text))))).
  { intros H. right. split; [exact H|]. split; [reflexivity|].
    eexists. split; [reflexivity|].
    apply csv_rows_nonempty, parse_blocks_nonempty. }
  assert (Md : unit_event args t q (Mkdir (ticker_dir_of args t)))
    by reflexivity.
  destruct (Args.save_txt args), (Args.save_csv args).
  - eexists; exists [Mkdir (ticker_dir_of args t);
                     WriteFile (output_file args t q ".txt") (TextFile text);
                     Mkdir (ticker_dir_of args t);
                     WriteFile (output_file args t q ".csv")
                       (CsvFile ([lit "sequence"; lit "speaker"; lit "text"]
                                 :: csv_rows 1 (speaker_blocks_from_text text)))].
    split; [reflexivity|]. split; [simpl; now rewrite <- !app_assoc|].
    repeat (constructor;
            [first [exact Md | now apply Wt | now apply Wc]|]).
    constructor.
  - eexists; exists [Mkdir (ticker_dir_of args t);
                     WriteFile (output_file args t q ".txt") (TextFile text)].
    split; [reflexivity|]. split; [simpl; now rewrite <- !app_assoc|].
    repeat (constructor;
            [first [exact Md | now apply Wt | now apply Wc]|]).
    constructor.
  - eexists; exists [Mkdir (ticker_dir_of args t);
                     WriteFile (output_file args t q ".csv")
                       (CsvFile ([lit "sequence"; lit "speaker"; lit "text"]
                                 :: csv_rows 1 (speaker_blocks_from_text text)))].
    split; [reflexivity|]. split; [simpl; now rewrite <- !app_assoc|].
    repeat (constructor;
            [first [exact Md | now apply Wt | now apply Wc]|]).
    constructor.
  - exists w, []. split; [reflexivity|].
    split; [symmetry; apply app_nil_r | constructor].
Qed.

Lemma unit_line_refl (t : str) (q : Z) :
  unit_event args t q (Print (OK t (Args.year args) q))
  /\ (forall msg, unit_event args t q (Print (SKIP t (Args.year args) q msg)))
  /\ (forall n m, unit_event args t q (Print (ERR t (Args.year args) q n m)))
  /\ unit_event args t q (Print (SKIP_DONE t (Args.year args) q)).
Proof. repeat split. Qed.

(** One pass through the retry loop shows events of its unit only. *)
Lemma one_pass_events (t : str) (q attempt : Z) (w : World) :
  (0 <= attempt)%Z ->
  exists w' r evs,
    one_pass server _html_to_text args t (ticker_dir_of args t)
      (unit_stem args (_safe_filename t) q) q attempt w = (w', r)
    /\ trace w' = trace w ++ evs
    /\ Forall (unit_event args t q) evs
    /\ (forall a, r = Return (Continue a) -> (0 <= a)%Z)
    /\ r <> OutOfFuel.
Proof.
  intros Hpos.
  destruct (unit_line_refl t q) as (Lok & Lskip & Lerr & _).
  destruct (pass_events t q w) as (evs & res & Hget & Hevs & Hres).
  unfold one_pass, try_except, try_body. unfold bind at 1. rewrite Hget.
  destruct res as [html|e|]; [| |contradiction]; cbv beta iota.
  - destruct (is_rate_limited_message
                (transcript_text_from_html _html_to_text html)).
    + destruct (on_rate_limit_events t q attempt (extend w evs) Hpos)
        as (evs2 & r & Hrl & Hevs2 & Hcont & Hfuel).
      rewrite Hrl.
      destruct r as [ctl|e|]; [| |congruence].
      * exists (extend (extend w evs) evs2), (Return ctl), (evs ++ evs2).
        split; [reflexivity|]. split; [simpl; now rewrite app_assoc|].
        split; [now apply Forall_app|]. split; [exact Hcont | discriminate].
      * (* raised inside [try]: the handlers see it *)
        destruct e as [msg|msg|msg|msg|msg|name msg].
        -- exfalso. revert Hrl. clear.
           unfold on_rate_limit, _backoff_delay_s, bind, raise, print,
             time_sleep, log, ret.
           destruct (_ >=? _)%Z; [discriminate|].
           destruct (1024 <=? attempt)%Z; discriminate.
        -- cbn [handlers]. unfold raise.
           exists (extend (extend w evs) evs2), (Raise (RateLimitReached msg)),
             (evs ++ evs2).
           split; [reflexivity|]. split; [simpl; now rewrite app_assoc|].
           split; [now apply Forall_app|]. split; discriminate.
        -- cbn [handlers]. unfold bind, print, log, ret.
           eexists; eexists;
             exists (evs ++ evs2
                     ++ [Print (ERR t (Args.year args) q
                                  (exn_name (ValueError msg))
                                  (exn_str (ValueError msg)))]).
           split; [reflexivity|]. split; [simpl; now rewrite <- !app_assoc|].
           split; [|split; discriminate].
           apply Forall_app. split; [exact Hevs|].
           apply Forall_app. split; [exact Hevs2|]. now constructor.
        -- cbn [handlers]. unfold bind, print, log, ret.
           eexists; eexists;
             exists (evs ++ evs2
                     ++ [Print (ERR t (Args.year args) q
                                  (exn_name (FileNotFoundError msg))
                                  (exn_str (FileNotFoundError msg)))]).
           split; [reflexivity|]. split; [simpl; now rewrite <- !app_assoc|].
           split; [|split; discriminate].
           apply Forall_app. split; [exact Hevs|].
           apply Forall_app. split; [exact Hevs2|]. now constructor.
        -- cbn [handlers]. unfold bind, print, log, ret.
           eexists; eexists;
             exists (evs ++ evs2
                     ++ [Print (ERR t (Args.year args) q
                                  (exn_name (OverflowError msg))
                                  (exn_str (OverflowError msg)))]).
           split; [reflexivity|]. split; [simpl; now rewrite <- !app_assoc|].
           split; [|split; discriminate].
           apply Forall_app. split; [exact Hevs|].
           apply Forall_app. split; [exact Hevs2|]. now constructor.
        -- cbn [handlers]. unfold bind, print, log, ret.
           eexists; eexists;
             exists (evs ++ evs2
                     ++ [Print (ERR t (Args.year args) q
                                  (exn_name (LibraryError name msg))
                                  (exn_str (LibraryError name msg)))]).
           split; [reflexivity|]. split; [simpl; now rewrite <- !app_assoc|].
           split; [|split; discriminate].
           apply Forall_app. split; [exact Hevs|].
           apply Forall_app. split; [exact Hevs2|]. now constructor.
    + destruct (save_outputs_events t q
                  (transcript_text_from_html _html_to_text html)
                  (extend w evs) (normalize_normalized _))
        as (w2 & saves & Hsave & Htr & Hs).
      rewrite Hsave. unfold bind, print, log, ret.
      eexists; eexists;
        exists (evs ++ saves ++ [Print (OK t (Args.year args) q)]).
      split; [reflexivity|]. split.
      { simpl. rewrite Htr. simpl. now rewrite <- !app_assoc. }
      split; [|split; discriminate].
      apply Forall_app. split; [exact Hevs|].
      apply Forall_app. split; [exact Hs | now constructor].
  - destruct e as [msg|msg|msg|msg|msg|name msg]; try discriminate Hres;
      cbn [handlers].
    + destruct (is_rate_limited_message msg).
      * destruct (on_rate_limit_events t q attempt (extend w evs) Hpos)
          as (evs2 & r & Hrl & Hevs2 & Hcont & Hfuel).
        rewrite Hrl. exists (extend (extend w evs) evs2), r, (evs ++ evs2).
        split; [reflexivity|]. split; [simpl; now rewrite app_assoc|].
        split; [now apply Forall_app|]. now split.
      * unfold bind, print, log, ret.
        eexists; eexists;
          exists (evs ++ [Print (SKIP t (Args.year args) q msg)]).
        split; [reflexivity|]. split; [simpl; now rewrite <- !app_assoc|].
        split; [|split; discriminate].
        apply Forall_app. split; [exact Hevs | now constructor].
    + unfold bind, print, log, ret.
      eexists; eexists;
        exists (evs ++ [Print (ERR t (Args.year args) q
                                 (exn_name (ValueError msg))
                                 (exn_str (ValueError msg)))]).
      split; [reflexivity|]. split; [simpl; now rewrite <- !app_assoc|].
      split; [|split; discriminate].
      apply Forall_app. split; [exact Hevs | now constructor].
    + unfold bind, print, log, ret.
      eexists; eexists;
        exists (evs ++ [Print (ERR t (Args.year args) q
                                 (exn_name (OverflowError msg))
                                 (exn_str (OverflowError msg)))]).
      split; [reflexivity|]. split; [simpl; now rewrite <- !app_assoc|].
      split; [|split; discriminate].
      apply Forall_app. split; [exact Hevs | now constructor].
    + unfold bind, print, log, ret.
      eexists; eexists;
        exists (evs ++ [Print (ERR t (Args.year args) q
                                 (exn_name (LibraryError name msg))
                                 (exn_str (LibraryError name msg)))]).
      split; [reflexivity|]. split; [simpl; now rewrite <- !app_assoc|].
      split; [|split; discriminate].
      apply Forall_app. split; [exact Hevs | now constructor].
Qed.

Lemma retry_loop_events (t : str) (q : Z) :
  forall (fuel : nat) (attempt : Z) (w : World),
  (0 <= attempt)%Z ->
  exists w' r evs,
    retry_loop server _html_to_text args fuel t (ticker_dir_of args t)
      (unit_stem args (_safe_filename t) q) q attempt w = (w', r)
    /\ trace w' = trace w ++ evs
    /\ Forall (unit_event args t q) evs.
Proof.
  induction fuel as [|fuel IH]; intros attempt w Hpos.
  - exists w, OutOfFuel, []. split; [reflexivity|].
    split; [now rewrite app_nil_r | constructor].
  - cbn [retry_loop]. unfold bind.
    destruct (one_pass_events t q attempt w Hpos)
      as (w1 & r1 & e1 & -> & Htr1 & He1 & Hcont & _).
    destruct r1 as [[|a]|e|].
    + exists w1, (Return tt), e1. now repeat split.
    + destruct (IH a w1 (Hcont a eq_refl)) as (w' & r & e2 & Hrun & Htr2 & He2).
      exists w', r, (e1 ++ e2). split; [exact Hrun|].
      split; [now rewrite Htr2, Htr1, app_assoc | now apply Forall_app].
    + exists w1, (Raise e), e1. now repeat split.
    + exists w1, OutOfFuel, e1. now repeat split.
Qed.

Lemma process_unit_events (t : str) (q : Z) (w : World) :
  exists w' r evs,
    process_unit server _html_to_text args t (_safe_filename t)
      (ticker_dir_of args t) q w = (w', r)
    /\ trace w' = trace w ++ evs
    /\ Forall (unit_event args t q) evs.
Proof.
  destruct (unit_line_refl t q) as (_ & _ & _ & Ldone).
  unfold process_unit, bind.
  destruct (already_processed_result (ticker_dir_of args t)
              (unit_stem args (_safe_filename t) q)
              (Args.save_txt args) (Args.save_csv args) w) as [[|] ->].
  - eexists; eexists; exists [Print (SKIP_DONE t (Args.year args) q)].
    split; [reflexivity|]. split; [reflexivity | now constructor].
  - destruct (retry_loop_events t q (retry_fuel args) 0 w ltac:(lia))
      as (w1 & r & evs & -> & Htr & Hevs).
    destruct r as [[]|e|].
    + rewrite sleep_with_jitter_run.
      destruct (pacing_accepted (Args.sleep_s args) (Args.jitter_s args)
                  (draw_of_bits (genrand w1 (trace w1)))).
      2:{ exists w1, (Raise (OverflowError sleep_overflow_msg)), evs.
          now repeat split. }
      eexists; eexists;
        exists (evs ++ pacing_events (Args.sleep_s args) (Args.jitter_s args)
                         (draw_of_bits (genrand w1 (trace w1)))).
      split; [reflexivity|]. split.
      { simpl. rewrite Htr. now rewrite <- app_assoc. }
      apply Forall_app. split; [exact Hevs|].
      unfold pacing_events. destruct (_ && _); [constructor|].
      constructor; [|constructor].
      exists (draw_of_bits (genrand w1 (trace w1))).
      split; [apply draw_of_bits_is_draw | reflexivity].
    + exists w1, (Raise e), evs. now repeat split.
    + exists w1, OutOfFuel, evs. now repeat split.
Qed.

Lemma quarters_events (t : str) : forall (qs : list Z) (w : World),
  exists w' r evs,
    for_each qs (process_unit server _html_to_text args t (_safe_filename t)
                   (ticker_dir_of args t)) w = (w', r)
    /\ trace w' = trace w ++ evs
    /\ Forall (fun e => exists q, In q qs /\ unit_event args t q e) evs.
Proof.
  induction qs as [|q qs IH]; intros w.
  - exists w, (Return tt), []. split; [reflexivity|].
    split; [now rewrite app_nil_r | constructor].
  - cbn [for_each]. unfold bind.
    destruct (process_unit_events t q w) as (w1 & r1 & e1 & -> & Htr1 & He1).
    assert (He1' : Forall (fun e => exists q', In q' (q :: qs)
                                     /\ unit_event args t q' e) e1).
    { eapply Forall_impl; [|exact He1]. intros e He. exists q.
      split; [now left | exact He]. }
    destruct r1 as [[]|e|].
    + destruct (IH w1) as (w' & r & e2 & Hrun & Htr2 & He2).
      exists w', r, (e1 ++ e2). split; [exact Hrun|].
      split; [now rewrite Htr2, Htr1, app_assoc|].
      apply Forall_app. split; [exact He1'|].
      eapply Forall_impl; [|exact He2]. intros e (q' & Hq' & He).
      exists q'. split; [now right | exact He].
    + exists w1, (Raise e), e1. now repeat split.
    + exists w1, OutOfFuel, e1. now repeat split.
Qed.

Lemma tickers_events : forall (ts : list str) (w : World),
  exists w' r evs,
    for_each ts (process_ticker server _html_to_text args) w = (w', r)
    /\ trace w' = trace w ++ evs
    /\ Forall (run_event args ts) evs.
Proof.
  induction ts as [|t ts IH]; intros w.
  - exists w, (Return tt), []. split; [reflexivity|].
    split; [now rewrite app_nil_r | constructor].
  - cbn [for_each]. unfold bind at 1. unfold process_ticker at 1.
    unfold bind at 1. unfold mkdir, log.
    fold (ticker_dir_of args t).
    destruct (quarters_events t (Args.quarters args)
                (emit (Mkdir (ticker_dir_of args t)) w))
      as (w1 & r1 & e1 & -> & Htr1 & He1).
    assert (He1' : Forall (run_event args (t :: ts))
                     (Mkdir (ticker_dir_of args t) :: e1)).
    { constructor.
      - right. exists t. split; [now left | now left].
      - eapply Forall_impl; [|exact He1]. intros e He.
        right. exists t. split; [now left | now right]. }
    assert (Htr : trace w1 = trace w ++ Mkdir (ticker_dir_of args t) :: e1).
    { rewrite Htr1. simpl. now rewrite <- app_assoc. }
    destruct r1 as [[]|e|].
    + destruct (IH w1) as (w' & r & e2 & Hrun & Htr2 & He2).
      exists w', r, ((Mkdir (ticker_dir_of args t) :: e1) ++ e2).
      split; [exact Hrun|].
      split; [now rewrite Htr2, Htr, app_assoc|].
      apply Forall_app. split; [exact He1'|].
      eapply Forall_impl; [|exact He2].
      intros e [->|(t' & Ht' & He)]; [now left|].
      right. exists t'. split; [now right | exact He].
    + exists w1, (Raise e), (Mkdir (ticker_dir_of args t) :: e1).
      now repeat split.
    + exists w1, OutOfFuel, (Mkdir (ticker_dir_of args t) :: e1).
      now repeat split.
Qed.

(** Everything that a run over a loaded ticker list shows is the output
    directory, a ticker directory, or an event of one of its units. *)
Lemma batch_events (tickers : list str) (w : World) :
  snd (_read_tickers_from_sandp_csv (Args.tickers_csv_path args) w)
  = Return tickers ->
  exists w' r evs,
    fetch_all_transcripts_for_year server _html_to_text args w = (w', r)
    /\ trace w' = trace w ++ evs
    /\ Forall (run_event args tickers) evs.
Proof.
  intros Hread.
  unfold fetch_all_transcripts_for_year. unfold bind at 1.
  unfold mkdir at 1, log. unfold bind at 1.
  rewrite (surjective_pairing (_read_tickers_from_sandp_csv _ _)).
  rewrite read_tickers_world.
  rewrite (read_tickers_files _ _ w) by reflexivity. rewrite Hread.
  destruct tickers as [|t ts]; cbn [nonempty negb].
  - eexists; eexists; exists [Mkdir (Args.output_dir args)].
    split; [reflexivity|]. split; [reflexivity|].
    constructor; [now left | constructor].
  - destruct (tickers_events (t :: ts) (emit (Mkdir (Args.output_dir args)) w))
      as (w' & r & evs & Hrun & Htr & Hevs).
    exists w', r, (Mkdir (Args.output_dir args) :: evs).
    split; [exact Hrun|]. split.
    { rewrite Htr. simpl. now rewrite <- app_assoc. }
    constructor; [now left | exact Hevs].
Qed.

End RunConfinement.

Lemma run_event_get (args : Args.t) (tickers : list str) (rq : Request.t) :
  run_event args tickers (Get rq) ->
  exists t q, In t tickers /\ In q (Args.quarters args)
              /\ unit_request args t q rq.
Proof.
  intros [H|(t & Ht & [H|(q & Hq & H)])]; try discriminate H.
  now exists t, q.
Qed.

Lemma run_event_write (args : Args.t) (tickers : list str) (p : path)
    (f : file) :
  run_event args tickers (WriteFile p f) ->
  exists t q, In t tickers /\ In q (Args.quarters args)
              /\ unit_write args t q p f.
Proof.
  intros [H|(t & Ht & [H|(q & Hq & H)])]; try discriminate H.
  now exists t, q.
Qed.

Lemma run_event_backoff (args : Args.t) (tickers : list str) (a : Z) :
  run_event args tickers (Sleep (BackoffDelay a)) ->
  (0 <= a < Args.max_rate_limit_retries args)%Z /\ (a < 1024)%Z.
Proof.
  intros [H|(t & Ht & [H|(q & Hq & H)])]; try discriminate H. exact H.
Qed.

Lemma unit_request_url (args : Args.t) (t : str) (q : Z) (rq : Request.t) :
  unit_request args t q rq ->
  startswith (Request.url rq) (unit_url args t q) = true
  /\ Request.params rq = [(HTMX_PARAM_NAME, HTMX_PARAM_VALUE)].
Proof.
  intros (i & _ & ->). split; [|reflexivity].
  apply startswith_iff. cbn [fragment_request Request.url]. unfold frag_url.
  destruct (i =? 0)%Z.
  - exists []. now rewrite app_nil_r.
  - now exists (dec i ++ lit "/").
Qed.

(** X16.  Before anything else [fetch_all_transcripts_for_year] asks for the
    output directory and reads the ticker list.  If reading raises (the file
    does not exist, or its header is wrong), the run ends with that error;
    if the list is empty, it ends with [ValueError].  In both cases the run
    has shown nothing but the request for the directory: no address was
    fetched. *)
Theorem batch_setup_errors
    (server : list event -> Request.t -> reply) (_html_to_text : str -> str)
    (args : Args.t) (w : World) :
  (forall e,
     snd (_read_tickers_from_sandp_csv (Args.tickers_csv_path args) w)
     = Raise e ->
     fetch_all_transcripts_for_year server _html_to_text args w
     = (emit (Mkdir (Args.output_dir args)) w, Raise e))
  /\ (snd (_read_tickers_from_sandp_csv (Args.tickers_csv_path args) w)
      = Return [] ->
      exists msg,
        fetch_all_transcripts_for_year server _html_to_text args w
        = (emit (Mkdir (Args.output_dir args)) w, Raise (ValueError msg)))
  /\ (files w (Args.tickers_csv_path args) = None ->
      exists msg,
        fetch_all_transcripts_for_year server _html_to_text args w
        = (emit (Mkdir (Args.output_dir args)) w,
           Raise (FileNotFoundError msg))).
Proof.
  assert (Hrun : forall r,
            snd (_read_tickers_from_sandp_csv (Args.tickers_csv_path args) w)
            = r ->
            fetch_all_transcripts_for_year server _html_to_text args w
            = match r with
              | Return tickers =>
                  if negb (nonempty tickers)
                  then (emit (Mkdir (Args.output_dir args)) w,
                        Raise (ValueError (lit "No tickers found")))
                  else for_each tickers
                         (process_ticker server _html_to_text args)
                         (emit (Mkdir (Args.output_dir args)) w)
              | Raise e => (emit (Mkdir (Args.output_dir args)) w, Raise e)
              | OutOfFuel => (emit (Mkdir (Args.output_dir args)) w, OutOfFuel)
              end).
  { intros r Hr.
    unfold fetch_all_transcripts_for_year. unfold bind at 1.
    unfold mkdir at 1, log. unfold bind at 1.
    rewrite (surjective_pairing (_read_tickers_from_sandp_csv _ _)).
    rewrite read_tickers_world.
    rewrite (read_tickers_files _ _ w) by reflexivity. rewrite Hr.
    destruct r as [tickers|e|]; try reflexivity.
    now destruct (negb (nonempty tickers)). }
  split; [|split].
  - intros e He. now rewrite (Hrun _ He).
  - intros Hnil. rewrite (Hrun _ Hnil). eexists. reflexivity.
  - intros Hf. eexists. apply (Hrun (Raise (FileNotFoundError _))).
    unfold _read_tickers_from_sandp_csv, bind, read_file. now rewrite Hf.
Qed.

(** The theorem at a disk without a ticker list. *)
Lemma batch_setup_errors_witness :
  let args := example_args true true in
  let w := mkWorld [] (fun _ => None) no_draws in
  exists msg,
    fetch_all_transcripts_for_year always_x plain_text args w
    = (emit (Mkdir (Args.output_dir args)) w, Raise (FileNotFoundError msg)).
Proof.
  intros args w.
  apply (proj2 (proj2 (batch_setup_errors always_x plain_text args w))).
  reflexivity.
Defined.

(** X17.  A run over a loaded ticker list sends no request but those of its
    units: every request is for a fragment (the base, or a numbered part up
    to [max_parts]) of the address of some ticker of the list and some
    requested quarter, so its address starts with that unit's address, and it
    carries the cache-buster parameter. *)
Theorem run_requests_confined
    (server : list event -> Request.t -> reply) (_html_to_text : str -> str)
    (args : Args.t) (w : World) (tickers : list str) :
  snd (_read_tickers_from_sandp_csv (Args.tickers_csv_path args) w)
  = Return tickers ->
  exists w' r evs,
    fetch_all_transcripts_for_year server _html_to_text args w = (w', r)
    /\ trace w' = trace w ++ evs
    /\ forall rq, In (Get rq) evs ->
         exists t q,
           In t tickers /\ In q (Args.quarters args)
           /\ unit_request args t q rq
           /\ startswith (Request.url rq) (unit_url args t q) = true
           /\ Request.params rq = [(HTMX_PARAM_NAME, HTMX_PARAM_VALUE)].
Proof.
  intros Hread.
  destruct (batch_events server _html_to_text args tickers w Hread)
    as (w' & r & evs & Hrun & Htr & Hevs).
  exists w', r, evs. split; [exact Hrun|]. split; [exact Htr|].
  intros rq Hin. rewrite Forall_forall in Hevs.
  destruct (run_event_get args tickers rq (Hevs _ Hin))
    as (t & q & Ht & Hq & Hreq).
  exists t, q. split; [exact Ht|]. split; [exact Hq|]. split; [exact Hreq|].
  now apply unit_request_url.
Qed.

(** The theorem at the run of the examples. *)
Lemma run_requests_confined_witness :
  let args := example_args true true in
  let w := mkWorld [] fresh_disk no_draws in
  exists w' r evs,
    fetch_all_transcripts_for_year always_x plain_text args w = (w', r)
    /\ trace w' = trace w ++ evs
    /\ forall rq, In (Get rq) evs ->
         exists t q,
           In t [lit "AAPL"] /\ In q (Args.quarters args)
           /\ unit_request args t q rq
           /\ startswith (Request.url rq) (unit_url args t q) = true
           /\ Request.params rq = [(HTMX_PARAM_NAME, HTMX_PARAM_VALUE)].
Proof.
  intros args w.
  apply (run_requests_confined always_x plain_text args w [lit "AAPL"]).
  reflexivity.
Defined.

(** X18.  A run over a loaded ticker list writes no file but the outputs of
    its units: every write is the text output of a unit, holding a text in
    normal form, or its CSV output, holding the header row and at least one
    more row; each only if that output was requested, and each at the path
    that the skip check looks at, directly inside the ticker's directory. *)
Theorem run_writes_confined
    (server : list event -> Request.t -> reply) (_html_to_text : str -> str)
    (args : Args.t) (w : World) (tickers : list str) :
  snd (_read_tickers_from_sandp_csv (Args.tickers_csv_path args) w)
  = Return tickers ->
  exists w' r evs,
    fetch_all_transcripts_for_year server _html_to_text args w = (w', r)
    /\ trace w' = trace w ++ evs
    /\ forall p f, In (WriteFile p f) evs ->
         exists t q,
           In t tickers /\ In q (Args.quarters args)
           /\ unit_write args t q p f
           /\ exists name, p = ticker_dir_of args t ++ [name].
Proof.
  intros Hread.
  destruct (batch_events server _html_to_text args tickers w Hread)
    as (w' & r & evs & Hrun & Htr & Hevs).
  exists w', r, evs. split; [exact Hrun|]. split; [exact Htr|].
  intros p f Hin. rewrite Forall_forall in Hevs.
  destruct (run_event_write args tickers p f (Hevs _ Hin))
    as (t & q & Ht & Hq & Hw).
  exists t, q. split; [exact Ht|]. split; [exact Hq|]. split; [exact Hw|].
  destruct (unit_file_simple args t q ".txt") as (T1 & T2 & T3);
    [intros [H|[H|[H|[H|[]]]]]; discriminate H | simpl; lia |].
  destruct (unit_file_simple args t q ".csv") as (C1 & C2 & C3);
    [intros [H|[H|[H|[H|[]]]]]; discriminate H | simpl; lia |].
  destruct Hw as [(_ & -> & _)|(_ & -> & _)]; unfold output_file, path_div.
  - eexists. rewrite (Path_simple _ T1 T2 T3).
    destruct (startswith _ (lit "/")) eqn:E; [|reflexivity].
    apply startswith_iff in E. destruct E as [b E]. elim T1.
    rewrite E. now left.
  - eexists. rewrite (Path_simple _ C1 C2 C3).
    destruct (startswith _ (lit "/")) eqn:E; [|reflexivity].
    apply startswith_iff in E. destruct E as [b E]. elim C1.
    rewrite E. now left.
Qed.

(** The theorem at the run of the examples. *)
Lemma run_writes_confined_witness :
  let args := example_args true true in
  let w := mkWorld [] fresh_disk no_draws in
  exists w' r evs,
    fetch_all_transcripts_for_year always_x plain_text args w = (w', r)
    /\ trace w' = trace w ++ evs
    /\ forall p f, In (WriteFile p f) evs ->
         exists t q,
           In t [lit "AAPL"] /\ In q (Args.quarters args)
           /\ unit_write args t q p f
           /\ exists name, p = ticker_dir_of args t ++ [name].
Proof.
  intros args w.
  apply (run_writes_confined always_x plain_text args w [lit "AAPL"]).
  reflexivity.
Defined.

(** X19.  A run never backs off beyond its budget: every backoff delay of a
    run belongs to an attempt number from 0 up to, and not including,
    [max_rate_limit_retries] (and below 1024, where the delay can still be
    computed); with a budget of zero or less a run never backs off. *)
Theorem run_backoffs_within_budget
    (server : list event -> Request.t -> reply) (_html_to_text : str -> str)
    (args : Args.t) (w : World) (tickers : list str) :
  snd (_read_tickers_from_sandp_csv (Args.tickers_csv_path args) w)
  = Return tickers ->
  exists w' r evs,
    fetch_all_transcripts_for_year server _html_to_text args w = (w', r)
    /\ trace w' = trace w ++ evs
    /\ (forall a, In (Sleep (BackoffDelay a)) evs ->
          (0 <= a < Args.max_rate_limit_retries args)%Z /\ (a < 1024)%Z)
    /\ ((Args.max_rate_limit_retries args <= 0)%Z -> backoffs evs = 0).
Proof.
  intros Hread.
  destruct (batch_events server _html_to_text args tickers w Hread)
    as (w' & r & evs & Hrun & Htr & Hevs).
  exists w', r, evs. split; [exact Hrun|]. split; [exact Htr|].
  rewrite Forall_forall in Hevs.
  assert (Hb : forall a, In (Sleep (BackoffDelay a)) evs ->
                 (0 <= a < Args.max_rate_limit_retries args)%Z
                 /\ (a < 1024)%Z).
  { intros a Hin. exact (run_event_backoff args tickers a (Hevs _ Hin)). }
  split; [exact Hb|]. intros Hmax. unfold backoffs.
  destruct (filter is_backoff evs) as [|e rest] eqn:E; [reflexivity|].
  assert (Hin : In e (filter is_backoff evs)) by (rewrite E; now left).
  apply filter_In in Hin. destruct Hin as [Hin He].
  destruct e as [rq|[s|a|s]|l|p|p f]; try discriminate He.
  destruct (Hb a Hin). lia.
Qed.

(** The theorem at a run against a server that always shows the rate-limit
    page. *)
Lemma run_backoffs_within_budget_witness :
  let args := example_args true true in
  let w := mkWorld [] fresh_disk no_draws in
  exists w' r evs,
    fetch_all_transcripts_for_year always_limited plain_text args w = (w', r)
    /\ trace w' = trace w ++ evs
    /\ (forall a, In (Sleep (BackoffDelay a)) evs ->
          (0 <= a < Args.max_rate_limit_retries args)%Z /\ (a < 1024)%Z)
    /\ ((Args.max_rate_limit_retries args <= 0)%Z -> backoffs evs = 0).
Proof.
  intros args w.
  apply (run_backoffs_within_budget always_limited plain_text args w
           [lit "AAPL"]).
  reflexivity.
Defined.

(** ** File name from an address *)

Lemma strip_prefix_app (p s : str) : strip_prefix p (p ++ s) = Some s.
Proof.
  induction p as [|c p IH]; [now destruct s|].
  simpl. now rewrite Ascii.eqb_refl.
Qed.

Lemma run_length_all (f : ascii -> bool) (u : str) (d : ascii) (s : str) :
  forallb f u = true -> f d = false ->
  run_length f (u ++ d :: s) = length u.
Proof.
  intros Hu Hd. induction u as [|c u IH]; simpl.
  - now rewrite Hd.
  - simpl in Hu. apply andb_prop in Hu. destruct Hu as [Hc Hu].
    rewrite Hc. f_equal. now apply IH.
Qed.

Lemma firstn_length_app {A} (u s : list A) : firstn (length u) (u ++ s) = u.
Proof. induction u; simpl; [now destruct s | now f_equal]. Qed.

Lemma skipn_length_app {A} (u s : list A) : skipn (length u) (u ++ s) = s.
Proof. induction u; simpl; auto. Qed.

(** The match at the head of an address of the expected form. *)
Lemma url_fields_at_match (ticker year quarter rest : str) :
  ticker <> [] -> forallb not_slash ticker = true ->
  length year = 4 -> forallb is_digit year = true ->
  quarter <> [] -> forallb is_digit quarter = true ->
  url_fields_at (lit "/company/" ++ ticker ++ lit "/transcripts/" ++ year
                 ++ lit "/" ++ quarter ++ lit "/" ++ rest)
  = Some (ticker, year, quarter).
Proof.
  intros Ht Hts Hy Hyd Hq Hqd. unfold url_fields_at.
  rewrite strip_prefix_app. cbv zeta.
  change (lit "/transcripts/" ++ year ++ lit "/" ++ quarter ++ lit "/" ++ rest)
    with ("/"%char :: (lit "transcripts/" ++ year ++ lit "/" ++ quarter
                       ++ lit "/" ++ rest)).
  rewrite (run_length_all not_slash ticker) by (assumption || reflexivity).
  destruct (length ticker =? 0) eqn:E.
  { apply Nat.eqb_eq in E. destruct ticker; [congruence | discriminate]. }
  rewrite skipn_length_app, firstn_length_app.
  change ("/"%char :: (lit "transcripts/" ++ year ++ lit "/" ++ quarter
                       ++ lit "/" ++ rest))
    with (lit "/transcripts/" ++ year ++ lit "/" ++ quarter ++ lit "/" ++ rest).
  rewrite strip_prefix_app.
  assert (F4 : forall x : str, firstn 4 (year ++ x) = year)
    by (intros x; rewrite <- Hy; apply firstn_length_app).
  assert (S4 : forall x : str, skipn 4 (year ++ x) = x)
    by (intros x; rewrite <- Hy; apply skipn_length_app).
  rewrite !F4, S4, Hy, Hyd. cbn [Nat.eqb andb].
  rewrite strip_prefix_app.
  change (quarter ++ lit "/" ++ rest) with (quarter ++ "/"%char :: rest).
  rewrite (run_length_all is_digit quarter) by (assumption || reflexivity).
  destruct (length quarter =? 0) eqn:E'.
  { apply Nat.eqb_eq in E'. destruct quarter; [congruence | discriminate]. }
  rewrite skipn_length_app, firstn_length_app.
  change ("/"%char :: rest) with (lit "/" ++ rest).
  now rewrite strip_prefix_app.
Qed.

Lemma url_fields_skip (pre s : str) :
  forallb not_slash pre = true -> url_fields (pre ++ s) = url_fields s.
Proof.
  induction pre as [|c pre IH]; intros H; [reflexivity|].
  simpl in H. apply andb_prop in H. destruct H as [Hc H].
  simpl app. cbn [url_fields].
  assert (Hat : url_fields_at (c :: pre ++ s) = None).
  { unfold url_fields_at. cbn [lit list_ascii_of_string strip_prefix].
    unfold not_slash in Hc. apply negb_true_iff in Hc.
    rewrite Ascii.eqb_sym in Hc. now rewrite Hc. }
  rewrite Hat. now apply IH.
Qed.

Lemma url_fields_skip_slash (c : ascii) (s : str) :
  c <> "c"%char -> url_fields ("/"%char :: c :: s) = url_fields (c :: s).
Proof.
  intros Hc. cbn [url_fields].
  assert (Hat : url_fields_at ("/"%char :: c :: s) = None).
  { unfold url_fields_at. cbn [lit list_ascii_of_string strip_prefix].
    rewrite Ascii.eqb_refl.
    apply ascii_eqb_false in Hc. rewrite Ascii.eqb_sym in Hc. now rewrite Hc. }
  now rewrite Hat.
Qed.

(** Decimal rendering of a number that is not negative: digits, at least
    one. *)
Lemma uint_digits (d : Decimal.uint) :
  forallb is_digit (lit (NilEmpty.string_of_uint d)) = true.
Proof. induction d; simpl; auto. Qed.

Lemma dec_digits (z : Z) :
  (0 <= z)%Z -> forallb is_digit (dec z) = true /\ dec z <> [].
Proof.
  intros Hz. unfold dec, NilZero.string_of_int.
  assert (Hu : forall d,
            forallb is_digit (lit (NilZero.string_of_uint d)) = true
            /\ lit (NilZero.string_of_uint d) <> []).
  { intros d. unfold NilZero.string_of_uint. split.
    - destruct d; try apply uint_digits. reflexivity.
    - destruct d; simpl; discriminate. }
  destruct z as [|p|p]; [apply Hu | apply Hu | lia].
Qed.

Lemma year_four_digits (y : Z) :
  (1000 <= y <= 9999)%Z -> length (dec y) = 4.
Proof.
  intros Hy.
  assert (Hall : forallb (fun z => length (dec z) =? 4) (range 1000 10000)
                 = true)
    by (vm_compute; reflexivity).
  rewrite forallb_forall in Hall. apply Nat.eqb_eq. apply Hall.
  unfold range. apply zseq_In. lia.
Qed.

Lemma filename_base_of_unit_url (args : Args.t) (t : str) (q : Z) :
  t <> [] -> ~ In "/"%char t ->
  (1000 <= Args.year args <= 9999)%Z -> (0 <= q)%Z ->
  _filename_base_from_url (unit_url args t q)
  = t ++ lit "_" ++ dec (Args.year args) ++ lit "_Q" ++ dec q.
Proof.
  intros Ht Hslash Hy Hq.
  assert (Hts : forallb not_slash t = true).
  { apply forallb_forall. intros c Hc. unfold not_slash.
    apply negb_true_iff, ascii_eqb_false. intros ->. contradiction. }
  destruct (dec_digits (Args.year args) ltac:(lia)) as [Hyd _].
  destruct (dec_digits q Hq) as [Hqd Hqn].
  set (X := lit "/company/" ++ t ++ lit "/transcripts/"
            ++ dec (Args.year args) ++ lit "/" ++ dec q ++ lit "/" ++ []).
  assert (Hurl : unit_url args t q
                 = lit "https:" ++ "/"%char :: "/"%char
                   :: lit "discountingcashflows.com" ++ X)
    by reflexivity.
  unfold _filename_base_from_url. rewrite Hurl.
  rewrite url_fields_skip by reflexivity.
  rewrite url_fields_skip_slash by discriminate.
  change (lit "discountingcashflows.com" ++ X)
    with ("d"%char :: lit "iscountingcashflows.com" ++ X).
  rewrite url_fields_skip_slash by discriminate.
  change ("d"%char :: lit "iscountingcashflows.com" ++ X)
    with (lit "discountingcashflows.com" ++ X).
  rewrite url_fields_skip by reflexivity.
  assert (Hat : url_fields_at X
                = Some (t, dec (Args.year args), dec q)).
  { apply url_fields_at_match; auto using year_four_digits. }
  destruct X as [|c0 s0]; [discriminate Hat|].
  cbn [url_fields]. now rewrite Hat.
Qed.

(** X20.  The file name that [_filename_base_from_url] reads off the address
    of a unit is the stem under which the batch run saves that unit: for a
    ticker that is a safe file name already (so not empty, no slash) and a
    year of four digits, address and stem agree.  For any ticker without a
    slash the result is ticker, year and quarter joined as
    "<ticker>_<year>_Q<quarter>". *)
Theorem filename_base_round_trip (args : Args.t) (t : str) (q : Z) :
  t <> [] -> ~ In "/"%char t ->
  (1000 <= Args.year args <= 9999)%Z -> (0 <= q)%Z ->
  _filename_base_from_url (unit_url args t q)
  = t ++ lit "_" ++ dec (Args.year args) ++ lit "_Q" ++ dec q
  /\ (_safe_filename t = t ->
      _filename_base_from_url (unit_url args t q)
      = unit_stem args (_safe_filename t) q).
Proof.
  intros Ht Hslash Hy Hq.
  pose proof (filename_base_of_unit_url args t q Ht Hslash Hy Hq) as H.
  split; [exact H|]. intros Hsafe. now rewrite Hsafe, H.
Qed.

(** The theorem at AAPL, 2025, fourth quarter. *)
Lemma filename_base_round_trip_witness :
  _filename_base_from_url
    (lit "https://discountingcashflows.com/company/AAPL/transcripts/2025/4/")
  = lit "AAPL_2025_Q4".
Proof.
  apply (proj1 (filename_base_round_trip (example_args true true)
                  (lit "AAPL") 4 ltac:(discriminate)
                  ltac:(intros H; repeat (destruct H as [H|H];
                                          [discriminate H|]); exact H)
                  ltac:(simpl; lia) ltac:(lia))).
Defined.

(** ** When a unit is skipped *)

(** X21.  A unit is skipped as already processed exactly when at least one
    output is requested and every requested output file exists and is not
    empty: in that case it prints [SKIP-DONE] and does nothing else, and in
    every other case it begins with a request. *)
Theorem unit_skipped_iff_outputs_present
    (server : list event -> Request.t -> reply) (_html_to_text : str -> str)
    (args : Args.t) (w : World) (t : str) (q : Z) :
  (outputs_present args w t q <->
   process_unit server _html_to_text args t (_safe_filename t)
     (ticker_dir_of args t) q w
   = (emit (Print (SKIP_DONE t (Args.year args) q)) w, Return tt))
  /\ (~ outputs_present args w t q ->
      exists rq rest,
        trace (fst (process_unit server _html_to_text args t
                      (_safe_filename t) (ticker_dir_of args t) q w))
        = trace w ++ Get rq :: rest).
Proof.
  assert (Hnot : ~ outputs_present args w t q ->
                 exists rq rest,
                   trace (fst (process_unit server _html_to_text args t
                                 (_safe_filename t) (ticker_dir_of args t) q w))
                   = trace w ++ Get rq :: rest).
  { intros Hno. unfold process_unit, bind.
    destruct (already_processed_result (ticker_dir_of args t)
                (unit_stem args (_safe_filename t) q)
                (Args.save_txt args) (Args.save_csv args) w) as [[|] Hdone].
    { exfalso. apply Hno. now apply already_processed_inv. }
    rewrite Hdone.
    destruct (retry_loop_spec server _html_to_text args t
                (ticker_dir_of args t) (unit_stem args (_safe_filename t) q) q
                (retry_fuel args) 0 w)
      as (w1 & r1 & rq & body & Hloop & Htr1 & _);
      [lia | unfold retry_fuel; lia |].
    rewrite Hloop. exists rq.
    destruct r1 as [u|e|].
    - rewrite sleep_with_jitter_run.
      destruct (pacing_accepted (Args.sleep_s args) (Args.jitter_s args)
                  (draw_of_bits (genrand w1 (trace w1)))).
      + cbn [fst extend trace].
        rewrite Htr1, <- app_assoc. eexists. reflexivity.
      + cbn [fst]. eauto.
    - cbn [fst]. eauto.
    - cbn [fst]. eauto. }
  split; [|exact Hnot]. split.
  - intros Hp.
    now apply (process_unit_skips server _html_to_text args w w).
  - intros Hrun.
    destruct (already_processed_result (ticker_dir_of args t)
                (unit_stem args (_safe_filename t) q)
                (Args.save_txt args) (Args.save_csv args) w) as [[|] Hdone].
    + now apply already_processed_inv.
    + exfalso.
      assert (Hno : ~ outputs_present args w t q).
      { intros Hp. rewrite (already_processed_true args w w t q eq_refl Hp)
          in Hdone. discriminate Hdone. }
      destruct (Hnot Hno) as (rq & rest & Htr).
      rewrite Hrun in Htr. cbn [fst emit trace] in Htr.
      apply app_inv_head in Htr. discriminate Htr.
Qed.

(** The theorem at the unit AAPL 2025 Q2 on the disk that has the outputs of
    the first quarter only. *)
Lemma unit_skipped_iff_outputs_present_witness :
  let args := example_args true true in
  let w := mkWorld [] disk_with_q1 no_draws in
  exists rq rest,
    trace (fst (process_unit always_x plain_text args (lit "AAPL")
                  (_safe_filename (lit "AAPL"))
                  (ticker_dir_of args (lit "AAPL")) 2 w))
    = trace w ++ Get rq :: rest.
Proof.
  intros args w.
  apply (proj2 (unit_skipped_iff_outputs_present always_x plain_text args w
                  (lit "AAPL") 2)).
  intros (_ & Htxt & _). specialize (Htxt eq_refl). discriminate Htxt.
Defined.

(** ** How a run ends *)


Section RunEndings.

Variable server : list event -> Request.t -> reply.
Variable _html_to_text : str -> str.
Variable args : Args.t.








End RunEndings.



